(** * TrainManager (individual_1.py): a shallow embedding and its properties

    The development follows [src/individual_1.py].  The class [TrainManager]
    keeps one attribute, [self.trains], and five methods work on it:
    [add_train], [list_trains], [select_trains], [load_from_json] and
    [save_to_json].  The last two go through Python's [json] module and a
    text file opened with [encoding="utf-8"], so a file holds bytes, and
    the codec and the JSON writer and reader are part of the model.
    [self.trains] is whatever [json.load] returned last, so the methods are
    defined on every JSON value and raise where the Python code raises.

    Around the class the file has [print_trains], which prints a list of
    trains as a table, the exception [UnknownCommandError], and [main],
    the loop that reads commands from standard input.  They are modelled
    on top of the class: what is printed is a list of texts, and the loop
    is a function from the state of a session to the next one.

    Functions of the Python library that are parameters: [str.lower],
    which follows the Unicode tables, the [repr] of a [float], and, for
    [print_trains] and [main], whether a [float] is zero, the text
    [format] gives a [float], the [str] of a library exception, what
    [list.sort] and [json.dump] leave behind when they raise in the
    middle, and the bytes of the log file.

    Layout.  Definitions: strings, exceptions, the UTF-8 codec, Python
    values, the JSON writer, the JSON reader, the grammar of JSON texts,
    files and the log, the class, the vocabulary of the properties,
    [print_trains], [UnknownCommandError] and the commands, and [main].
    Properties: the order of [str], the sort, [add_train],
    [select_trains], the codec and the reader, the reader on the writer's
    text, [load_from_json] with the proof that what the reader accepts is
    JSON, [save_to_json], and a save followed by a load.  More properties:
    [add_train] call after call and on a sorted list, records that lack a
    field, [select_trains] after [add_train], more on saving and loading,
    [print_trains], the commands of [main], its loop, the commands one by
    one, and what a turn of the loop leaves alone. *)

From Stdlib Require Import List ZArith Lia Bool.
From Stdlib Require Import Strings.String Strings.Ascii Strings.Byte.
From Stdlib Require Import Sorting.Sorted Sorting.Permutation DecimalString.
Import ListNotations.

Local Open Scope Z_scope.

(* ===================================================================== *)
(** ** Python strings *)
(* ===================================================================== *)

(** A Python [str] is a sequence of Unicode code points. *)
Definition pystr : Type := list Z.

(** A [str] holds code points from [0] to [0x10FFFF].  The surrogates,
    [0xD800 .. 0xDFFF], are code points a [str] may hold but that no UTF-8
    text can. *)
Definition is_surrogate (c : Z) : bool := (55296 <=? c) && (c <=? 57343).

(** A code point the UTF-8 codec accepts. *)
Definition is_scalar (c : Z) : Prop :=
  0 <= c < 1114112 /\ is_surrogate c = false.

(** [a == b] on two [str]. *)
Fixpoint str_eqb (a b : pystr) : bool :=
  match a, b with
  | [], [] => true
  | x :: a', y :: b' => (x =? y) && str_eqb a' b'
  | _, _ => false
  end.

(** The three-way comparison behind [<] on [str]: code point by code point,
    a proper prefix is smaller. *)
Fixpoint str_compare (a b : pystr) : comparison :=
  match a, b with
  | [], [] => Eq
  | [], _ :: _ => Lt
  | _ :: _, [] => Gt
  | x :: a', y :: b' =>
      match x ?= y with
      | Eq => str_compare a' b'
      | c => c
      end
  end.

(** [a < b] on two [str]. *)
Definition str_lt (a b : pystr) : bool :=
  match str_compare a b with Lt => true | _ => false end.

(** [a <= b] on two [str]. *)
Definition str_le (a b : pystr) : bool :=
  match str_compare a b with Gt => false | _ => true end.

(** [s.startswith(p)], also used for the slice tests [s[i:i+n] == p]. *)
Fixpoint startswith (s p : pystr) : bool :=
  match p with
  | [] => true
  | y :: p' =>
      match s with
      | [] => false
      | x :: s' => (x =? y) && startswith s' p'
      end
  end.

(** [s.endswith(p)]. *)
Definition endswith (s p : pystr) : bool :=
  startswith (rev s) (rev p).

(* ===================================================================== *)
(** ** Exceptions and results *)
(* ===================================================================== *)

(** The exception classes the modelled code can raise. *)
Inductive exn : Type :=
| AttributeError
| TypeError
| KeyError (key : pystr)
| JSONDecodeError
| UnicodeDecodeError
| UnicodeEncodeError
| RecursionError.

(** A computation that returns a value or raises. *)
Inductive result (A : Type) : Type :=
| Ok (a : A)
| Exc (e : exn).
Arguments Ok {A} a.
Arguments Exc {A} e.

(* ===================================================================== *)
(** ** The UTF-8 codec *)
(* ===================================================================== *)

(** Bytes of one code point, as numbers.  The codec is strict: it refuses
    surrogates, as [open(..., encoding="utf-8")] does. *)
Definition utf8_encode_char (c : Z) : result (list Z) :=
  if c <? 0 then Exc UnicodeEncodeError
  else if c <? 128 then Ok [c]
  else if c <? 2048 then Ok [192 + c / 64; 128 + c mod 64]
  else if c <? 65536 then
    if is_surrogate c then Exc UnicodeEncodeError
    else Ok [224 + c / 4096; 128 + (c / 64) mod 64; 128 + c mod 64]
  else if c <? 1114112 then
    Ok [240 + c / 262144; 128 + (c / 4096) mod 64;
        128 + (c / 64) mod 64; 128 + c mod 64]
  else Exc UnicodeEncodeError.

Fixpoint utf8_encode_Z (s : pystr) : result (list Z) :=
  match s with
  | [] => Ok []
  | c :: s' =>
      match utf8_encode_char c with
      | Exc e => Exc e
      | Ok bs =>
          match utf8_encode_Z s' with
          | Exc e => Exc e
          | Ok r => Ok (bs ++ r)
          end
      end
  end.

(** A continuation byte [10xxxxxx]. *)
Definition is_cont (b : Z) : bool := (128 <=? b) && (b <=? 191).

(** Decoding refuses what the strict decoder refuses: a stray or missing
    continuation byte, an over-long form, a surrogate, a value above
    [0x10FFFF]. *)
Fixpoint utf8_decode_Z (bs : list Z) : result pystr :=
  match bs with
  | [] => Ok []
  | b0 :: r0 =>
      if (0 <=? b0) && (b0 <? 128) then
        match utf8_decode_Z r0 with
        | Ok s => Ok (b0 :: s)
        | Exc e => Exc e
        end
      else if (194 <=? b0) && (b0 <? 224) then
        match r0 with
        | b1 :: r1 =>
            if is_cont b1 then
              match utf8_decode_Z r1 with
              | Ok s => Ok ((b0 - 192) * 64 + (b1 - 128) :: s)
              | Exc e => Exc e
              end
            else Exc UnicodeDecodeError
        | _ => Exc UnicodeDecodeError
        end
      else if (224 <=? b0) && (b0 <? 240) then
        match r0 with
        | b1 :: b2 :: r2 =>
            let c := (b0 - 224) * 4096 + (b1 - 128) * 64 + (b2 - 128) in
            if is_cont b1 && is_cont b2 && (2048 <=? c)
               && negb (is_surrogate c) then
              match utf8_decode_Z r2 with
              | Ok s => Ok (c :: s)
              | Exc e => Exc e
              end
            else Exc UnicodeDecodeError
        | _ => Exc UnicodeDecodeError
        end
      else if (240 <=? b0) && (b0 <? 245) then
        match r0 with
        | b1 :: b2 :: b3 :: r3 =>
            let c := (b0 - 240) * 262144 + (b1 - 128) * 4096
                     + (b2 - 128) * 64 + (b3 - 128) in
            if is_cont b1 && is_cont b2 && is_cont b3
               && (65536 <=? c) && (c <? 1114112) then
              match utf8_decode_Z r3 with
              | Ok s => Ok (c :: s)
              | Exc e => Exc e
              end
            else Exc UnicodeDecodeError
        | _ => Exc UnicodeDecodeError
        end
      else Exc UnicodeDecodeError
  end.

(** The content of a file: bytes. *)
Definition bytes : Type := list byte.

Definition Z_of_byte (b : byte) : Z := Z.of_N (Byte.to_N b).

Definition byte_of_Z (z : Z) : byte :=
  match Byte.of_N (Z.to_N z) with
  | Some b => b
  | None => x00
  end.

(** [s.encode("utf-8")]. *)
Definition utf8_encode (s : pystr) : result bytes :=
  match utf8_encode_Z s with
  | Ok zs => Ok (map byte_of_Z zs)
  | Exc e => Exc e
  end.

(** [b.decode("utf-8")]. *)
Definition utf8_decode (b : bytes) : result pystr :=
  utf8_decode_Z (map Z_of_byte b).

(** A string literal of the source, written here as UTF-8 text. *)
Definition lit (s : string) : pystr :=
  match utf8_decode (list_byte_of_string s) with
  | Ok t => t
  | Exc _ => []
  end.

(* ===================================================================== *)
(** ** Python values *)
(* ===================================================================== *)

#[local] Set Warnings "-register-all".

(** The values [json.load] can produce, which are also the values
    [self.trains] can hold.  A [dict] keeps its keys in insertion order and
    its keys are [str].  A [float] is carried as the literal it was read
    from: the code never computes with one. *)
Inductive pyval : Type :=
| PNone
| PBool (b : bool)
| PInt (n : Z)
| PFloat (literal : pystr)
| PStr (s : pystr)
| PList (items : list pyval)
| PDict (items : list (pystr * pyval)).

(** [d[k]], [None] standing for a missing key. *)
Fixpoint dict_get (k : pystr) (d : list (pystr * pyval)) : option pyval :=
  match d with
  | [] => None
  | (k', v') :: d' => if str_eqb k' k then Some v' else dict_get k d'
  end.

(** [d[k] = v]: a key already present keeps its place and takes the new
    value, a new key goes last. *)
Fixpoint dict_set (k : pystr) (v : pyval) (d : list (pystr * pyval))
  : list (pystr * pyval) :=
  match d with
  | [] => [(k, v)]
  | (k', v') :: d' =>
      if str_eqb k' k then (k', v) :: d' else (k', v') :: dict_set k v d'
  end.

(** [dict(pairs)]. *)
Definition dict_of_pairs (pairs : list (pystr * pyval)) : list (pystr * pyval) :=
  fold_left (fun d kv => dict_set (fst kv) (snd kv) d) pairs [].

(** [o[k]] for a [str] key [k]: only a [dict] can be subscripted by a
    [str]. *)
Definition getitem (o : pyval) (k : pystr) : result pyval :=
  match o with
  | PDict d =>
      match dict_get k d with
      | Some v => Ok v
      | None => Exc (KeyError k)
      end
  | _ => Exc TypeError
  end.

(** [iter(o)]: a list gives its items, a dict its keys, a string its
    characters; nothing else is iterable. *)
Definition iterate (o : pyval) : result (list pyval) :=
  match o with
  | PList l => Ok l
  | PDict d => Ok (map (fun kv => PStr (fst kv)) d)
  | PStr s => Ok (map (fun c => PStr [c]) s)
  | _ => Exc TypeError
  end.

(** Decimal digits of an integer, as [int.__repr__] and [str(int)] print
    them. *)
Definition int_repr (n : Z) : pystr :=
  map (fun a => Z.of_N (N_of_ascii a))
      (list_ascii_of_string (NilZero.string_of_int (Z.to_int n))).

(* ===================================================================== *)
(** ** The JSON writer: [json.dump(obj, f, ensure_ascii=False, indent=4)] *)
(* ===================================================================== *)

Definition hexdigit (d : Z) : Z := if d <? 10 then 48 + d else 87 + d.

(** [ESCAPE_DCT] of [json.encoder]: the quote, the backslash and the
    control characters are escaped, everything else is written as it is
    ([ensure_ascii=False]). *)
Definition escape_char (c : Z) : pystr :=
  if c =? 34 then [92; 34]
  else if c =? 92 then [92; 92]
  else if c =? 10 then [92; 110]
  else if c =? 13 then [92; 114]
  else if c =? 9 then [92; 116]
  else if c =? 12 then [92; 102]
  else if c =? 8 then [92; 98]
  else if (0 <=? c) && (c <? 32) then
    [92; 117; 48; 48; hexdigit (c / 16); hexdigit (c mod 16)]
  else [c].

(** [encode_basestring(s)]: the string between double quotes. *)
Definition encode_basestring (s : pystr) : pystr :=
  34 :: flat_map escape_char s ++ [34].

(** ['\n' + ' ' * 4 * level]. *)
Definition newline_indent (level : nat) : pystr :=
  10 :: repeat 32 (4 * level)%nat.

Definition s_null : pystr := Eval vm_compute in lit "null".
Definition s_true : pystr := Eval vm_compute in lit "true".
Definition s_false : pystr := Eval vm_compute in lit "false".
Definition s_NaN : pystr := Eval vm_compute in lit "NaN".
Definition s_Infinity : pystr := Eval vm_compute in lit "Infinity".
Definition s_neg_Infinity : pystr := Eval vm_compute in lit "-Infinity".

Section Writer.

(** [float.__repr__] of the float a literal denotes ([NaN], [Infinity]
    and [-Infinity] for the three special values): the one part of the
    writer that is left open. *)
Variable float_repr : pystr -> pystr.

(** [_iterencode(o, level)] of [json.encoder._make_iterencode], with
    [indent=4], the separators [','] and [': '] that an indent implies,
    and the chunks joined.  An empty list or dict is written [[]] or
    [{}]; otherwise every item goes on a line of its own, one level
    deeper. *)
Fixpoint iterencode (level : nat) (o : pyval) {struct o} : pystr :=
  match o with
  | PStr s => encode_basestring s
  | PNone => s_null
  | PBool true => s_true
  | PBool false => s_false
  | PInt n => int_repr n
  | PFloat l => float_repr l
  | PList [] => [91; 93]
  | PList (v :: vs) =>
      [91] ++ newline_indent (S level) ++ iterencode (S level) v
      ++ flat_map (fun v' =>
           [44] ++ newline_indent (S level) ++ iterencode (S level) v') vs
      ++ newline_indent level ++ [93]
  | PDict [] => [123; 125]
  | PDict ((k, v) :: kvs) =>
      [123] ++ newline_indent (S level)
      ++ encode_basestring k ++ [58; 32] ++ iterencode (S level) v
      ++ flat_map (fun kv : pystr * pyval =>
           let (k', v') := kv in
           [44] ++ newline_indent (S level)
           ++ encode_basestring k' ++ [58; 32] ++ iterencode (S level) v') kvs
      ++ newline_indent level ++ [125]
  end.

(** The text [json.dump] writes. *)
Definition json_dumps (o : pyval) : pystr := iterencode 0 o.

End Writer.

(* ===================================================================== *)
(** ** The JSON reader: [json.load(f)] *)
(* ===================================================================== *)

(** [WHITESPACE = [ \t\n\r]*]. *)
Definition is_ws (c : Z) : bool :=
  (c =? 32) || (c =? 9) || (c =? 10) || (c =? 13).

Fixpoint skip_ws (s : pystr) : pystr :=
  match s with
  | c :: r => if is_ws c then skip_ws r else s
  | [] => []
  end.

Definition hexval (c : Z) : option Z :=
  if (48 <=? c) && (c <=? 57) then Some (c - 48)
  else if (97 <=? c) && (c <=? 102) then Some (c - 87)
  else if (65 <=? c) && (c <=? 70) then Some (c - 55)
  else None.

(** The four hexadecimal digits of a [\uXXXX] escape. *)
Definition decode_uXXXX (h1 h2 h3 h4 : Z) : option Z :=
  match hexval h1, hexval h2, hexval h3, hexval h4 with
  | Some a, Some b, Some c, Some d => Some (((a * 16 + b) * 16 + c) * 16 + d)
  | _, _, _, _ => None
  end.

(** [BACKSLASH]: the one-letter escapes. *)
Definition backslash (c : Z) : option Z :=
  if c =? 34 then Some 34
  else if c =? 92 then Some 92
  else if c =? 47 then Some 47
  else if c =? 98 then Some 8
  else if c =? 102 then Some 12
  else if c =? 110 then Some 10
  else if c =? 114 then Some 13
  else if c =? 116 then Some 9
  else None.

(** [scanstring(s, end, strict=True)], started after the opening quote:
    the string read and the text after its closing quote.  A raw control
    character, an unknown escape, a bad [\uXXXX] and a missing closing
    quote are errors; a high surrogate escape directly followed by a low
    surrogate escape gives one character. *)
Fixpoint scanstring (s : pystr) : result (pystr * pystr) :=
  match s with
  | [] => Exc JSONDecodeError
  | c :: r =>
      if c =? 34 then Ok ([], r)
      else if c =? 92 then
        match r with
        | [] => Exc JSONDecodeError
        | esc :: r1 =>
            if esc =? 117 then
              match r1 with
              | h1 :: h2 :: h3 :: h4 :: r2 =>
                  match decode_uXXXX h1 h2 h3 h4 with
                  | None => Exc JSONDecodeError
                  | Some uni =>
                      match r2 with
                      | b :: u :: r3 =>
                          if (55296 <=? uni) && (uni <=? 56319)
                             && (b =? 92) && (u =? 117) then
                            match r3 with
                            | g1 :: g2 :: g3 :: g4 :: r4 =>
                                match decode_uXXXX g1 g2 g3 g4 with
                                | None => Exc JSONDecodeError
                                | Some uni2 =>
                                    if (56320 <=? uni2) && (uni2 <=? 57343) then
                                      match scanstring r4 with
                                      | Ok (t, rest) =>
                                          Ok (65536 + ((uni - 55296) * 1024
                                                       + (uni2 - 56320)) :: t,
                                              rest)
                                      | Exc e => Exc e
                                      end
                                    else
                                      match scanstring r2 with
                                      | Ok (t, rest) => Ok (uni :: t, rest)
                                      | Exc e => Exc e
                                      end
                                end
                            | _ => Exc JSONDecodeError
                            end
                          else
                            match scanstring r2 with
                            | Ok (t, rest) => Ok (uni :: t, rest)
                            | Exc e => Exc e
                            end
                      | _ =>
                          match scanstring r2 with
                          | Ok (t, rest) => Ok (uni :: t, rest)
                          | Exc e => Exc e
                          end
                      end
                  end
              | _ => Exc JSONDecodeError
              end
            else
              match backslash esc with
              | None => Exc JSONDecodeError
              | Some ch =>
                  match scanstring r1 with
                  | Ok (t, rest) => Ok (ch :: t, rest)
                  | Exc e => Exc e
                  end
              end
        end
      else if c <? 32 then Exc JSONDecodeError
      else
        match scanstring r with
        | Ok (t, rest) => Ok (c :: t, rest)
        | Exc e => Exc e
        end
  end.

Definition is_digit (c : Z) : bool := (48 <=? c) && (c <=? 57).

(** The longest run of digits at the head of [s], and what follows it. *)
Fixpoint span_digits (s : pystr) : pystr * pystr :=
  match s with
  | c :: r =>
      if is_digit c then let (ds, r') := span_digits r in (c :: ds, r')
      else ([], s)
  | [] => ([], [])
  end.

(** [int(digits)] for a run of decimal digits. *)
Definition digits_value (ds : pystr) : Z :=
  fold_left (fun acc c => acc * 10 + (c - 48)) ds 0.

(** The three groups of [NUMBER_RE]: an optional minus sign and then
    either a lone zero or a digit from one to nine with any digits after
    it; optionally a dot and at least one digit; optionally [e] or [E], an
    optional sign and at least one digit.  The optional groups are taken
    whole or not at all. *)
Definition match_integer (s : pystr) : option (bool * pystr * pystr) :=
  let (neg, s1) :=
    match s with
    | c :: r => if c =? 45 then (true, r) else (false, s)
    | [] => (false, s)
    end in
  match s1 with
  | d :: r =>
      if d =? 48 then Some (neg, [48], r)
      else if is_digit d then
        let (ds, r') := span_digits r in Some (neg, d :: ds, r')
      else None
  | [] => None
  end.

Definition match_frac (s : pystr) : pystr * pystr :=
  match s with
  | c :: r =>
      if c =? 46 then
        match span_digits r with
        | ([], _) => ([], s)
        | (ds, r') => (46 :: ds, r')
        end
      else ([], s)
  | [] => ([], s)
  end.

Definition match_exp (s : pystr) : pystr * pystr :=
  match s with
  | e :: r =>
      if (e =? 101) || (e =? 69) then
        let (sign, r1) :=
          match r with
          | c :: r2 => if (c =? 45) || (c =? 43) then ([c], r2) else ([], r)
          | [] => ([], r)
          end in
        match span_digits r1 with
        | ([], _) => ([], s)
        | (ds, r') => (e :: sign ++ ds, r')
        end
      else ([], s)
  | [] => ([], s)
  end.

(** [match_number]: an integer literal becomes an [int], a literal with a
    fraction or an exponent a [float]. *)
Definition match_number (s : pystr) : option (pyval * pystr) :=
  match match_integer s with
  | None => None
  | Some (neg, ds, r) =>
      let (frac, r1) := match_frac r in
      let (exp, r2) := match_exp r1 in
      match frac, exp with
      | [], [] =>
          Some (PInt (if neg then - digits_value ds else digits_value ds), r2)
      | _, _ =>
          Some (PFloat ((if neg then [45] else []) ++ ds ++ frac ++ exp), r2)
      end
  end.

Section Containers.

(** [JSONArray] and [JSONObject] receive the scanner as an argument, as in
    [json.decoder]. *)
Variable scan_once : pystr -> result (pyval * pystr).

(** The [while True] loop of [JSONArray], entered at a value.  Every round
    reads a value and then a [,] or the closing bracket.  [fuel] bounds the
    rounds; started at the length of the text it is never used up, since a
    round consumes at least one character ([JSONArray_loop_raises]
    below). *)
Fixpoint JSONArray_loop (fuel : nat) (s : pystr) (values : list pyval)
  : result (pyval * pystr) :=
  match fuel with
  | O => Exc RecursionError
  | S fuel' =>
      match scan_once s with
      | Exc e => Exc e
      | Ok (value, s1) =>
          match skip_ws s1 with
          | c :: r =>
              if c =? 93 then Ok (PList (values ++ [value]), r)
              else if c =? 44 then
                JSONArray_loop fuel' (skip_ws r) (values ++ [value])
              else Exc JSONDecodeError
          | [] => Exc JSONDecodeError
          end
      end
  end.

(** [JSONArray], started after the opening bracket. *)
Definition JSONArray (s : pystr) : result (pyval * pystr) :=
  match skip_ws s with
  | c :: r =>
      if c =? 93 then Ok (PList [], r)
      else JSONArray_loop (S (List.length r)) (c :: r) []
  | [] => Exc JSONDecodeError
  end.

(** The [while True] loop of [JSONObject], entered after the opening
    quote of a key: the key, a colon, the value, then a [,] followed by
    the next key, or the closing brace. *)
Fixpoint JSONObject_loop (fuel : nat) (s : pystr)
  (pairs : list (pystr * pyval)) : result (pyval * pystr) :=
  match fuel with
  | O => Exc RecursionError
  | S fuel' =>
      match scanstring s with
      | Exc e => Exc e
      | Ok (key, s1) =>
          match skip_ws s1 with
          | c :: r =>
              if c =? 58 then
                match scan_once (skip_ws r) with
                | Exc e => Exc e
                | Ok (value, s2) =>
                    match skip_ws s2 with
                    | c' :: r' =>
                        if c' =? 125 then
                          Ok (PDict (dict_of_pairs (pairs ++ [(key, value)])),
                              r')
                        else if c' =? 44 then
                          match skip_ws r' with
                          | q :: r'' =>
                              if q =? 34 then
                                JSONObject_loop fuel' r''
                                  (pairs ++ [(key, value)])
                              else Exc JSONDecodeError
                          | [] => Exc JSONDecodeError
                          end
                        else Exc JSONDecodeError
                    | [] => Exc JSONDecodeError
                    end
                end
              else Exc JSONDecodeError
          | [] => Exc JSONDecodeError
          end
      end
  end.

(** [JSONObject], started after the opening brace. *)
Definition JSONObject (s : pystr) : result (pyval * pystr) :=
  match skip_ws s with
  | c :: r =>
      if c =? 125 then Ok (PDict [], r)
      else if c =? 34 then JSONObject_loop (S (List.length r)) r []
      else Exc JSONDecodeError
  | [] => Exc JSONDecodeError
  end.

End Containers.

(** [scan_once(string, idx)] of [json.scanner].  [depth] is how many
    containers may still be opened. *)
Fixpoint scan_once (depth : nat) (s : pystr) {struct depth}
  : result (pyval * pystr) :=
  match s with
  | [] => Exc JSONDecodeError
  | c :: r =>
      if c =? 34 then
        match scanstring r with
        | Ok (t, r') => Ok (PStr t, r')
        | Exc e => Exc e
        end
      else if c =? 123 then
        match depth with
        | O => Exc RecursionError
        | S d => JSONObject (scan_once d) r
        end
      else if c =? 91 then
        match depth with
        | O => Exc RecursionError
        | S d => JSONArray (scan_once d) r
        end
      else if startswith s s_null then Ok (PNone, skipn 4 s)
      else if startswith s s_true then Ok (PBool true, skipn 4 s)
      else if startswith s s_false then Ok (PBool false, skipn 5 s)
      else
        match match_number s with
        | Some vr => Ok vr
        | None =>
            if startswith s s_NaN then Ok (PFloat s_NaN, skipn 3 s)
            else if startswith s s_Infinity then
              Ok (PFloat s_Infinity, skipn 8 s)
            else if startswith s s_neg_Infinity then
              Ok (PFloat s_neg_Infinity, skipn 9 s)
            else Exc JSONDecodeError
        end
  end.

(** [json.loads(s)]: a leading byte-order mark is refused, white space may
    surround the one value, anything after it is an error.  No text nests
    deeper than it is long, so the depth given here never runs out
    ([json_loads_raises] below).  The limits of the interpreter itself, on
    the depth of recursion and on the digits of an [int], are not
    modelled: a text that nests deeper than the interpreter allows, or
    holds an [int] literal longer than it allows, makes [json.loads]
    raise [RecursionError] or [ValueError] there and is read here.  A
    text this reader refuses is refused there as well, and the lists of
    records the properties load are within every limit. *)
Definition json_loads (s : pystr) : result pyval :=
  if startswith s [65279] then Exc JSONDecodeError
  else
    match scan_once (List.length s) (skip_ws s) with
    | Exc e => Exc e
    | Ok (obj, r) =>
        match skip_ws r with
        | [] => Ok obj
        | _ :: _ => Exc JSONDecodeError
        end
    end.

(* ===================================================================== *)
(** ** JSON texts *)
(* ===================================================================== *)

(** The grammar of RFC 8259, on code points, rule by rule.  It is written
    from the RFC and not from the reader above: it says which texts are
    JSON, whatever reads them. *)

(** [ws = *( %x20 / %x09 / %x0A / %x0D )]. *)
Definition ws_char (c : Z) : Prop := c = 32 \/ c = 9 \/ c = 10 \/ c = 13.

Definition ws (s : pystr) : Prop := Forall ws_char s.

(** [DIGIT], [digit1-9] and [HEXDIG], the last in either case. *)
Definition digit (c : Z) : Prop := 48 <= c <= 57.

Definition digit1_9 (c : Z) : Prop := 49 <= c <= 57.

Definition hexdig (c : Z) : Prop :=
  48 <= c <= 57 \/ 65 <= c <= 70 \/ 97 <= c <= 102.

(** [int = zero / ( digit1-9 *DIGIT )]. *)
Inductive json_int : pystr -> Prop :=
| int_zero : json_int [48]
| int_digits (d : Z) (ds : pystr) :
    digit1_9 d -> Forall digit ds -> json_int (d :: ds).

(** [frac = decimal-point 1*DIGIT]. *)
Inductive json_frac : pystr -> Prop :=
| frac_digits (d : Z) (ds : pystr) :
    Forall digit (d :: ds) -> json_frac (46 :: d :: ds).

(** [exp = e [ minus / plus ] 1*DIGIT]. *)
Inductive json_exp : pystr -> Prop :=
| exp_digits (e : Z) (sign : pystr) (d : Z) (ds : pystr) :
    e = 101 \/ e = 69 ->
    sign = [] \/ sign = [45] \/ sign = [43] ->
    Forall digit (d :: ds) ->
    json_exp (e :: sign ++ d :: ds).

(** [number = [ minus ] int [ frac ] [ exp ]]. *)
Inductive json_number : pystr -> Prop :=
| number_parts (minus i f e : pystr) :
    minus = [] \/ minus = [45] ->
    json_int i ->
    f = [] \/ json_frac f ->
    e = [] \/ json_exp e ->
    json_number (minus ++ i ++ f ++ e).

(** [char = unescaped / escape ( ... )], where
    [unescaped = %x20-21 / %x23-5B / %x5D-10FFFF], the one-letter escapes
    are the quote, the backslash, [/], [b], [f], [n], [r] and [t], and
    the last escape is
    [u] with four hexadecimal digits. *)
Inductive json_char : pystr -> Prop :=
| char_unescaped (c : Z) :
    32 <= c <= 33 \/ 35 <= c <= 91 \/ 93 <= c <= 1114111 ->
    json_char [c]
| char_escape (c : Z) :
    In c [34; 92; 47; 98; 102; 110; 114; 116] -> json_char [92; c]
| char_unicode (h1 h2 h3 h4 : Z) :
    hexdig h1 -> hexdig h2 -> hexdig h3 -> hexdig h4 ->
    json_char [92; 117; h1; h2; h3; h4].

Inductive json_chars : pystr -> Prop :=
| chars_nil : json_chars []
| chars_cons (c s : pystr) :
    json_char c -> json_chars s -> json_chars (c ++ s).

(** [string = quotation-mark *char quotation-mark]. *)
Inductive json_string : pystr -> Prop :=
| string_chars (body : pystr) :
    json_chars body -> json_string (34 :: body ++ [34]).

Definition t_false : pystr := Eval vm_compute in lit "false".
Definition t_null : pystr := Eval vm_compute in lit "null".
Definition t_true : pystr := Eval vm_compute in lit "true".

Section Grammar.

(** The literals a reader takes besides those of the RFC; the RFC itself
    has none. *)
Variable extra : pystr -> Prop.

(** [value = false / null / true / object / array / number / string],
    with
    [array = begin-array [ value *( value-separator value ) ] end-array]
    and
    [object = begin-object [ member *( value-separator member ) ]
    end-object], where [member = string name-separator value] and each of
    the six structural characters may have white space on both sides. *)
Inductive json_value : pystr -> Prop :=
| value_false : json_value t_false
| value_null : json_value t_null
| value_true : json_value t_true
| value_number (n : pystr) : json_number n -> json_value n
| value_string (s : pystr) : json_string s -> json_value s
| value_array_empty (w1 w2 w3 w4 : pystr) :
    ws w1 -> ws w2 -> ws w3 -> ws w4 ->
    json_value (w1 ++ [91] ++ w2 ++ w3 ++ [93] ++ w4)
| value_array (w1 w2 body w3 w4 : pystr) :
    ws w1 -> ws w2 -> json_elements body -> ws w3 -> ws w4 ->
    json_value (w1 ++ [91] ++ w2 ++ body ++ w3 ++ [93] ++ w4)
| value_object_empty (w1 w2 w3 w4 : pystr) :
    ws w1 -> ws w2 -> ws w3 -> ws w4 ->
    json_value (w1 ++ [123] ++ w2 ++ w3 ++ [125] ++ w4)
| value_object (w1 w2 body w3 w4 : pystr) :
    ws w1 -> ws w2 -> json_members body -> ws w3 -> ws w4 ->
    json_value (w1 ++ [123] ++ w2 ++ body ++ w3 ++ [125] ++ w4)
| value_extra (s : pystr) : extra s -> json_value s
with json_elements : pystr -> Prop :=
| elements_one (v : pystr) : json_value v -> json_elements v
| elements_more (v w1 w2 rest : pystr) :
    json_value v -> ws w1 -> ws w2 -> json_elements rest ->
    json_elements (v ++ w1 ++ [44] ++ w2 ++ rest)
with json_members : pystr -> Prop :=
| members_one (k w1 w2 v : pystr) :
    json_string k -> ws w1 -> ws w2 -> json_value v ->
    json_members (k ++ w1 ++ [58] ++ w2 ++ v)
| members_more (k w1 w2 v w3 w4 rest : pystr) :
    json_string k -> ws w1 -> ws w2 -> json_value v ->
    ws w3 -> ws w4 -> json_members rest ->
    json_members (k ++ w1 ++ [58] ++ w2 ++ v ++ w3 ++ [44] ++ w4 ++ rest).

(** [JSON-text = ws value ws]. *)
Definition json_text (s : pystr) : Prop :=
  exists w1 v w2, s = w1 ++ v ++ w2 /\ ws w1 /\ json_value v /\ ws w2.

End Grammar.

Scheme json_value_mut := Minimality for json_value Sort Prop
  with json_elements_mut := Minimality for json_elements Sort Prop
  with json_members_mut := Minimality for json_members Sort Prop.

(** The texts of the RFC, and the texts of the [json] module, which takes
    three literals more. *)
Definition rfc8259 : pystr -> Prop := json_text (fun _ => False).

Definition python_constant (s : pystr) : Prop :=
  s = s_NaN \/ s = s_Infinity \/ s = s_neg_Infinity.

Definition python_json : pystr -> Prop := json_text python_constant.

(** A file that holds JSON: its bytes are UTF-8 and the text they encode
    is JSON; and a file that holds JSON to the [json] module. *)
Definition rfc8259_file (content : bytes) : Prop :=
  exists text, utf8_decode content = Ok text /\ rfc8259 text.

Definition python_json_file (content : bytes) : Prop :=
  exists text, utf8_decode content = Ok text /\ python_json text.

(** A code point of a [str] is at most [0x10FFFF]. *)
Definition code_point (c : Z) : Prop := c <= 1114111.

(** A text without a line feed. *)
Definition no_newline (s : pystr) : Prop := Forall (fun c => c <> 10) s.

(** A text that ends in a character with the property [P]. *)
Definition ends_with (P : Z -> Prop) (s : pystr) : Prop :=
  exists p c, s = p ++ [c] /\ P c.

(** The last character of a value of the RFC: of [false], [true] and
    [null], a digit, a quote, a closing bracket or brace, or white
    space. *)
Definition json_end (c : Z) : Prop :=
  c = 101 \/ c = 108 \/ digit c \/ c = 34 \/ c = 93 \/ c = 125
  \/ ws_char c.


(* ===================================================================== *)
(** ** Files and the log *)
(* ===================================================================== *)

(** The levels the class logs at. *)
Inductive levelname : Type := INFO | WARNING.

(** What the methods act on besides [self]: the regular files by path, and
    the records handed to [logging], oldest first.  Paths are compared as
    strings; directories, permissions and failing devices are left out, so
    opening a file for writing always succeeds. *)
Record World : Type := {
  files : pystr -> option bytes;
  log : list (levelname * pystr)
}.

(** [logging.info(msg)] and [logging.warning(msg)]. *)
Definition logging (lvl : levelname) (msg : pystr) (w : World) : World :=
  {| files := files w; log := log w ++ [(lvl, msg)] |}.

(** The file at [path] created or overwritten with [content].  Line ends
    are written as they are, as on a POSIX system. *)
Definition write_file (path : pystr) (content : bytes) (w : World) : World :=
  {| files := fun p => if str_eqb p path then Some content else files w p;
     log := log w |}.

(** Reading a text file opened without a [newline] argument turns every
    [\r\n] and every lone [\r] into [\n]. *)
Fixpoint universal_newlines (s : pystr) : pystr :=
  match s with
  | [] => []
  | c :: r =>
      if c =? 13 then
        match r with
        | c' :: r' =>
            if c' =? 10 then 10 :: universal_newlines r'
            else 10 :: universal_newlines r
        | [] => [10]
        end
      else c :: universal_newlines r
  end.

(** [f.read()] on a file opened with [open(filename, "r",
    encoding="utf-8")]. *)
Definition read_text (content : bytes) : result pystr :=
  match utf8_decode content with
  | Ok s => Ok (universal_newlines s)
  | Exc e => Exc e
  end.

(** [json.load(f)]. *)
Definition json_load (content : bytes) : result pyval :=
  match read_text content with
  | Ok s => json_loads s
  | Exc e => Exc e
  end.

(* ===================================================================== *)
(** ** class TrainManager *)
(* ===================================================================== *)

Record TrainManager : Type := { trains : pyval }.

(** [__init__]: an empty list of trains. *)
Definition init : TrainManager := {| trains := PList [] |}.

(** How a method call ends.  [Returns] and [Raises] carry the object and
    the world as the call leaves them.  [Interrupted] is an exception out
    of the middle of a library call that works in place ([list.sort]
    during its comparisons, [json.dump] on an open file): what such a call
    leaves behind is not part of the outcome, and [main] below, which
    catches the exception and goes on, takes it as a parameter. *)
Inductive outcome (A : Type) : Type :=
| Returns (a : A) (self : TrainManager) (w : World)
| Raises (e : exn) (self : TrainManager) (w : World)
| Interrupted (e : exn).
Arguments Returns {A} a self w.
Arguments Raises {A} e self w.
Arguments Interrupted {A} e.

Definition k_departure_point : pystr := Eval vm_compute in lit "departure_point".
Definition k_number_train : pystr := Eval vm_compute in lit "number_train".
Definition k_time_departure : pystr := Eval vm_compute in lit "time_departure".
Definition k_destination : pystr := Eval vm_compute in lit "destination".
Definition dot_json : pystr := Eval vm_compute in lit ".json".

(** The dict literal of [add_train]. *)
Definition train_dict (departure_point number_train time_departure
                       destination : pystr) : pyval :=
  PDict [(k_departure_point, PStr departure_point);
         (k_number_train, PStr number_train);
         (k_time_departure, PStr time_departure);
         (k_destination, PStr destination)].

(** The key function [lambda train: train["time_departure"]] applied to
    every item, in order; the first failure is the one raised. *)
Fixpoint sort_keys (l : list pyval) : result (list (pyval * pyval)) :=
  match l with
  | [] => Ok []
  | train :: l' =>
      match getitem train k_time_departure with
      | Exc e => Exc e
      | Ok k =>
          match sort_keys l' with
          | Exc e => Exc e
          | Ok r => Ok ((k, train) :: r)
          end
      end
  end.

(** The keyed items when every key is a [str]. *)
Fixpoint str_keys (l : list (pyval * pyval)) : option (list (pystr * pyval)) :=
  match l with
  | [] => Some []
  | (PStr k, x) :: l' =>
      match str_keys l' with
      | Some r => Some ((k, x) :: r)
      | None => None
      end
  | _ :: _ => None
  end.

(** One item put into a list sorted by key: after the items with a
    smaller key, before those with an equal or larger one. *)
Fixpoint insert_by_key (k : pystr) (x : pyval) (l : list (pystr * pyval))
  : list (pystr * pyval) :=
  match l with
  | [] => [(k, x)]
  | (k', y) :: l' =>
      if str_lt k' k then (k', y) :: insert_by_key k x l'
      else (k, x) :: (k', y) :: l'
  end.

(** [list.sort] is stable and compares keys with [<] only.  The order it
    produces is the one of any stable sort; it is computed here by
    insertion from the right. *)
Fixpoint stable_sort (l : list (pystr * pyval)) : list (pystr * pyval) :=
  match l with
  | [] => []
  | (k, x) :: l' => insert_by_key k x (stable_sort l')
  end.

(** How [self.trains.sort(key=...)] ends in [add_train]. *)
Inductive sort_outcome : Type :=
| SortDone (l : list pyval)
| KeyFailed (e : exn)
| CompareFailed.

(** [self.trains.sort(key=lambda train: train["time_departure"])] on the
    list that ends with the record just appended.  The keys are computed
    first; if the key function raises, the list stays as it was.  The key
    of the appended record is a [str], a [str] is ordered against a [str]
    only, and the comparisons of a sort link all its items, so they go
    through exactly when every key is a [str]; otherwise one of them
    raises [TypeError]. *)
Definition sort_by_time_departure (l : list pyval) : sort_outcome :=
  match sort_keys l with
  | Exc e => KeyFailed e
  | Ok keyed =>
      match str_keys keyed with
      | Some ks => SortDone (map snd (stable_sort ks))
      | None => CompareFailed
      end
  end.

Definition msg_added_1 : pystr :=
  Eval vm_compute in lit "Добавлен поезд: пункт отправления=".
Definition msg_added_2 : pystr := Eval vm_compute in lit ", №=".
Definition msg_added_3 : pystr := Eval vm_compute in lit ", время=".
Definition msg_added_4 : pystr := Eval vm_compute in lit ", пункт назначения=".
Definition msg_select_1 : pystr :=
  Eval vm_compute in lit "Выполнен поиск поездов по пункту назначения='".
Definition msg_select_2 : pystr := Eval vm_compute in lit "'. Найдено ".
Definition msg_select_3 : pystr := Eval vm_compute in lit " поезд(а).".
Definition msg_loaded_1 : pystr :=
  Eval vm_compute in lit "Данные успешно загружены из файла: ".
Definition msg_loaded_2 : pystr := Eval vm_compute in lit ".".
Definition msg_missing_1 : pystr := Eval vm_compute in lit "Файл ".
Definition msg_missing_2 : pystr :=
  Eval vm_compute in lit " не найден. Загрузка не выполнена.".
Definition msg_saved_1 : pystr :=
  Eval vm_compute in lit "Данные сохранены в файл: ".
Definition msg_saved_2 : pystr := Eval vm_compute in lit ".".

(** [add_train]: append the dict, sort the list by ["time_departure"], log
    the four fields.  [self.trains] is changed in place, so a failure of
    [append] leaves it as it was, and a failure of the key function leaves
    the record appended and the list unsorted. *)
Definition add_train (self : TrainManager)
  (departure_point number_train time_departure destination : pystr)
  (w : World) : outcome unit :=
  match trains self with
  | PList l =>
      let l1 :=
        l ++ [train_dict departure_point number_train time_departure
                destination] in
      match sort_by_time_departure l1 with
      | SortDone l2 =>
          Returns tt {| trains := PList l2 |}
            (logging INFO
               (msg_added_1 ++ departure_point ++ msg_added_2 ++ number_train
                ++ msg_added_3 ++ time_departure ++ msg_added_4 ++ destination)
               w)
      | KeyFailed e => Raises e {| trains := PList l1 |} w
      | CompareFailed => Interrupted TypeError
      end
  | _ => Raises AttributeError self w
  end.

(** [list_trains]: the list itself. *)
Definition list_trains (self : TrainManager) : pyval := trains self.

Section Select.

(** [str.lower], which follows the Unicode tables: the one part of
    [select_trains] that is left open. *)
Variable str_lower : pystr -> pystr.

(** [o.lower()]: only a [str] has the method. *)
Definition lower (o : pyval) : result pystr :=
  match o with
  | PStr s => Ok (str_lower s)
  | _ => Exc AttributeError
  end.

(** The comprehension
    [[train for train in self.trains
      if train["destination"].lower() == point_user]]
    over the items of [self.trains]. *)
Fixpoint select_loop (point_user : pystr) (items : list pyval)
  : result (list pyval) :=
  match items with
  | [] => Ok []
  | train :: rest =>
      match getitem train k_destination with
      | Exc e => Exc e
      | Ok d =>
          match lower d with
          | Exc e => Exc e
          | Ok dl =>
              match select_loop point_user rest with
              | Exc e => Exc e
              | Ok selected =>
                  Ok (if str_eqb dl point_user then train :: selected
                      else selected)
              end
          end
      end
  end.

(** [select_trains]: lower-case the query, keep the trains whose
    lower-cased destination equals it, log the query and the count. *)
Definition select_trains (self : TrainManager) (point_user : pystr)
  (w : World) : outcome (list pyval) :=
  let point_user := str_lower point_user in
  match iterate (trains self) with
  | Exc e => Raises e self w
  | Ok items =>
      match select_loop point_user items with
      | Exc e => Raises e self w
      | Ok selected =>
          Returns selected self
            (logging INFO
               (msg_select_1 ++ point_user ++ msg_select_2
                ++ int_repr (Z.of_nat (List.length selected))
                ++ msg_select_3)
               w)
      end
  end.

End Select.

(** [load_from_json]: when the file exists, [self.trains] becomes what
    [json.load] returns and the success is logged; an exception of
    [json.load] comes before the assignment.  When the file does not exist
    a warning is logged. *)
Definition load_from_json (self : TrainManager) (filename : pystr)
  (w : World) : outcome unit :=
  match files w filename with
  | Some content =>
      match json_load content with
      | Exc e => Raises e self w
      | Ok v =>
          Returns tt {| trains := v |}
            (logging INFO (msg_loaded_1 ++ filename ++ msg_loaded_2) w)
      end
  | None =>
      Returns tt self
        (logging WARNING (msg_missing_1 ++ filename ++ msg_missing_2) w)
  end.

Section Save.

Variable float_repr : pystr -> pystr.

(** The path [save_to_json] opens: [".json"] is appended when the name
    does not end with it. *)
Definition save_path (filename : pystr) : pystr :=
  if negb (endswith filename dot_json) then filename ++ dot_json
  else filename.

(** [save_to_json]: complete the file name, write the list as JSON to
    the file, log the name written to.  The write fails when the text has
    a character the codec refuses. *)
Definition save_to_json (self : TrainManager) (filename : pystr)
  (w : World) : outcome unit :=
  let filename := save_path filename in
  match utf8_encode (json_dumps float_repr (trains self)) with
  | Exc e => Interrupted e
  | Ok content =>
      Returns tt self
        (logging INFO (msg_saved_1 ++ filename ++ msg_saved_2)
           (write_file filename content w))
  end.

End Save.

(* ===================================================================== *)
(** ** What the properties speak about *)
(* ===================================================================== *)

(** The ["time_departure"] of a record, when it has one and it is a
    [str]. *)
Definition time_departure_of (train : pyval) : option pystr :=
  match train with
  | PDict d =>
      match dict_get k_time_departure d with
      | Some (PStr s) => Some s
      | _ => None
      end
  | _ => None
  end.

(** The ["destination"] of a record, when it has one and it is a [str]. *)
Definition destination_of (train : pyval) : option pystr :=
  match train with
  | PDict d =>
      match dict_get k_destination d with
      | Some (PStr s) => Some s
      | _ => None
      end
  | _ => None
  end.

(** A store whose items all carry a [str] departure time: what [add_train]
    builds, and what it needs to find. *)
Definition timed_store (v : pyval) : Prop :=
  exists l, v = PList l /\ Forall (fun t => time_departure_of t <> None) l.

(** Non-decreasing in ["time_departure"] under the order of [str]: every
    item has a departure time, and each is at most every later one. *)
Definition sorted_by_time (l : list pyval) : Prop :=
  exists ks, map time_departure_of l = map Some ks
             /\ StronglySorted (fun a b => str_le a b = true) ks.

(** The records of [l] whose departure time is the string [k], in their
    order in [l]. *)
Definition with_time (k : pystr) (l : list pyval) : list pyval :=
  filter (fun t => match time_departure_of t with
                   | Some k' => str_eqb k' k
                   | None => false
                   end) l.

(** One call of [add_train] after the other, as long as they return. *)
Fixpoint add_trains (calls : list (pystr * pystr * pystr * pystr))
  (self : TrainManager) (w : World) : option (TrainManager * World) :=
  match calls with
  | [] => Some (self, w)
  | (dp, nt, td, dest) :: calls' =>
      match add_train self dp nt td dest w with
      | Returns _ self' w' => add_trains calls' self' w'
      | _ => None
      end
  end.

(** The key kept with each item is the item's departure time. *)
Definition keyed_right (ks : list (pystr * pyval)) : Prop :=
  Forall (fun kx => time_departure_of (snd kx) = Some (fst kx)) ks.

(** The test of [select_trains] on a record that has a [str]
    destination. *)
Definition dest_matches (str_lower : pystr -> pystr) (point_user : pystr)
  (train : pyval) : bool :=
  match destination_of train with
  | Some d => str_eqb (str_lower d) (str_lower point_user)
  | None => false
  end.

(** A world with no file and an empty log, and two stores, for the
    concrete runs below. *)
Definition empty_world : World := {| files := fun _ => None; log := [] |}.

Definition moscow_kazan : pyval :=
  Eval vm_compute in
    train_dict (lit "Moscow") (lit "101") (lit "09:15") (lit "Kazan").

Definition moscow_samara : pyval :=
  Eval vm_compute in
    train_dict (lit "Moscow") (lit "202") (lit "08:00") (lit "Samara").

Definition two_trains : TrainManager :=
  {| trains := PList [moscow_kazan; moscow_samara] |}.


(** [str.lower] on the letters [A] to [Z], for the concrete runs: on
    ASCII text it is what [str.lower] does. *)
Definition ascii_lower (s : pystr) : pystr :=
  map (fun c => if (65 <=? c) && (c <=? 90) then c + 32 else c) s.

(** The bytes of a text written with apostrophes where the file has
    double quotes. *)
Definition file_text (s : string) : bytes :=
  map (fun b => match b with x27 => x22 | _ => b end) (list_byte_of_string s).

(** A world whose only file is [path], holding [content]. *)
Definition one_file (path : pystr) (content : bytes) : World :=
  {| files := fun p => if str_eqb p path then Some content else None;
     log := [] |}.

(** A file cut short, and a file that is JSON but whose one record has no
    ["destination"]. *)
Definition truncated_json : bytes :=
  file_text "[{'departure_point': 'Moscow', 'number_train': '101',".

Definition three_field_json : bytes :=
  file_text "[{'departure_point': 'Moscow', 'number_train': '101', 'time_departure': '09:15'}]".

Definition three_field_record : pyval :=
  Eval vm_compute in
    PDict [(k_departure_point, PStr (lit "Moscow"));
           (k_number_train, PStr (lit "101"));
           (k_time_departure, PStr (lit "09:15"))].


(** A spelling of [".json"] in other letter case: equal to it once its
    capital letters are lowered, and not equal to it as it stands. *)
Definition case_variant (v : pystr) : Prop :=
  ascii_lower v = dot_json /\ v <> dot_json.


(** A record as the class annotates it, [Dict[str, str]]: keys and values
    in the order of the dict. *)
Definition record : Type := list (pystr * pystr).

Definition dict_of_record (r : record) : pyval :=
  PDict (map (fun kv => (fst kv, PStr (snd kv))) r).

(** A store as the class annotates it, [List[Dict[str, str]]]. *)
Definition list_of_records (rs : list record) : pyval :=
  PList (map dict_of_record rs).

(** The keys of a dict are distinct. *)
Definition distinct_keys (r : record) : Prop := NoDup (map fst r).

(** Every character of the record, in keys and values, is one the codec
    accepts. *)
Definition encodable (r : record) : Prop :=
  Forall (fun kv => Forall is_scalar (fst kv) /\ Forall is_scalar (snd kv)) r.

(** Every character is a code point from zero up. *)
Definition nonneg_record (r : record) : Prop :=
  Forall (fun kv => Forall (fun c => 0 <= c) (fst kv)
                    /\ Forall (fun c => 0 <= c) (snd kv)) r.

(** A character the codec accepts and that is not a carriage return. *)
Definition plain_char (c : Z) : Prop := is_scalar c /\ c <> 13.

(** An item of a [Dict[str, str]] as an item of a dict of values. *)
Definition conv (kv : pystr * pystr) : pystr * pyval :=
  (fst kv, PStr (snd kv)).

(** The text [iterencode] writes for the items of a dict after the first,
    at [level]. *)
Definition more_items (float_repr : pystr -> pystr) (level : nat)
  (r : record) : pystr :=
  flat_map (fun kv : pystr * pyval =>
    let (k', v') := kv in
    [44] ++ newline_indent level ++ encode_basestring k' ++ [58; 32]
    ++ iterencode float_repr level v') (map conv r).

(** The text [iterencode] writes for the items of the list after the
    first. *)
Definition more_records (float_repr : pystr -> pystr) (rs : list record)
  : pystr :=
  flat_map (fun v' : pyval =>
    [44] ++ newline_indent 1 ++ iterencode float_repr 1 v')
    (map dict_of_record rs).

(** The file [save_to_json] writes for the two trains, and a file that
    holds an empty list. *)
Definition two_trains_json : bytes :=
  Eval vm_compute in
    match utf8_encode (json_dumps (fun l => l) (trains two_trains)) with
    | Ok b => b
    | Exc _ => []
    end.

Definition empty_list_json : bytes := file_text "[]".


(** The two trains as records, in the order of [two_trains], which is not
    the order of their departure times. *)
Definition two_records : list record :=
  Eval vm_compute in
    [[(k_departure_point, lit "Moscow"); (k_number_train, lit "101");
      (k_time_departure, lit "09:15"); (k_destination, lit "Kazan")];
     [(k_departure_point, lit "Moscow"); (k_number_train, lit "202");
      (k_time_departure, lit "08:00"); (k_destination, lit "Samara")]].

(** A list with one record that has no ["destination"], and the file
    [save_to_json] writes for it. *)
Definition three_field_records : list record :=
  Eval vm_compute in
    [[(k_departure_point, lit "Moscow"); (k_number_train, lit "101");
      (k_time_departure, lit "09:15")]].

Definition three_field_dump : bytes :=
  Eval vm_compute in
    match utf8_encode
            (json_dumps (fun l => l) (list_of_records three_field_records))
    with
    | Ok b => b
    | Exc _ => []
    end.

(** A store with one other train. *)
Definition one_train : TrainManager :=
  {| trains :=
       PList [train_dict (lit "Tver") (lit "303") (lit "07:30")
                (lit "Pskov")] |}.

(** The arguments of one call of [add_train]. *)
Definition call : Type := (pystr * pystr * pystr * pystr)%type.

(** The record a call appends, with its sort key. *)
Definition keyed_call (c : call) : pystr * pyval :=
  let '(dp, nt, td, dest) := c in (td, train_dict dp nt td dest).

(** A keyed item as [sort_keys] returns it. *)
Definition tagged (kx : pystr * pyval) : pyval * pyval :=
  (PStr (fst kx), snd kx).

(** The items of [l] that the insertion of a record with time [td] leaves
    before it, and those it leaves after it. *)
Definition not_after (td : pystr) (l : list pyval) : list pyval :=
  filter (fun t => match time_departure_of t with
                   | Some k => str_le k td
                   | None => false
                   end) l.

Definition after (td : pystr) (l : list pyval) : list pyval :=
  filter (fun t => match time_departure_of t with
                   | Some k => str_lt td k
                   | None => false
                   end) l.

(** A record with neither a departure time nor a destination. *)
Definition no_time_record : pyval :=
  Eval vm_compute in
    PDict [(k_departure_point, PStr (lit "Moscow"));
           (k_number_train, PStr (lit "101"))].

(* ===================================================================== *)
(** ** print_trains *)
(* ===================================================================== *)

(** [' ' * n]. *)
Definition spaces (n : nat) : pystr := repeat 32 n.

(** The alignments of a replacement field: [{:<w}], [{:>w}] and [{:^w}].
    The width counts characters; a text longer than the width is kept
    whole.  Centring puts the smaller half of the padding on the left. *)
Definition ljust (width : nat) (s : pystr) : pystr :=
  s ++ spaces (width - List.length s).

Definition rjust (width : nat) (s : pystr) : pystr :=
  spaces (width - List.length s) ++ s.

Definition center (width : nat) (s : pystr) : pystr :=
  let pad := (width - List.length s)%nat in
  spaces (pad / 2) ++ s ++ spaces (pad - pad / 2).

Definition msg_empty : pystr :=
  Eval vm_compute in lit "Список поездов пуст или ничего не найдено.".

(** ["+-{}-+-{}-+-{}-+-{}-+-{}-+".format("-" * 4, "-" * 20, "-" * 13,
    "-" * 18, "-" * 20)]. *)
Definition table_line : pystr :=
  Eval vm_compute in
    lit "+-" ++ repeat 45 4 ++ lit "-+-" ++ repeat 45 20 ++ lit "-+-"
    ++ repeat 45 13 ++ lit "-+-" ++ repeat 45 18 ++ lit "-+-"
    ++ repeat 45 20 ++ lit "-+".

(** The header row. *)
Definition table_header : pystr :=
  Eval vm_compute in
    lit "| " ++ center 4 (lit "№") ++ lit " | "
    ++ center 20 (lit "Пункт отправления") ++ lit " | "
    ++ center 13 (lit "№ поезда") ++ lit " | "
    ++ center 18 (lit "Время отправления") ++ lit " | "
    ++ center 20 (lit "Пункт назначения") ++ lit " |".

(** The row of the train numbered [idx], from the texts of its fields:
    ["| {:>4} | {:<20} | {:<13} | {:>18} | {:<20} |"]. *)
Definition table_row (idx : Z) (dp nt td dest : pystr) : pystr :=
  [124; 32] ++ rjust 4 (int_repr idx) ++ [32; 124; 32]
  ++ ljust 20 dp ++ [32; 124; 32] ++ ljust 13 nt ++ [32; 124; 32]
  ++ rjust 18 td ++ [32; 124; 32] ++ ljust 20 dest ++ [32; 124].

Section PrintTrains.

(** Two facts about the float a literal denotes are left open: whether it
    is zero, and the text [format] gives it when the format names no
    type. *)
Variable float_is_zero : pystr -> bool.
Variable float_str : pystr -> pystr.

(** [bool(o)], the test behind [not trains]. *)
Definition truth (o : pyval) : bool :=
  match o with
  | PNone => false
  | PBool b => b
  | PInt n => negb (n =? 0)
  | PFloat l => negb (float_is_zero l)
  | PStr s => match s with [] => false | _ => true end
  | PList l => match l with [] => false | _ => true end
  | PDict d => match d with [] => false | _ => true end
  end.

(** The text of a value in a field with an alignment and a width and no
    type: a [str] as it is, an [int] in decimal, a [bool] as the [int] it
    is; [None], a list and a dict refuse such a format. *)
Definition field_text (o : pyval) : result pystr :=
  match o with
  | PStr s => Ok s
  | PInt n => Ok (int_repr n)
  | PBool b => Ok (int_repr (if b then 1 else 0))
  | PFloat l => Ok (float_str l)
  | PNone | PList _ | PDict _ => Exc TypeError
  end.

(** The row of one train: the four subscripts are evaluated first, in
    order, then the fields are formatted, in order. *)
Definition format_row (idx : Z) (train : pyval) : result pystr :=
  match getitem train k_departure_point with
  | Exc e => Exc e
  | Ok v1 =>
  match getitem train k_number_train with
  | Exc e => Exc e
  | Ok v2 =>
  match getitem train k_time_departure with
  | Exc e => Exc e
  | Ok v3 =>
  match getitem train k_destination with
  | Exc e => Exc e
  | Ok v4 =>
  match field_text v1 with
  | Exc e => Exc e
  | Ok dp =>
  match field_text v2 with
  | Exc e => Exc e
  | Ok nt =>
  match field_text v3 with
  | Exc e => Exc e
  | Ok td =>
  match field_text v4 with
  | Exc e => Exc e
  | Ok dest => Ok (table_row idx dp nt td dest)
  end end end end end end end end.

(** The loop [for idx, train in enumerate(trains, 1)]: what it prints,
    and how it ends. *)
Fixpoint print_rows (idx : Z) (items : list pyval)
  : list pystr * result unit :=
  match items with
  | [] => ([], Ok tt)
  | train :: rest =>
      match format_row idx train with
      | Exc e => ([], Exc e)
      | Ok row =>
          let (printed, r) := print_rows (idx + 1) rest in
          (row :: table_line :: printed, r)
      end
  end.

(** [print_trains]: the lines it prints, one per call of [print], and how
    it ends.  The output stream takes every text. *)
Definition print_trains (trains : pyval) : list pystr * result unit :=
  if negb (truth trains) then ([msg_empty], Ok tt)
  else
    match iterate trains with
    | Exc e => ([table_line; table_header; table_line], Exc e)
    | Ok items =>
        let (printed, r) := print_rows 1 items in
        (table_line :: table_header :: table_line :: printed, r)
    end.

End PrintTrains.

(** The four texts of a train, when it has the four keys and a [str]
    under each. *)
Definition fields_of (train : pyval) : option (pystr * pystr * pystr * pystr) :=
  match getitem train k_departure_point, getitem train k_number_train,
        getitem train k_time_departure, getitem train k_destination with
  | Ok (PStr dp), Ok (PStr nt), Ok (PStr td), Ok (PStr dest) =>
      Some (dp, nt, td, dest)
  | _, _, _, _ => None
  end.

(** The first of the four keys, in the order of the row, that a dict does
    not have. *)
Definition first_missing (d : list (pystr * pyval)) : option pystr :=
  match dict_get k_departure_point d with
  | None => Some k_departure_point
  | Some _ =>
  match dict_get k_number_train d with
  | None => Some k_number_train
  | Some _ =>
  match dict_get k_time_departure d with
  | None => Some k_time_departure
  | Some _ =>
  match dict_get k_destination d with
  | None => Some k_destination
  | Some _ => None
  end end end end.

(** The rows of a table and the lines under them, numbered from [idx]. *)
Fixpoint table_rows (idx : Z) (fs : list (pystr * pystr * pystr * pystr))
  : list pystr :=
  match fs with
  | [] => []
  | (dp, nt, td, dest) :: fs' =>
      table_row idx dp nt td dest :: table_line :: table_rows (idx + 1) fs'
  end.

(** The four texts fit their columns. *)
Definition fits (f : pystr * pystr * pystr * pystr) : Prop :=
  let '(dp, nt, td, dest) := f in
  (List.length dp <= 20 /\ List.length nt <= 13
   /\ List.length td <= 18 /\ List.length dest <= 20)%nat.

(* ===================================================================== *)
(** ** class UnknownCommandError and the commands of main *)
(* ===================================================================== *)

(** The characters [str.strip] and [str.split] take for white space. *)
Definition is_space (c : Z) : bool :=
  ((9 <=? c) && (c <=? 13)) || ((28 <=? c) && (c <=? 32))
  || (c =? 133) || (c =? 160) || (c =? 5760)
  || ((8192 <=? c) && (c <=? 8202))
  || (c =? 8232) || (c =? 8233) || (c =? 8239) || (c =? 8287)
  || (c =? 12288).

Fixpoint lstrip (s : pystr) : pystr :=
  match s with
  | c :: r => if is_space c then lstrip r else s
  | [] => []
  end.

(** [s.strip()]. *)
Definition strip (s : pystr) : pystr := rev (lstrip (rev (lstrip s))).

(** The longest run of characters that are not white space at the head of
    [s], and what follows it. *)
Fixpoint span_word (s : pystr) : pystr * pystr :=
  match s with
  | c :: r =>
      if is_space c then ([], s)
      else let (word, rest) := span_word r in (c :: word, rest)
  | [] => ([], [])
  end.

(** [s.split(maxsplit=1)]: the first word, and what follows the white
    space after it, if anything does; white space at the end of that
    rest is kept. *)
Definition split_maxsplit_1 (s : pystr) : list pystr :=
  match lstrip s with
  | [] => []
  | c :: r =>
      let (word, rest) := span_word (c :: r) in
      match lstrip rest with
      | [] => [word]
      | c' :: r' => [word; c' :: r']
      end
  end.

(** The exception of the program: the command refused and a message. *)
Record UnknownCommandError : Type := {
  command : pystr;
  message : pystr
}.

Definition msg_unknown : pystr := Eval vm_compute in lit "Неизвестная команда".

(** [UnknownCommandError(command)], with the message by default. *)
Definition unknown_command (cmd : pystr) : UnknownCommandError :=
  {| command := cmd; message := msg_unknown |}.

(** [__str__]. *)
Definition UnknownCommandError_str (err : UnknownCommandError) : pystr :=
  command err ++ [32; 45; 62; 32] ++ message err.

(** What the loop of [main] does for a command. *)
Inductive action : Type :=
| DoExit
| DoAdd
| DoList
| DoSelect (point_user : pystr)
| DoLoad (filename : pystr)
| DoSave (filename : pystr)
| DoHelp.

(** How choosing the action can fail: the command is not one of the
    program, or [parts[1]] does not exist. *)
Inductive dispatch_error : Type :=
| Unknown (err : UnknownCommandError)
| IndexError.

Definition c_exit : pystr := Eval vm_compute in lit "exit".
Definition c_add : pystr := Eval vm_compute in lit "add".
Definition c_list : pystr := Eval vm_compute in lit "list".
Definition c_help : pystr := Eval vm_compute in lit "help".
Definition c_select_ : pystr := Eval vm_compute in lit "select ".
Definition c_load_ : pystr := Eval vm_compute in lit "load ".
Definition c_save_ : pystr := Eval vm_compute in lit "save ".

(** [parts = command.split(maxsplit=1)] followed by [parts[1]]. *)
Definition second_part (cmd : pystr) : option pystr :=
  nth_error (split_maxsplit_1 cmd) 1.

(** The chain of [if] and [elif] of [main], on the command as read,
    stripped and lower-cased. *)
Definition dispatch (cmd : pystr) : action + dispatch_error :=
  if str_eqb cmd c_exit then inl DoExit
  else if str_eqb cmd c_add then inl DoAdd
  else if str_eqb cmd c_list then inl DoList
  else if startswith cmd c_select_ then
    match second_part cmd with
    | Some point_user => inl (DoSelect point_user)
    | None => inr IndexError
    end
  else if startswith cmd c_load_ then
    match second_part cmd with
    | Some filename => inl (DoLoad filename)
    | None => inr IndexError
    end
  else if startswith cmd c_save_ then
    match second_part cmd with
    | Some filename => inl (DoSave filename)
    | None => inr IndexError
    end
  else if str_eqb cmd c_help then inl DoHelp
  else inr (Unknown (unknown_command cmd)).

(* ===================================================================== *)
(** ** main *)
(* ===================================================================== *)

(** The levels of the records in [trains.log]: those of the class, and
    the one [main] adds. *)
Inductive severity : Type :=
| Level (l : levelname)
| ERROR.

(** The program while it runs: the manager, the files, the records
    appended to [trains.log], the lines still to be read from standard
    input, and the texts written to standard output and to standard
    error, oldest first.  The log file is kept apart from the other
    files: [disk] holds the others, and what [trains.log] holds follows
    from [journal]. *)
Record Session : Type := {
  manager : TrainManager;
  disk : pystr -> option bytes;
  journal : list (severity * pystr);
  stdin : list pystr;
  stdout : list pystr;
  stderr : list pystr
}.

(** What the body of the [while True] loop, with its [try] and [except],
    ends in: the next turn or the [break]. *)
Inductive step : Type :=
| Continue (s : Session)
| Stop (s : Session).

(** The state a [step] ends in. *)
Definition state_of (st : step) : Session :=
  match st with
  | Continue s | Stop s => s
  end.

(** What the [except Exception] clause can catch. *)
Inductive raised : Type :=
| Lib (e : exn)
| Cli (e : dispatch_error)
| EOFError.

Definition log_name : pystr := Eval vm_compute in lit "trains.log".
Definition prompt : pystr := Eval vm_compute in lit ">>> ".
Definition ask_departure_point : pystr :=
  Eval vm_compute in lit "Пункт отправления? ".
Definition ask_number_train : pystr := Eval vm_compute in lit "Номер поезда? ".
Definition ask_time_departure : pystr :=
  Eval vm_compute in lit "Время отправления? ".
Definition ask_destination : pystr :=
  Eval vm_compute in lit "Пункт назначения? ".
Definition msg_started : pystr := Eval vm_compute in lit "Программа запущена.".
Definition msg_command_1 : pystr := Eval vm_compute in lit "Введена команда: '".
Definition msg_command_2 : pystr := Eval vm_compute in lit "'".
Definition msg_exit_log : pystr :=
  Eval vm_compute in lit "Программа завершена по команде 'exit'.".
Definition msg_exit : pystr := Eval vm_compute in lit "Программа завершена.".
Definition msg_train_added : pystr := Eval vm_compute in lit "Поезд добавлен.".
Definition msg_listed_1 : pystr := Eval vm_compute in lit "Выведен список из ".
Definition msg_listed_2 : pystr := Eval vm_compute in lit " поезд(ов).".
Definition msg_load_done_1 : pystr :=
  Eval vm_compute in lit "Данные загружены из файла ".
Definition msg_save_done_1 : pystr :=
  Eval vm_compute in lit "Данные сохранены в файл ".
Definition msg_done_2 : pystr := Eval vm_compute in lit ".".
Definition msg_error_log : pystr := Eval vm_compute in lit "Произошла ошибка: ".
Definition msg_error : pystr := Eval vm_compute in lit "Ошибка: ".
Definition msg_index_error : pystr :=
  Eval vm_compute in lit "list index out of range".
Definition msg_eof_error : pystr :=
  Eval vm_compute in lit "EOF when reading a line".

(** The lines of the [help] command. *)
Definition help_lines : list pystr :=
  Eval vm_compute in
    [lit "Список доступных команд:";
     lit "add  - добавить поезд;";
     lit "list - вывести список всех поездов;";
     lit "select <пункт_назначения> - вывести поезда по пункту назначения;";
     lit "load <имя_файла> - загрузить данные из файла JSON;";
     lit "save <имя_файла> - сохранить данные в файл JSON;";
     lit "help - показать справку;";
     lit "exit - завершить работу."].

(** [print(text)] and [print(text, file=sys.stderr)]. *)
Definition say (text : pystr) (s : Session) : Session :=
  {| manager := manager s; disk := disk s; journal := journal s;
     stdin := stdin s; stdout := stdout s ++ [text ++ [10]];
     stderr := stderr s |}.

Definition say_error (text : pystr) (s : Session) : Session :=
  {| manager := manager s; disk := disk s; journal := journal s;
     stdin := stdin s; stdout := stdout s;
     stderr := stderr s ++ [text ++ [10]] |}.

(** A record appended to [trains.log] by [main] itself. *)
Definition note (lvl : severity) (msg : pystr) (s : Session) : Session :=
  {| manager := manager s; disk := disk s;
     journal := journal s ++ [(lvl, msg)];
     stdin := stdin s; stdout := stdout s; stderr := stderr s |}.

(** [input(prompt)], as the library documents it: the prompt is written
    to standard output, then a line is read, without its end of line; at
    the end of the input [EOFError] is raised. *)
Definition input (text : pystr) (s : Session) : option pystr * Session :=
  let s1 :=
    {| manager := manager s; disk := disk s; journal := journal s;
       stdin := tl (stdin s); stdout := stdout s ++ [text];
       stderr := stderr s |} in
  (hd_error (stdin s), s1).

(** The world a method of the manager is called in, and the session
    after the call: the records the method logged go to [trains.log]. *)
Definition world_of (s : Session) : World :=
  {| files := disk s; log := [] |}.

(** The session after a call that has left the files alone. *)
Definition after_reading (self : TrainManager) (w : World) (s : Session)
  : Session :=
  {| manager := self; disk := disk s;
     journal := journal s ++ map (fun r => (Level (fst r), snd r)) (log w);
     stdin := stdin s; stdout := stdout s; stderr := stderr s |}.

(** The session with another manager, and with another file. *)
Definition with_manager (self : TrainManager) (s : Session) : Session :=
  {| manager := self; disk := disk s; journal := journal s;
     stdin := stdin s; stdout := stdout s; stderr := stderr s |}.

Definition with_file (path : pystr) (content : bytes) (s : Session)
  : Session :=
  {| manager := manager s;
     disk := fun p => if str_eqb p path then Some content else disk s p;
     journal := journal s;
     stdin := stdin s; stdout := stdout s; stderr := stderr s |}.

Definition after_call (self : TrainManager) (w : World) (s : Session)
  : Session :=
  {| manager := self; disk := files w;
     journal := journal s ++ map (fun r => (Level (fst r), snd r)) (log w);
     stdin := stdin s; stdout := stdout s; stderr := stderr s |}.

(** [len(o)]. *)
Definition py_len (o : pyval) : result Z :=
  match o with
  | PList l => Ok (Z.of_nat (List.length l))
  | PDict d => Ok (Z.of_nat (List.length d))
  | PStr t => Ok (Z.of_nat (List.length t))
  | _ => Exc TypeError
  end.

Section Main.

Variable str_lower : pystr -> pystr.
Variable float_repr : pystr -> pystr.
Variable float_is_zero : pystr -> bool.
Variable float_str : pystr -> pystr.

(** [str(exc)] for the exceptions of the library, whose messages are not
    modelled. *)
Variable exc_str : exn -> pystr.

(** What a library call that works in place leaves behind when it raises
    in the middle, left open as well.  [list.sort] restores the items in
    the order its merge sort had reached when a comparison raised.
    [json.dump] on a file just opened for writing has written the chunks
    that came before the one the codec refused. *)
Variable interrupted_sort : list pyval -> list pyval.
Variable interrupted_dump : pyval -> bytes.

(** The bytes of [trains.log] when these records have been logged: what
    the file held before the program started, and then one line for
    every record, with the time it was logged at, in the encoding of the
    locale. *)
Variable log_file : list (severity * pystr) -> bytes.

(** [str(exc)]. *)
Definition raised_str (r : raised) : pystr :=
  match r with
  | Lib e => exc_str e
  | Cli (Unknown err) => UnknownCommandError_str err
  | Cli IndexError => msg_index_error
  | EOFError => msg_eof_error
  end.

(** The [except Exception as exc] clause: the error is logged and written
    to standard error. *)
Definition handle (r : raised) (s : Session) : Session :=
  say_error (msg_error ++ raised_str r)
    (note ERROR (msg_error_log ++ raised_str r) s).

(** The outcome of a method that returns nothing, followed by a
    [print].  [broken] is the session as the call leaves it when it is
    interrupted; the exception is caught like any other. *)
Definition finish (o : outcome unit) (done : pystr) (broken : Session)
  (s : Session) : step :=
  match o with
  | Returns _ self w => Continue (say done (after_call self w s))
  | Raises e self w => Continue (handle (Lib e) (after_call self w s))
  | Interrupted e => Continue (handle (Lib e) broken)
  end.

(** The manager after an [add_train] whose sort was interrupted: the
    record is appended and the list is as the sort left it. *)
Definition interrupted_add (self : TrainManager)
  (departure_point number_train time_departure destination : pystr)
  : TrainManager :=
  match trains self with
  | PList l =>
      {| trains :=
           PList (interrupted_sort
                    (l ++ [train_dict departure_point number_train
                             time_departure destination])) |}
  | _ => self
  end.

(** [print_trains(trains)] inside the [try]: what it printed stays
    printed when it raises. *)
Definition show (trains : pyval) (s : Session) : result unit * Session :=
  let (printed, r) := print_trains float_is_zero float_str trains in
  (r,
   {| manager := manager s; disk := disk s; journal := journal s;
      stdin := stdin s;
      stdout := stdout s ++ map (fun ln => ln ++ [10]) printed;
      stderr := stderr s |}).

(** The [add] command: four lines are asked for, then [add_train]. *)
Definition do_add (s : Session) : step :=
  match input ask_departure_point s with
  | (None, s1) => Continue (handle EOFError s1)
  | (Some departure_point, s1) =>
  match input ask_number_train s1 with
  | (None, s2) => Continue (handle EOFError s2)
  | (Some number_train, s2) =>
  match input ask_time_departure s2 with
  | (None, s3) => Continue (handle EOFError s3)
  | (Some time_departure, s3) =>
  match input ask_destination s3 with
  | (None, s4) => Continue (handle EOFError s4)
  | (Some destination, s4) =>
      finish
        (add_train (manager s4) departure_point number_train time_departure
           destination (world_of s4))
        msg_train_added
        (with_manager
           (interrupted_add (manager s4) departure_point number_train
              time_departure destination) s4)
        s4
  end end end end.

(** The [list] command. *)
Definition do_list (s : Session) : step :=
  let trains_list := list_trains (manager s) in
  match show trains_list s with
  | (Exc e, s1) => Continue (handle (Lib e) s1)
  | (Ok _, s1) =>
      match py_len trains_list with
      | Exc e => Continue (handle (Lib e) s1)
      | Ok n =>
          Continue
            (note (Level INFO) (msg_listed_1 ++ int_repr n ++ msg_listed_2) s1)
      end
  end.

(** The [select] command. *)
Definition do_select (point_user : pystr) (s : Session) : step :=
  match select_trains str_lower (manager s) point_user (world_of s) with
  | Returns selected self w =>
      match show (PList selected) (after_call self w s) with
      | (Exc e, s1) => Continue (handle (Lib e) s1)
      | (Ok _, s1) => Continue s1
      end
  | Raises e self w => Continue (handle (Lib e) (after_call self w s))
  | Interrupted e => Continue (handle (Lib e) s)
  end.

(** The [load] command on [trains.log] itself: [load_from_json] finds the
    file, since [logging] has created it, and reads what has been logged
    so far. *)
Definition do_load_log (s : Session) : step :=
  let w :=
    {| files := fun p => if str_eqb p log_name
                         then Some (log_file (journal s)) else disk s p;
       log := [] |} in
  match load_from_json (manager s) log_name w with
  | Returns _ self w' =>
      Continue
        (say (msg_load_done_1 ++ log_name ++ msg_done_2)
           (after_reading self w' s))
  | Raises e self w' => Continue (handle (Lib e) (after_reading self w' s))
  | Interrupted e => Continue (handle (Lib e) s)
  end.

(** One turn of the loop. *)
Definition loop_body (s : Session) : step :=
  match input prompt s with
  | (None, s1) => Continue (handle EOFError s1)
  | (Some line, s1) =>
      let command := str_lower (strip line) in
      let s2 :=
        note (Level INFO) (msg_command_1 ++ command ++ msg_command_2) s1 in
      match dispatch command with
      | inr e => Continue (handle (Cli e) s2)
      | inl DoExit =>
          Stop (say msg_exit (note (Level INFO) msg_exit_log s2))
      | inl DoAdd => do_add s2
      | inl DoList => do_list s2
      | inl (DoSelect point_user) => do_select point_user s2
      | inl (DoLoad filename) =>
          if str_eqb filename log_name then do_load_log s2
          else
            finish (load_from_json (manager s2) filename (world_of s2))
              (msg_load_done_1 ++ filename ++ msg_done_2) s2 s2
      | inl (DoSave filename) =>
          finish
            (save_to_json float_repr (manager s2) filename (world_of s2))
            (msg_save_done_1 ++ filename ++ msg_done_2)
            (with_file (save_path filename)
               (interrupted_dump (trains (manager s2))) s2)
            s2
      | inl DoHelp =>
          Continue (fold_left (fun s' ln => say ln s') help_lines s2)
      end
  end.

(** The loop, for at most [turns] turns. *)
Fixpoint run (turns : nat) (s : Session) : step :=
  match turns with
  | O => Continue s
  | S turns' =>
      match loop_body s with
      | Continue s' => run turns' s'
      | Stop s' => Stop s'
      end
  end.

End Main.

(** [main] before its loop: a new manager, and the start logged. *)
Definition start (files0 : pystr -> option bytes) (lines : list pystr)
  : Session :=
  {| manager := init; disk := files0;
     journal := [(Level INFO, msg_started)];
     stdin := lines; stdout := []; stderr := [] |}.

(** What [print_trains] prints for trains that have these texts. *)
Definition table_of (fs : list (pystr * pystr * pystr * pystr))
  : list pystr :=
  match fs with
  | [] => [msg_empty]
  | _ :: _ => table_line :: table_header :: table_line :: table_rows 1 fs
  end.

(** The test of [select_trains] on the four texts of a train. *)
Definition field_matches (str_lower : pystr -> pystr) (point_user : pystr)
  (f : pystr * pystr * pystr * pystr) : bool :=
  let '(_, _, _, dest) := f in
  str_eqb (str_lower dest) (str_lower point_user).

(** The prompts of the [add] command. *)
Definition add_prompts : list pystr :=
  [ask_departure_point; ask_number_train; ask_time_departure;
   ask_destination].

(** A later state of a session: the log and the two outputs have grown at
    their ends, and lines were taken from the front of the input. *)
Definition continues (s s' : Session) : Prop :=
  (exists added, journal s' = journal s ++ added)
  /\ (exists out, stdout s' = stdout s ++ out)
  /\ (exists err, stderr s' = stderr s ++ err)
  /\ (exists n, stdin s' = skipn n (stdin s)).


(* ===================================================================== *)
(** * Properties *)
(* ===================================================================== *)

(** ** The order of [str] *)

Lemma str_eqb_eq (a b : pystr) : str_eqb a b = true <-> a = b.
Proof.
  revert b; induction a as [|x a IH]; intros [|y b]; simpl;
    try (split; [discriminate | discriminate]); [tauto|].
  rewrite andb_true_iff, Z.eqb_eq, IH.
  split; [intros [-> ->]; reflexivity | intros H; inversion H; auto].
Qed.

Lemma str_eqb_refl (a : pystr) : str_eqb a a = true.
Proof. apply str_eqb_eq; reflexivity. Qed.

Lemma str_eqb_neq (a b : pystr) : str_eqb a b = false <-> a <> b.
Proof.
  rewrite <- str_eqb_eq. destruct (str_eqb a b); split; congruence.
Qed.

Lemma str_compare_eq (a b : pystr) : str_compare a b = Eq <-> a = b.
Proof.
  revert b; induction a as [|x a IH]; intros [|y b]; simpl;
    try (split; [discriminate | discriminate]); [tauto|].
  destruct (Z.compare_spec x y) as [-> | Hlt | Hgt].
  - rewrite IH. split; [intros ->; reflexivity | intros H; inversion H; auto].
  - split; [discriminate | intros H; inversion H; lia].
  - split; [discriminate | intros H; inversion H; lia].
Qed.

Lemma str_compare_antisym (a b : pystr) :
  str_compare b a = CompOpp (str_compare a b).
Proof.
  revert b; induction a as [|x a IH]; intros [|y b]; simpl; auto.
  rewrite (Z.compare_antisym x y).
  destruct (x ?= y); simpl; auto.
Qed.

Lemma str_compare_trans (c : comparison) (a b d : pystr) :
  str_compare a b = c -> str_compare b d = c -> str_compare a d = c.
Proof.
  revert b d; induction a as [|x a IH]; intros [|y b] [|z d]; simpl;
    try congruence.
  destruct (Z.compare_spec x y) as [-> | Hxy | Hxy].
  - destruct (y ?= z); eauto.
  - intros <-. destruct (Z.compare_spec y z) as [-> | Hyz | Hyz];
      try discriminate.
    + intros _. apply Z.compare_lt_iff in Hxy. rewrite Hxy; reflexivity.
    + intros _. assert (H : x < z) by lia.
      apply Z.compare_lt_iff in H. rewrite H; reflexivity.
  - intros <-. destruct (Z.compare_spec y z) as [-> | Hyz | Hyz];
      try discriminate.
    + intros _. apply Z.lt_gt, Z.compare_gt_iff in Hxy.
      apply Z.compare_gt_iff in Hxy. rewrite Hxy; reflexivity.
    + intros _. assert (H : z < x) by lia.
      apply Z.compare_gt_iff in H. rewrite H; reflexivity.
Qed.

Lemma str_lt_irrefl (a : pystr) : str_lt a a = false.
Proof.
  unfold str_lt. replace (str_compare a a) with Eq; auto.
  symmetry; apply str_compare_eq; reflexivity.
Qed.

Lemma str_lt_le (a b : pystr) : str_lt a b = true -> str_le a b = true.
Proof. unfold str_lt, str_le. destruct (str_compare a b); congruence. Qed.

Lemma str_not_lt_le (a b : pystr) : str_lt a b = false -> str_le b a = true.
Proof.
  unfold str_lt, str_le. rewrite (str_compare_antisym a b).
  destruct (str_compare a b); simpl; congruence.
Qed.

Lemma str_le_trans (a b c : pystr) :
  str_le a b = true -> str_le b c = true -> str_le a c = true.
Proof.
  unfold str_le.
  destruct (str_compare a b) eqn:Hab; try discriminate;
    destruct (str_compare b c) eqn:Hbc; try discriminate; intros _ _.
  - apply str_compare_eq in Hab, Hbc. subst.
    replace (str_compare c c) with Eq; auto.
    symmetry; apply str_compare_eq; reflexivity.
  - apply str_compare_eq in Hab. subst. rewrite Hbc; reflexivity.
  - apply str_compare_eq in Hbc. subst. rewrite Hab; reflexivity.
  - rewrite (str_compare_trans Lt a b c Hab Hbc); reflexivity.
Qed.

Lemma str_le_total (a b : pystr) : str_le a b = true \/ str_le b a = true.
Proof.
  unfold str_le. rewrite (str_compare_antisym a b).
  destruct (str_compare a b); simpl; auto.
Qed.

(** The order is the one of the characters, not of the times of day. *)
Example str_lt_not_time_aware :
  str_lt (lit "09:00") (lit "9:00") = true
  /\ str_lt (lit "10:00") (lit "9:00") = true
  /\ str_lt (lit "08:00") (lit "09:15") = true.
Proof. repeat split. Qed.

(** ** The sort of [add_train] *)

Lemma insert_by_key_perm (k : pystr) (x : pyval) (l : list (pystr * pyval)) :
  Permutation ((k, x) :: l) (insert_by_key k x l).
Proof.
  induction l as [|[k' y] l IH]; simpl; auto.
  destruct (str_lt k' k); auto.
  rewrite perm_swap. constructor. exact IH.
Qed.

Lemma stable_sort_perm (l : list (pystr * pyval)) :
  Permutation l (stable_sort l).
Proof.
  induction l as [|[k x] l IH]; simpl; auto.
  rewrite <- insert_by_key_perm. constructor. exact IH.
Qed.

Lemma insert_by_key_sorted (k : pystr) (x : pyval) (l : list (pystr * pyval)) :
  StronglySorted (fun a b => str_le a b = true) (map fst l) ->
  StronglySorted (fun a b => str_le a b = true)
    (map fst (insert_by_key k x l)).
Proof.
  induction l as [|[k' y] l IH]; simpl; intros Hs.
  - repeat constructor.
  - inversion Hs as [|? ? Hs' Hall]; subst.
    destruct (str_lt k' k) eqn:Hlt; simpl.
    + constructor; [apply IH; exact Hs'|].
      assert (Hp : Permutation (map fst ((k, x) :: l))
                     (map fst (insert_by_key k x l)))
        by (apply Permutation_map, insert_by_key_perm).
      eapply Permutation_Forall; [exact Hp|].
      simpl. constructor; [apply str_lt_le; exact Hlt | exact Hall].
    + apply str_not_lt_le in Hlt.
      constructor; [exact Hs|].
      constructor; [exact Hlt|].
      eapply Forall_impl; [|exact Hall].
      intros a Ha. eapply str_le_trans; eauto.
Qed.

Lemma stable_sort_sorted (l : list (pystr * pyval)) :
  StronglySorted (fun a b => str_le a b = true) (map fst (stable_sort l)).
Proof.
  induction l as [|[k x] l IH]; simpl; [constructor|].
  apply insert_by_key_sorted; exact IH.
Qed.

(** Insertion does not move an item past one with the same key. *)
Lemma insert_by_key_stable (k0 k : pystr) (x : pyval)
  (l : list (pystr * pyval)) :
  filter (fun kx => str_eqb (fst kx) k0) (insert_by_key k x l)
  = filter (fun kx => str_eqb (fst kx) k0) ((k, x) :: l).
Proof.
  induction l as [|[k' y] l IH]; [reflexivity|].
  cbn [insert_by_key]. destruct (str_lt k' k) eqn:Hlt; [|reflexivity].
  cbn [filter fst] in *. rewrite IH.
  destruct (str_eqb k k0) eqn:Hk; [|reflexivity].
  destruct (str_eqb k' k0) eqn:Hk'; [|reflexivity].
  apply str_eqb_eq in Hk, Hk'. subst.
  rewrite str_lt_irrefl in Hlt. discriminate.
Qed.

Lemma stable_sort_stable (k0 : pystr) (l : list (pystr * pyval)) :
  filter (fun kx => str_eqb (fst kx) k0) (stable_sort l)
  = filter (fun kx => str_eqb (fst kx) k0) l.
Proof.
  induction l as [|[k x] l IH]; [reflexivity|].
  cbn [stable_sort]. rewrite insert_by_key_stable.
  cbn [filter fst]. rewrite IH. reflexivity.
Qed.

Lemma sort_keys_timed (l : list pyval) :
  Forall (fun t => time_departure_of t <> None) l ->
  exists keyed ks,
    sort_keys l = Ok keyed /\ str_keys keyed = Some ks
    /\ map snd ks = l /\ keyed_right ks.
Proof.
  induction 1 as [|t l Ht _ (keyed & ks & Hk & Hs & Hm & Hr)].
  - exists [], []. repeat split; constructor.
  - unfold time_departure_of in Ht. destruct t as [| | | | |?|d]; try congruence.
    destruct (dict_get k_time_departure d) as [[| | | |s| |]|] eqn:Hd;
      try congruence.
    exists ((PStr s, PDict d) :: keyed), ((s, PDict d) :: ks).
    cbn [sort_keys getitem str_keys]. rewrite Hd, Hk, Hs.
    repeat split.
    + cbn. rewrite Hm. reflexivity.
    + constructor; [|exact Hr]. cbn. rewrite Hd. reflexivity.
Qed.

Lemma with_time_keyed (k0 : pystr) (ks : list (pystr * pyval)) :
  keyed_right ks ->
  with_time k0 (map snd ks)
  = map snd (filter (fun kx => str_eqb (fst kx) k0) ks).
Proof.
  induction 1 as [|[k x] ks Hk _ IH]; [reflexivity|].
  cbn [map filter with_time snd fst] in *. rewrite Hk.
  fold (with_time k0 (map snd ks)). rewrite IH.
  destruct (str_eqb k k0); reflexivity.
Qed.

Lemma with_time_app (k : pystr) (l1 l2 : list pyval) :
  with_time k (l1 ++ l2) = with_time k l1 ++ with_time k l2.
Proof. apply filter_app. Qed.

Lemma time_departure_of_train_dict (dp nt td dest : pystr) :
  time_departure_of (train_dict dp nt td dest) = Some td.
Proof. reflexivity. Qed.

Lemma destination_of_train_dict (dp nt td dest : pystr) :
  destination_of (train_dict dp nt td dest) = Some dest.
Proof. reflexivity. Qed.

(** What one [add_train] does to a store whose items all carry a [str]
    departure time. *)
Lemma add_train_timed (self : TrainManager) (l : list pyval)
  (dp nt td dest : pystr) (w : World) :
  trains self = PList l ->
  Forall (fun t => time_departure_of t <> None) l ->
  exists l2,
    add_train self dp nt td dest w
    = Returns tt {| trains := PList l2 |}
        (logging INFO
           (msg_added_1 ++ dp ++ msg_added_2 ++ nt ++ msg_added_3 ++ td
            ++ msg_added_4 ++ dest) w)
    /\ Permutation (l ++ [train_dict dp nt td dest]) l2
    /\ sorted_by_time l2
    /\ (forall k, with_time k l2
                  = with_time k (l ++ [train_dict dp nt td dest]))
    /\ Forall (fun t => time_departure_of t <> None) l2.
Proof.
  intros Hself Hl.
  assert (Hl1 : Forall (fun t => time_departure_of t <> None)
                  (l ++ [train_dict dp nt td dest])).
  { apply Forall_app. split; [exact Hl|].
    constructor; [|constructor].
    rewrite time_departure_of_train_dict. discriminate. }
  destruct (sort_keys_timed _ Hl1) as (keyed & ks & Hk & Hs & Hm & Hr).
  assert (Hr' : keyed_right (stable_sort ks)).
  { eapply Permutation_Forall; [apply stable_sort_perm | exact Hr]. }
  exists (map snd (stable_sort ks)).
  unfold add_train, sort_by_time_departure. rewrite Hself, Hk, Hs.
  split; [reflexivity|]. split; [|split; [|split]].
  - rewrite <- Hm. apply Permutation_map, stable_sort_perm.
  - exists (map fst (stable_sort ks)). split; [|apply stable_sort_sorted].
    clear - Hr'. induction Hr' as [|[k x] r Hkx _ IH]; [reflexivity|].
    cbn [map fst snd] in *. rewrite Hkx, IH. reflexivity.
  - intros k. rewrite <- Hm, !with_time_keyed by assumption.
    rewrite stable_sort_stable. reflexivity.
  - clear - Hr'. induction Hr' as [|[k x] r Hkx _ IH]; constructor; auto.
    cbn in *. rewrite Hkx. discriminate.
Qed.

(** ** The sort is the stable sort *)

Lemma str_le_antisym (a b : pystr) :
  str_le a b = true -> str_le b a = true -> a = b.
Proof.
  unfold str_le. rewrite (str_compare_antisym a b).
  destruct (str_compare a b) eqn:E; simpl; try discriminate.
  intros _ _. apply str_compare_eq. exact E.
Qed.

Lemma filter_key_other (k k0 : pystr) (x : pyval) (l : list (pystr * pyval)) :
  k <> k0 ->
  filter (fun kx => str_eqb (fst kx) k0) ((k, x) :: l)
  = filter (fun kx => str_eqb (fst kx) k0) l.
Proof.
  intros H. cbn [filter fst].
  replace (str_eqb k k0) with false by (symmetry; apply str_eqb_neq; exact H).
  reflexivity.
Qed.

Lemma filter_key_in (k0 : pystr) (kx : pystr * pyval)
  (l : list (pystr * pyval)) :
  In kx (filter (fun kx => str_eqb (fst kx) k0) l) -> In kx l /\ fst kx = k0.
Proof.
  intros H. apply filter_In in H. destruct H as [Hin Hk].
  apply str_eqb_eq in Hk. auto.
Qed.

(** Two lists sorted by key that agree, key by key, on the items with
    that key and on their order, are one list.  So the order [list.sort]
    produces, being sorted and stable, is the order [stable_sort]
    computes. *)
Lemma sorted_stable_unique (a : list (pystr * pyval)) :
  forall b,
    StronglySorted (fun x y => str_le x y = true) (map fst a) ->
    StronglySorted (fun x y => str_le x y = true) (map fst b) ->
    (forall k, filter (fun kx => str_eqb (fst kx) k) a
               = filter (fun kx => str_eqb (fst kx) k) b) ->
    a = b.
Proof.
  induction a as [|[ka xa] a IH]; intros b Ha Hb Hf.
  - destruct b as [|[kb xb] b]; [reflexivity|].
    specialize (Hf kb). cbn [filter fst] in Hf.
    rewrite str_eqb_refl in Hf. discriminate.
  - destruct b as [|[kb xb] b].
    { specialize (Hf ka). cbn [filter fst] in Hf.
      rewrite str_eqb_refl in Hf. discriminate. }
    cbn [map fst] in Ha, Hb.
    inversion Ha as [|? ? Ha' Hla]; inversion Hb as [|? ? Hb' Hlb]; subst.
    assert (Hk : ka = kb).
    { apply str_le_antisym.
      - assert (Hin : In (kb, xb) ((ka, xa) :: a)).
        { apply (filter_key_in kb). rewrite Hf. cbn [filter fst].
          rewrite str_eqb_refl. left. reflexivity. }
        destruct Hin as [Heq | Hin];
          [inversion Heq; subst; unfold str_le;
           replace (str_compare kb kb) with Eq
             by (symmetry; apply str_compare_eq; reflexivity);
           reflexivity|].
        rewrite Forall_forall in Hla. apply Hla.
        apply (in_map fst) in Hin. exact Hin.
      - assert (Hin : In (ka, xa) ((kb, xb) :: b)).
        { apply (filter_key_in ka). rewrite <- Hf. cbn [filter fst].
          rewrite str_eqb_refl. left. reflexivity. }
        destruct Hin as [Heq | Hin];
          [inversion Heq; subst; unfold str_le;
           replace (str_compare ka ka) with Eq
             by (symmetry; apply str_compare_eq; reflexivity);
           reflexivity|].
        rewrite Forall_forall in Hlb. apply Hlb.
        apply (in_map fst) in Hin. exact Hin. }
    subst kb.
    pose proof (Hf ka) as Hka. cbn [filter fst] in Hka.
    rewrite str_eqb_refl in Hka. inversion Hka as [[Hx Htl]]. subst xb.
    f_equal. apply IH; try assumption.
    intros k. destruct (str_eqb ka k) eqn:E.
    + apply str_eqb_eq in E. subst k. exact Htl.
    + specialize (Hf k). cbn [filter fst] in Hf. rewrite E in Hf. exact Hf.
Qed.

Lemma stable_sort_unique (l l' : list (pystr * pyval)) :
  StronglySorted (fun x y => str_le x y = true) (map fst l') ->
  (forall k, filter (fun kx => str_eqb (fst kx) k) l'
             = filter (fun kx => str_eqb (fst kx) k) l) ->
  l' = stable_sort l.
Proof.
  intros Hs Hf. apply sorted_stable_unique.
  - exact Hs.
  - apply stable_sort_sorted.
  - intros k. rewrite stable_sort_stable. apply Hf.
Qed.

Lemma sort_keys_only_timed (l : list pyval) :
  forall keyed ks,
    sort_keys l = Ok keyed -> str_keys keyed = Some ks ->
    Forall (fun t => time_departure_of t <> None) l.
Proof.
  induction l as [|t l IH]; intros keyed ks Hk Hs; [constructor|].
  cbn [sort_keys] in Hk.
  destruct (getitem t k_time_departure) as [k|] eqn:Hg; [|discriminate].
  destruct (sort_keys l) as [keyed'|] eqn:Hl; [|discriminate].
  inversion Hk; subst. cbn [str_keys] in Hs.
  destruct k as [| | | |s| |]; try discriminate.
  destruct (str_keys keyed') as [ks'|] eqn:Hs'; [|discriminate].
  constructor; [|eapply IH; eauto].
  unfold getitem in Hg. destruct t as [| | | | |?|d]; try discriminate.
  cbn [time_departure_of].
  destruct (dict_get k_time_departure d); inversion Hg; subst. discriminate.
Qed.

(** [add_train] returns on no other store: the condition of
    [add_train_timed] is the exact one. *)
Lemma add_train_returns_only_timed (self self' : TrainManager)
  (dp nt td dest : pystr) (w w' : World) :
  add_train self dp nt td dest w = Returns tt self' w' ->
  timed_store (trains self).
Proof.
  unfold add_train, sort_by_time_departure. intros H.
  destruct (trains self) as [| | | | |l|]; try discriminate.
  destruct (sort_keys (l ++ [train_dict dp nt td dest])) as [keyed|] eqn:Hk;
    [|discriminate].
  destruct (str_keys keyed) as [ks|] eqn:Hs; [|discriminate].
  exists l. split; [reflexivity|].
  pose proof (sort_keys_only_timed _ _ _ Hk Hs) as Hall.
  apply Forall_app in Hall. tauto.
Qed.

(** ** [add_train] *)

(** C2 (sort invariant).  Start from any store whose items all carry a
    [str] departure time, sorted or not, and call [add_train] any number of
    times, at least once: every call returns, and after the last one
    [list_trains()] is non-decreasing in ["time_departure"] under the
    order of [str].  As the sequence of calls is arbitrary, this is the
    state after each call.  On any other store [add_train] raises
    ([add_train_returns_only_timed]). *)
Theorem add_train_sort_invariant :
  forall (calls : list (pystr * pystr * pystr * pystr))
         (c : pystr * pystr * pystr * pystr)
         (self : TrainManager) (w : World),
    timed_store (trains self) ->
    exists self' w' l,
      add_trains (calls ++ [c]) self w = Some (self', w')
      /\ list_trains self' = PList l
      /\ sorted_by_time l.
Proof.
  induction calls as [|[[[dp nt] td] dest] calls IH];
    intros c self w (l & Hself & Hl).
  - destruct c as [[[dp nt] td] dest].
    destruct (add_train_timed self l dp nt td dest w Hself Hl)
      as (l2 & Hrun & _ & Hsorted & _).
    cbn [app add_trains]. rewrite Hrun.
    eexists _, _, l2. repeat split. exact Hsorted.
  - destruct (add_train_timed self l dp nt td dest w Hself Hl)
      as (l2 & Hrun & _ & _ & _ & Hl2).
    cbn [app add_trains]. rewrite Hrun.
    apply IH. exists l2. split; [reflexivity | exact Hl2].
Qed.

Lemma add_train_sort_invariant_witness :
  timed_store (trains two_trains)
  /\ exists self' w' l,
       add_trains ([(lit "Kazan", lit "7", lit "9:00", lit "Moscow")]
                   ++ [(lit "Samara", lit "8", lit "08:00", lit "Kazan")])
         two_trains empty_world = Some (self', w')
       /\ list_trains self' = PList l
       /\ sorted_by_time l.
Proof.
  assert (H : timed_store (trains two_trains)).
  { exists [moscow_kazan; moscow_samara]. split; [reflexivity|].
    repeat constructor; discriminate. }
  split; [exact H|].
  apply (add_train_sort_invariant
           [(lit "Kazan", lit "7", lit "9:00", lit "Moscow")]
           (lit "Samara", lit "8", lit "08:00", lit "Kazan")
           two_trains empty_world H).
Defined.

(** The key of a record that has a [str] departure time, with the
    record. *)
Lemma sorted_by_time_keyed (l : list pyval) :
  sorted_by_time l ->
  exists a : list (pystr * pyval),
    map snd a = l
    /\ StronglySorted (fun x y => str_le x y = true) (map fst a)
    /\ keyed_right a.
Proof.
  unfold keyed_right. intros (ks & Hk & Hs). revert ks Hk Hs.
  induction l as [|t l IH]; intros ks Hk Hs.
  - exists []. destruct ks; [|discriminate]. repeat split; constructor.
  - destruct ks as [|k ks]; [discriminate|].
    cbn [map] in Hk. injection Hk as Ht Hk.
    inversion Hs as [|? ? Hs' Hall]; subst.
    destruct (IH ks Hk Hs') as (a & Ha & Hsa & Hfa).
    assert (Hks : map fst a = ks).
    { clear - Ha Hk Hfa. subst l. revert ks Hk.
      induction Hfa as [|[k' x] a Hx _ IH]; intros ks Hk;
        destruct ks as [|k0 ks]; try discriminate; [reflexivity|].
      cbn [map fst snd] in *. injection Hk as Hk0 Hk.
      rewrite Hx in Hk0. injection Hk0 as ->. f_equal. apply IH, Hk. }
    exists ((k, t) :: a). cbn [map fst snd]. rewrite Ha, Hks.
    repeat split; [constructor; assumption|].
    constructor; [exact Ht | exact Hfa].
Qed.

Lemma keyed_filter_eq (k : pystr) (a b : list (pystr * pyval)) :
  keyed_right a -> keyed_right b ->
  map snd (filter (fun kx => str_eqb (fst kx) k) a)
  = map snd (filter (fun kx => str_eqb (fst kx) k) b) ->
  filter (fun kx => str_eqb (fst kx) k) a
  = filter (fun kx => str_eqb (fst kx) k) b.
Proof.
  unfold keyed_right. intros Ha Hb.
  assert (Ha' : Forall (fun kx => time_departure_of (snd kx) = Some (fst kx))
                  (filter (fun kx => str_eqb (fst kx) k) a))
    by (apply Forall_forall; intros x Hx; apply filter_In in Hx;
        rewrite Forall_forall in Ha; apply Ha, Hx).
  assert (Hb' : Forall (fun kx => time_departure_of (snd kx) = Some (fst kx))
                  (filter (fun kx => str_eqb (fst kx) k) b))
    by (apply Forall_forall; intros x Hx; apply filter_In in Hx;
        rewrite Forall_forall in Hb; apply Hb, Hx).
  revert Ha' Hb'.
  generalize (filter (fun kx => str_eqb (fst kx) k) a) as fa.
  generalize (filter (fun kx => str_eqb (fst kx) k) b) as fb.
  intros fb fa Hfa. revert fb.
  induction Hfa as [|[ka xa] fa Hxa _ IH]; intros fb Hfb H;
    destruct Hfb as [|[kb xb] fb Hxb Hfb]; try discriminate; [reflexivity|].
  cbn [map fst snd] in *. injection H as Hx H. subst xb.
  rewrite Hxa in Hxb. injection Hxb as ->. f_equal. apply IH; assumption.
Qed.

(** A list sorted by departure time is fixed by the records it has under
    every time and their order: a stable sort has one result. *)
Lemma sorted_by_time_unique (l l' : list pyval) :
  sorted_by_time l -> sorted_by_time l' ->
  (forall k, with_time k l = with_time k l') ->
  l = l'.
Proof.
  intros Hl Hl' Hf.
  destruct (sorted_by_time_keyed l Hl) as (a & Ha & Hsa & Hfa).
  destruct (sorted_by_time_keyed l' Hl') as (b & Hb & Hsb & Hfb).
  subst l l'. f_equal. apply sorted_stable_unique; [exact Hsa | exact Hsb|].
  intros k. apply keyed_filter_eq; [exact Hfa | exact Hfb|].
  rewrite <- !with_time_keyed by assumption. apply Hf.
Qed.

(** C9 (stable re-sort).  On a store whose items all carry a [str]
    departure time, [add_train] returns and the new list is the old
    records and the new one, re-sorted by a stable sort: it holds those
    records and nothing else, it is sorted by departure time, and for
    every departure time [k] the records with that time come in the order
    they had before, the new record after them when its time is [k].  No
    other list is sorted and keeps that order. *)
Theorem add_train_stable :
  forall (self : TrainManager) (l : list pyval)
         (dp nt td dest : pystr) (w : World),
    trains self = PList l ->
    Forall (fun t => time_departure_of t <> None) l ->
    exists l2 w',
      add_train self dp nt td dest w
      = Returns tt {| trains := PList l2 |} w'
      /\ Permutation (l ++ [train_dict dp nt td dest]) l2
      /\ sorted_by_time l2
      /\ (forall k,
            with_time k l2
            = with_time k l
              ++ (if str_eqb td k then [train_dict dp nt td dest] else []))
      /\ (forall l3,
            sorted_by_time l3 ->
            (forall k,
               with_time k l3
               = with_time k l
                 ++ (if str_eqb td k then [train_dict dp nt td dest]
                     else [])) ->
            l3 = l2).
Proof.
  intros self l dp nt td dest w Hself Hl.
  destruct (add_train_timed self l dp nt td dest w Hself Hl)
    as (l2 & Hrun & Hperm & Hsorted & Hstable & _).
  assert (Hst : forall k,
             with_time k l2
             = with_time k l
               ++ (if str_eqb td k then [train_dict dp nt td dest]
                   else [])).
  { intros k. rewrite Hstable, with_time_app. f_equal. }
  exists l2. eexists. split; [exact Hrun|]. split; [exact Hperm|].
  split; [exact Hsorted|]. split; [exact Hst|].
  intros l3 Hs3 H3. apply sorted_by_time_unique; [exact Hs3 | exact Hsorted|].
  intros k. rewrite H3, Hst. reflexivity.
Qed.

Lemma add_train_stable_witness :
  trains two_trains = PList [moscow_kazan; moscow_samara]
  /\ Forall (fun t => time_departure_of t <> None)
       [moscow_kazan; moscow_samara]
  /\ exists l2 w',
       add_train two_trains (lit "Tver") (lit "303") (lit "08:00")
         (lit "Kazan") empty_world
       = Returns tt {| trains := PList l2 |} w'
       /\ Permutation
            ([moscow_kazan; moscow_samara]
             ++ [train_dict (lit "Tver") (lit "303") (lit "08:00")
                   (lit "Kazan")]) l2
       /\ sorted_by_time l2
       /\ (forall k,
             with_time k l2
             = with_time k [moscow_kazan; moscow_samara]
               ++ (if str_eqb (lit "08:00") k
                   then [train_dict (lit "Tver") (lit "303") (lit "08:00")
                           (lit "Kazan")]
                   else []))
       /\ (forall l3,
             sorted_by_time l3 ->
             (forall k,
                with_time k l3
                = with_time k [moscow_kazan; moscow_samara]
                  ++ (if str_eqb (lit "08:00") k
                      then [train_dict (lit "Tver") (lit "303")
                              (lit "08:00") (lit "Kazan")]
                      else [])) ->
             l3 = l2).
Proof.
  assert (H : Forall (fun t => time_departure_of t <> None)
                [moscow_kazan; moscow_samara])
    by (repeat constructor; discriminate).
  split; [reflexivity|]. split; [exact H|].
  apply (add_train_stable two_trains [moscow_kazan; moscow_samara]
           (lit "Tver") (lit "303") (lit "08:00") (lit "Kazan")
           empty_world eq_refl H).
Defined.

(** The stable order on a concrete list: the new train goes after the
    train that has the same time and before the later one. *)
Example add_train_stable_run :
  add_train two_trains (lit "Tver") (lit "303") (lit "08:00") (lit "Kazan")
    empty_world
  = Returns tt
      {| trains :=
           PList [moscow_samara;
                  train_dict (lit "Tver") (lit "303") (lit "08:00")
                    (lit "Kazan");
                  moscow_kazan] |}
      (logging INFO
         (msg_added_1 ++ lit "Tver" ++ msg_added_2 ++ lit "303"
          ++ msg_added_3 ++ lit "08:00" ++ msg_added_4 ++ lit "Kazan")
         empty_world).
Proof. vm_compute. reflexivity. Qed.

(** ** [select_trains] *)

Lemma select_loop_filter (str_lower : pystr -> pystr) (q : pystr)
  (l : list pyval) :
  Forall (fun t => destination_of t <> None) l ->
  select_loop str_lower (str_lower q) l
  = Ok (filter (dest_matches str_lower q) l).
Proof.
  induction 1 as [|t l Ht _ IH]; [reflexivity|].
  unfold dest_matches in *. unfold destination_of in Ht |- *.
  destruct t as [| | | | |?|d]; try congruence.
  cbn [select_loop getitem filter].
  destruct (dict_get k_destination d) as [[| | | |s| |]|]; try congruence.
  cbn [lower]. rewrite IH. reflexivity.
Qed.

Lemma select_loop_only_destinations (str_lower : pystr -> pystr)
  (q : pystr) (l : list pyval) :
  forall sel,
    select_loop str_lower q l = Ok sel ->
    Forall (fun t => destination_of t <> None) l.
Proof.
  induction l as [|t l IH]; intros sel H; [constructor|].
  cbn [select_loop] in H.
  destruct (getitem t k_destination) as [d|] eqn:Hg; [|discriminate].
  destruct (lower str_lower d) as [dl|] eqn:Hd; [|discriminate].
  destruct (select_loop str_lower q l) as [sel'|] eqn:Hl; [|discriminate].
  constructor; [|eapply IH; eauto].
  unfold getitem in Hg. destruct t as [| | | | |?|items]; try discriminate.
  cbn [destination_of].
  destruct (dict_get k_destination items); inversion Hg; subst.
  destruct d; discriminate.
Qed.

(** [select_trains] returns on no other store than one that can be
    iterated and whose items all carry a [str] destination. *)
Lemma select_trains_returns_only (str_lower : pystr -> pystr)
  (self self' : TrainManager) (point_user : pystr) (w w' : World)
  (sel : list pyval) :
  select_trains str_lower self point_user w = Returns sel self' w' ->
  exists items,
    iterate (trains self) = Ok items
    /\ Forall (fun t => destination_of t <> None) items.
Proof.
  unfold select_trains. intros H.
  destruct (iterate (trains self)) as [items|]; [|discriminate].
  destruct (select_loop str_lower (str_lower point_user) items) as [s|] eqn:E;
    [|discriminate].
  exists items. split; [reflexivity|].
  eapply select_loop_only_destinations; eauto.
Qed.

(** C1 (filter correctness).  On a store whose items all carry a [str]
    destination, [select_trains(d)] returns, leaves the store as it is, and
    its result is [list_trains()] filtered, in order, by the test "the
    destination lower-cased equals [d] lower-cased"; the query lower-cased
    and the number of matches are logged.  On any other list
    [select_trains] raises ([select_trains_returns_only]). *)
Theorem select_trains_filter :
  forall (str_lower : pystr -> pystr) (self : TrainManager)
         (l : list pyval) (point_user : pystr) (w : World),
    list_trains self = PList l ->
    Forall (fun t => destination_of t <> None) l ->
    select_trains str_lower self point_user w
    = Returns (filter (dest_matches str_lower point_user) l) self
        (logging INFO
           (msg_select_1 ++ str_lower point_user ++ msg_select_2
            ++ int_repr
                 (Z.of_nat
                    (List.length
                       (filter (dest_matches str_lower point_user) l)))
            ++ msg_select_3) w)
    /\ forall t,
         dest_matches str_lower point_user t = true
         <-> exists d, destination_of t = Some d
                       /\ str_lower d = str_lower point_user.
Proof.
  intros str_lower self l q w Hself Hl. split.
  - unfold select_trains. unfold list_trains in Hself. rewrite Hself.
    cbn [iterate]. rewrite (select_loop_filter str_lower q l Hl).
    reflexivity.
  - intros t. unfold dest_matches.
    destruct (destination_of t) as [d|].
    + rewrite str_eqb_eq. split.
      * intros H. exists d. auto.
      * intros (d' & Hd & H). inversion Hd; subst. exact H.
    + split; [discriminate | intros (d & Hd & _); discriminate].
Qed.

Lemma select_trains_filter_witness :
  list_trains two_trains = PList [moscow_kazan; moscow_samara]
  /\ Forall (fun t => destination_of t <> None) [moscow_kazan; moscow_samara]
  /\ select_trains ascii_lower two_trains (lit "KAZAN") empty_world
     = Returns [moscow_kazan] two_trains
         (logging INFO
            (msg_select_1 ++ lit "kazan" ++ msg_select_2 ++ lit "1"
             ++ msg_select_3) empty_world).
Proof.
  assert (H : Forall (fun t => destination_of t <> None)
                [moscow_kazan; moscow_samara])
    by (repeat constructor; discriminate).
  split; [reflexivity|]. split; [exact H|].
  exact (proj1 (select_trains_filter ascii_lower two_trains
                  [moscow_kazan; moscow_samara] (lit "KAZAN") empty_world
                  eq_refl H)).
Defined.

(** The two scenarios of the specification, run. *)
Example scenario_two_insertions :
  add_trains [(lit "Moscow", lit "101", lit "09:15", lit "Kazan");
              (lit "Moscow", lit "202", lit "08:00", lit "Samara")]
    init empty_world
  = Some ({| trains := PList [moscow_samara; moscow_kazan] |},
          logging INFO
            (msg_added_1 ++ lit "Moscow" ++ msg_added_2 ++ lit "202"
             ++ msg_added_3 ++ lit "08:00" ++ msg_added_4 ++ lit "Samara")
            (logging INFO
               (msg_added_1 ++ lit "Moscow" ++ msg_added_2 ++ lit "101"
                ++ msg_added_3 ++ lit "09:15" ++ msg_added_4 ++ lit "Kazan")
               empty_world)).
Proof. reflexivity. Qed.

Example scenario_select_any_case :
  forall w,
    select_trains ascii_lower {| trains := PList [moscow_kazan] |}
      (lit "kazan") w
    = select_trains ascii_lower {| trains := PList [moscow_kazan] |}
        (lit "KAZAN") w.
Proof. reflexivity. Qed.

(** ** The codec, there and back *)

Ltac decide_tests :=
  repeat match goal with
         | |- context [?a <=? ?b] =>
             destruct (Z.leb_spec a b); try (exfalso; lia)
         | |- context [?a <? ?b] =>
             destruct (Z.ltb_spec a b); try (exfalso; lia)
         end.

Lemma utf8_char_round_trip (c : Z) :
  is_scalar c ->
  exists bs,
    utf8_encode_char c = Ok bs
    /\ Forall (fun b => 0 <= b < 256) bs
    /\ forall r,
         utf8_decode_Z (bs ++ r)
         = match utf8_decode_Z r with
           | Ok s => Ok (c :: s)
           | Exc e => Exc e
           end.
Proof.
  intros [Hc Hs]. unfold is_surrogate in Hs.
  apply andb_false_iff in Hs.
  assert (Hs' : c < 55296 \/ 57343 < c)
    by (destruct Hs as [H|H]; [apply Z.leb_gt in H | apply Z.leb_gt in H]; lia).
  clear Hs. unfold utf8_encode_char, is_surrogate.
  pose proof (Z.div_mod c 64 ltac:(lia)) as E0.
  pose proof (Z.mod_pos_bound c 64 ltac:(lia)) as B0.
  pose proof (Z.div_mod (c / 64) 64 ltac:(lia)) as E1.
  pose proof (Z.mod_pos_bound (c / 64) 64 ltac:(lia)) as B1.
  pose proof (Z.div_mod (c / 64 / 64) 64 ltac:(lia)) as E2.
  pose proof (Z.mod_pos_bound (c / 64 / 64) 64 ltac:(lia)) as B2.
  replace (c / 262144) with (c / 64 / 64 / 64)
    by (rewrite !Z.div_div by lia; reflexivity).
  replace (c / 4096) with (c / 64 / 64)
    by (rewrite Z.div_div by lia; reflexivity).
  set (q1 := c / 64) in *. set (m0 := c mod 64) in *.
  set (q2 := q1 / 64) in *. set (m1 := q1 mod 64) in *.
  set (q3 := q2 / 64) in *. set (m2 := q2 mod 64) in *.
  destruct (Z.ltb_spec c 0); [lia|].
  destruct (Z.ltb_spec c 128).
  { eexists. split; [reflexivity|]. split; [repeat constructor; lia|].
    intros r. cbn [app utf8_decode_Z]. decide_tests. reflexivity. }
  destruct (Z.ltb_spec c 2048).
  { eexists. split; [reflexivity|]. split; [repeat constructor; lia|].
    intros r. cbn [app utf8_decode_Z]. unfold is_cont. decide_tests.
    cbn [andb]. replace ((192 + q1 - 192) * 64 + (128 + m0 - 128)) with c by lia.
    reflexivity. }
  destruct (Z.ltb_spec c 65536).
  { destruct (Z.leb_spec 55296 c); destruct (Z.leb_spec c 57343);
      cbn [andb]; try lia;
      (eexists; split; [reflexivity|]; split; [repeat constructor; lia|];
       intros r; cbn [app utf8_decode_Z]; unfold is_cont, is_surrogate;
       cbv zeta;
       replace ((224 + q2 - 224) * 4096 + (128 + m1 - 128) * 64
                + (128 + m0 - 128)) with c by lia;
       decide_tests; cbn [andb negb]; reflexivity). }
  destruct (Z.ltb_spec c 1114112); [|lia].
  eexists. split; [reflexivity|]. split; [repeat constructor; lia|].
  intros r. cbn [app utf8_decode_Z]. unfold is_cont. cbv zeta.
  replace ((240 + q3 - 240) * 262144 + (128 + m2 - 128) * 4096
           + (128 + m1 - 128) * 64 + (128 + m0 - 128)) with c by lia.
  decide_tests. cbn [andb]. reflexivity.
Qed.

Ltac split_matches H :=
  repeat match type of H with
         | context [match ?x with _ => _ end] => destruct x eqn:?
         end.

Lemma utf8_decode_Z_raises_upto (n : nat) :
  forall bs e,
    (List.length bs <= n)%nat ->
    utf8_decode_Z bs = Exc e -> e = UnicodeDecodeError.
Proof.
  induction n as [|n IH]; intros bs e Hn H.
  - destruct bs; [discriminate | cbn in Hn; lia].
  - destruct bs as [|b0 bs]; [discriminate|]. cbn [utf8_decode_Z] in H.
    cbv zeta in H.
    split_matches H; try discriminate; try congruence;
      inversion H; subst; clear H; cbn [List.length] in *;
      match goal with
      | E : utf8_decode_Z _ = Exc _ |- _ =>
          apply IH in E; [exact E | cbn [List.length]; lia]
      end.
Qed.

Lemma utf8_decode_raises (b : bytes) (e : exn) :
  utf8_decode b = Exc e -> e = UnicodeDecodeError.
Proof.
  apply (utf8_decode_Z_raises_upto (List.length (map Z_of_byte b))).
  apply Nat.le_refl.
Qed.

(** ** The reader consumes text and raises [JSONDecodeError] only *)

Lemma skip_ws_length (s : pystr) :
  (List.length (skip_ws s) <= List.length s)%nat.
Proof.
  induction s as [|c s IH]; [apply Nat.le_refl|].
  cbn [skip_ws]. destruct (is_ws c); cbn [List.length]; lia.
Qed.

Lemma scanstring_shorter_upto (n : nat) :
  forall s t r,
    (List.length s <= n)%nat ->
    scanstring s = Ok (t, r) -> (List.length r < List.length s)%nat.
Proof.
  induction n as [|n IH]; intros s t r Hn H.
  - destruct s; [discriminate | cbn in Hn; lia].
  - destruct s as [|c s]; [discriminate|]. cbn [scanstring] in H.
    split_matches H; try discriminate; inversion H; subst; clear H;
      cbn [List.length] in *;
      repeat match goal with
             | E : scanstring _ = Ok _ |- _ =>
                 apply IH in E; [|cbn [List.length]; lia]
             end;
      cbn [List.length] in *; lia.
Qed.

Lemma scanstring_shorter (s t r : pystr) :
  scanstring s = Ok (t, r) -> (List.length r < List.length s)%nat.
Proof. apply (scanstring_shorter_upto (List.length s)). apply Nat.le_refl. Qed.

Lemma scanstring_raises_upto (n : nat) :
  forall s e,
    (List.length s <= n)%nat ->
    scanstring s = Exc e -> e = JSONDecodeError.
Proof.
  induction n as [|n IH]; intros s e Hn H.
  - destruct s; [cbn in H; congruence | cbn in Hn; lia].
  - destruct s as [|c s]; [cbn in H; congruence|]. cbn [scanstring] in H.
    split_matches H; try discriminate; try congruence;
      inversion H; subst; clear H; cbn [List.length] in *;
      match goal with
      | E : scanstring _ = Exc _ |- _ =>
          apply IH in E; [exact E | cbn [List.length]; lia]
      end.
Qed.

Lemma scanstring_raises (s : pystr) (e : exn) :
  scanstring s = Exc e -> e = JSONDecodeError.
Proof. apply (scanstring_raises_upto (List.length s)). apply Nat.le_refl. Qed.

Lemma span_digits_length (s ds r : pystr) :
  span_digits s = (ds, r) -> (List.length r <= List.length s)%nat.
Proof.
  revert ds r; induction s as [|c s IH]; intros ds r H; cbn [span_digits] in H.
  - inversion H; subst. apply Nat.le_refl.
  - destruct (is_digit c).
    + destruct (span_digits s) as [ds' r'] eqn:E. inversion H; subst.
      specialize (IH _ _ eq_refl). cbn [List.length]. lia.
    + inversion H; subst. apply Nat.le_refl.
Qed.

Lemma match_integer_shorter (s : pystr) (neg : bool) (ds r : pystr) :
  match_integer s = Some (neg, ds, r) ->
  (List.length r < List.length s)%nat.
Proof.
  unfold match_integer. intros H.
  destruct s as [|c s]; [discriminate|].
  destruct (c =? 45).
  - destruct s as [|d s]; [discriminate|].
    destruct (d =? 48); [inversion H; subst; cbn [List.length]; lia|].
    destruct (is_digit d); [|discriminate].
    destruct (span_digits s) as [ds' r'] eqn:E. inversion H; subst.
    apply span_digits_length in E. cbn [List.length]. lia.
  - destruct (c =? 48); [inversion H; subst; cbn [List.length]; lia|].
    destruct (is_digit c); [|discriminate].
    destruct (span_digits s) as [ds' r'] eqn:E. inversion H; subst.
    apply span_digits_length in E. cbn [List.length]. lia.
Qed.

Lemma match_frac_length (s f r : pystr) :
  match_frac s = (f, r) -> (List.length r <= List.length s)%nat.
Proof.
  unfold match_frac. intros H. destruct s as [|c s]; [inversion H; auto|].
  destruct (c =? 46); [|inversion H; auto].
  destruct (span_digits s) as [[|d ds] r'] eqn:E; inversion H; subst; auto.
  apply span_digits_length in E. cbn [List.length]. lia.
Qed.

Lemma match_exp_length (s x r : pystr) :
  match_exp s = (x, r) -> (List.length r <= List.length s)%nat.
Proof.
  unfold match_exp. intros H. destruct s as [|e s]; [inversion H; auto|].
  destruct ((e =? 101) || (e =? 69)); [|inversion H; auto].
  destruct s as [|c s].
  - cbn in H. inversion H; auto.
  - destruct ((c =? 45) || (c =? 43)).
    + destruct (span_digits s) as [[|d ds] r'] eqn:E; inversion H; subst; auto.
      apply span_digits_length in E. cbn [List.length]. lia.
    + destruct (span_digits (c :: s)) as [[|d ds] r'] eqn:E;
        inversion H; subst; auto.
      apply span_digits_length in E. cbn [List.length] in *. lia.
Qed.

Lemma match_number_shorter (s : pystr) (v : pyval) (r : pystr) :
  match_number s = Some (v, r) -> (List.length r < List.length s)%nat.
Proof.
  unfold match_number. intros H.
  destruct (match_integer s) as [[[neg ds] r0]|] eqn:Ei; [|discriminate].
  destruct (match_frac r0) as [f r1] eqn:Ef.
  destruct (match_exp r1) as [x r2] eqn:Ex.
  apply match_integer_shorter in Ei. apply match_frac_length in Ef.
  apply match_exp_length in Ex.
  destruct f, x; inversion H; subst; lia.
Qed.

Lemma skipn_shorter (n : nat) (s r : pystr) (x v : pyval) :
  (0 < n)%nat -> s <> [] ->
  @Ok (pyval * pystr) (x, skipn n s) = Ok (v, r) ->
  (List.length r < List.length s)%nat.
Proof.
  intros Hn Hs H. assert (Hr : r = skipn n s) by congruence. subst r.
  rewrite length_skipn. destruct s; [congruence|]. cbn [List.length]. lia.
Qed.

Section Loops.

Variable scan : pystr -> result (pyval * pystr).

Hypothesis scan_shorter :
  forall s v r, scan s = Ok (v, r) -> (List.length r < List.length s)%nat.

Lemma JSONArray_loop_shorter (fuel : nat) :
  forall s values v r,
    JSONArray_loop scan fuel s values = Ok (v, r) ->
    (List.length r < List.length s)%nat.
Proof.
  induction fuel as [|fuel IH]; intros s values v r H; [discriminate|].
  cbn [JSONArray_loop] in H.
  destruct (scan s) as [[value s1]|] eqn:Es; [|discriminate].
  apply scan_shorter in Es. pose proof (skip_ws_length s1) as Hw.
  destruct (skip_ws s1) as [|c r1]; [discriminate|].
  cbn [List.length] in Hw.
  destruct (c =? 93); [inversion H; subst; lia|].
  destruct (c =? 44); [|discriminate].
  apply IH in H. pose proof (skip_ws_length r1). lia.
Qed.

Lemma JSONArray_shorter (s : pystr) (v : pyval) (r : pystr) :
  JSONArray scan s = Ok (v, r) -> (List.length r < List.length s)%nat.
Proof.
  unfold JSONArray. intros H. pose proof (skip_ws_length s) as Hw.
  destruct (skip_ws s) as [|c r1]; [discriminate|].
  cbn [List.length] in Hw.
  destruct (c =? 93); [inversion H; subst; lia|].
  apply JSONArray_loop_shorter in H. cbn [List.length] in H. lia.
Qed.

Lemma JSONObject_loop_shorter (fuel : nat) :
  forall s pairs v r,
    JSONObject_loop scan fuel s pairs = Ok (v, r) ->
    (List.length r < List.length s)%nat.
Proof.
  induction fuel as [|fuel IH]; intros s pairs v r H; [discriminate|].
  cbn [JSONObject_loop] in H.
  destruct (scanstring s) as [[key s1]|] eqn:Ek; [|discriminate].
  apply scanstring_shorter in Ek. pose proof (skip_ws_length s1) as Hw1.
  destruct (skip_ws s1) as [|c r1]; [discriminate|].
  cbn [List.length] in Hw1.
  destruct (c =? 58); [|discriminate].
  destruct (scan (skip_ws r1)) as [[value s2]|] eqn:Es; [|discriminate].
  apply scan_shorter in Es. pose proof (skip_ws_length r1) as Hw2.
  pose proof (skip_ws_length s2) as Hw3.
  destruct (skip_ws s2) as [|c' r2]; [discriminate|].
  cbn [List.length] in Hw3.
  destruct (c' =? 125); [inversion H; subst; lia|].
  destruct (c' =? 44); [|discriminate].
  pose proof (skip_ws_length r2) as Hw4.
  destruct (skip_ws r2) as [|q r3]; [discriminate|].
  cbn [List.length] in Hw4.
  destruct (q =? 34); [|discriminate].
  apply IH in H. lia.
Qed.

Lemma JSONObject_shorter (s : pystr) (v : pyval) (r : pystr) :
  JSONObject scan s = Ok (v, r) -> (List.length r < List.length s)%nat.
Proof.
  unfold JSONObject. intros H. pose proof (skip_ws_length s) as Hw.
  destruct (skip_ws s) as [|c r1]; [discriminate|].
  cbn [List.length] in Hw.
  destruct (c =? 125); [inversion H; subst; lia|].
  destruct (c =? 34); [|discriminate].
  apply JSONObject_loop_shorter in H. lia.
Qed.

(** With a scanner that raises [JSONDecodeError] only on the texts up to
    a length [bound], so do the loops on such texts: their fuel is not
    used up. *)
Variable bound : nat.

Hypothesis scan_raises :
  forall s e,
    (List.length s <= bound)%nat -> scan s = Exc e -> e = JSONDecodeError.

Lemma JSONArray_loop_raises (fuel : nat) :
  forall s values e,
    (List.length s <= bound)%nat -> (List.length s <= fuel)%nat ->
    (0 < fuel)%nat ->
    JSONArray_loop scan fuel s values = Exc e -> e = JSONDecodeError.
Proof.
  induction fuel as [|fuel IH]; intros s values e Hb Hf Hpos H; [lia|].
  cbn [JSONArray_loop] in H.
  destruct (scan s) as [[value s1]|e1] eqn:Es;
    [|inversion H; subst; eapply scan_raises; eauto].
  apply scan_shorter in Es. pose proof (skip_ws_length s1) as Hw.
  destruct (skip_ws s1) as [|c r1]; [congruence|].
  cbn [List.length] in Hw.
  destruct (c =? 93); [discriminate|].
  destruct (c =? 44); [|congruence].
  pose proof (skip_ws_length r1).
  apply IH in H; [exact H | lia | lia | lia].
Qed.

Lemma JSONArray_raises (s : pystr) (e : exn) :
  (List.length s <= bound)%nat ->
  JSONArray scan s = Exc e -> e = JSONDecodeError.
Proof.
  unfold JSONArray. intros Hb H. pose proof (skip_ws_length s) as Hw.
  destruct (skip_ws s) as [|c r1]; [congruence|].
  cbn [List.length] in Hw.
  destruct (c =? 93); [discriminate|].
  apply JSONArray_loop_raises in H; [exact H | | |];
    cbn [List.length]; lia.
Qed.

Lemma JSONObject_loop_raises (fuel : nat) :
  forall s pairs e,
    (List.length s <= bound)%nat -> (List.length s < fuel)%nat ->
    JSONObject_loop scan fuel s pairs = Exc e -> e = JSONDecodeError.
Proof.
  induction fuel as [|fuel IH]; intros s pairs e Hb Hf H; [lia|].
  cbn [JSONObject_loop] in H.
  destruct (scanstring s) as [[key s1]|e1] eqn:Ek;
    [|inversion H; subst; eapply scanstring_raises; eauto].
  apply scanstring_shorter in Ek. pose proof (skip_ws_length s1) as Hw1.
  destruct (skip_ws s1) as [|c r1]; [congruence|].
  cbn [List.length] in Hw1.
  destruct (c =? 58); [|congruence].
  pose proof (skip_ws_length r1) as Hw2.
  destruct (scan (skip_ws r1)) as [[value s2]|e1] eqn:Es;
    [|inversion H; subst; eapply scan_raises; [|exact Es]; lia].
  apply scan_shorter in Es.
  pose proof (skip_ws_length s2) as Hw3.
  destruct (skip_ws s2) as [|c' r2]; [congruence|].
  cbn [List.length] in Hw3.
  destruct (c' =? 125); [discriminate|].
  destruct (c' =? 44); [|congruence].
  pose proof (skip_ws_length r2) as Hw4.
  destruct (skip_ws r2) as [|q r3]; [congruence|].
  cbn [List.length] in Hw4.
  destruct (q =? 34); [|congruence].
  apply IH in H; [exact H | lia | lia].
Qed.

Lemma JSONObject_raises (s : pystr) (e : exn) :
  (List.length s <= bound)%nat ->
  JSONObject scan s = Exc e -> e = JSONDecodeError.
Proof.
  unfold JSONObject. intros Hb H. pose proof (skip_ws_length s) as Hw.
  destruct (skip_ws s) as [|c r1]; [congruence|].
  cbn [List.length] in Hw.
  destruct (c =? 125); [discriminate|].
  destruct (c =? 34); [|congruence].
  apply JSONObject_loop_raises in H; [exact H | lia | lia].
Qed.

End Loops.

Lemma scan_once_shorter (depth : nat) :
  forall s v r,
    scan_once depth s = Ok (v, r) -> (List.length r < List.length s)%nat.
Proof.
  induction depth as [|depth IH]; intros s v r H;
    (destruct s as [|c s]; [discriminate|]);
    cbn [scan_once] in H;
    (destruct (c =? 34);
     [destruct (scanstring s) as [[t r']|] eqn:E; [|discriminate];
      inversion H; subst; apply scanstring_shorter in E;
      cbn [List.length]; lia|]);
    (destruct (c =? 123);
     [first [discriminate
            | apply JSONObject_shorter in H; [cbn [List.length]; lia | exact IH]]|]);
    (destruct (c =? 91);
     [first [discriminate
            | apply JSONArray_shorter in H; [cbn [List.length]; lia | exact IH]]|]);
    repeat match type of H with
           | context [if startswith ?a ?b then _ else _] =>
               destruct (startswith a b);
               [apply skipn_shorter in H; [exact H | lia | discriminate]|]
           | context [match match_number ?a with _ => _ end] =>
               destruct (match_number a) as [[v' r']|] eqn:En;
               [inversion H; subst; apply match_number_shorter in En;
                exact En|]
           end;
    discriminate.
Qed.

Lemma scan_once_raises (depth : nat) :
  forall s e,
    (List.length s <= depth)%nat ->
    scan_once depth s = Exc e -> e = JSONDecodeError.
Proof.
  induction depth as [|depth IH]; intros s e Hd H;
    (destruct s as [|c s]; [cbn in H; congruence|]);
    [cbn [List.length] in Hd; lia|].
  cbn [scan_once] in H. cbn [List.length] in Hd.
  destruct (c =? 34).
  { destruct (scanstring s) as [[t r']|e1] eqn:E; [discriminate|].
    inversion H; subst. eapply scanstring_raises; eauto. }
  destruct (c =? 123).
  { eapply (JSONObject_raises (scan_once depth) (scan_once_shorter depth)
              depth IH); [|exact H]. lia. }
  destruct (c =? 91).
  { eapply (JSONArray_raises (scan_once depth) (scan_once_shorter depth)
              depth IH); [|exact H]. lia. }
  repeat match type of H with
         | context [if startswith ?a ?b then _ else _] =>
             destruct (startswith a b); [discriminate|]
         | context [match match_number ?a with _ => _ end] =>
             destruct (match_number a) as [[v' r']|]; [discriminate|]
         end.
  congruence.
Qed.

(** [json.loads] raises [JSONDecodeError] and nothing else: the depth and
    the fuel of the model never run out. *)
Lemma json_loads_raises (s : pystr) (e : exn) :
  json_loads s = Exc e -> e = JSONDecodeError.
Proof.
  unfold json_loads. intros H.
  destruct (startswith s [65279]); [congruence|].
  destruct (scan_once (List.length s) (skip_ws s)) as [[obj r]|e1] eqn:E.
  - destruct (skip_ws r); [discriminate | congruence].
  - inversion H; subst. eapply scan_once_raises; [|exact E].
    apply skip_ws_length.
Qed.

(** The errors of [json.load]: text that is not JSON, bytes that are not
    UTF-8. *)
Lemma json_load_raises (content : bytes) (e : exn) :
  json_load content = Exc e ->
  e = JSONDecodeError \/ e = UnicodeDecodeError.
Proof.
  unfold json_load, read_text. intros H.
  destruct (utf8_decode content) as [s|e1] eqn:E.
  - left. eapply json_loads_raises; eauto.
  - right. inversion H; subst. eapply utf8_decode_raises; eauto.
Qed.

(** ** The reader on what the writer wrote *)

Lemma escape_control (c : Z) :
  0 <= c < 32 ->
  decode_uXXXX 48 48 (hexdigit (c / 16)) (hexdigit (c mod 16)) = Some c.
Proof.
  intros H.
  assert (Hc : c = 0 \/ c = 1 \/ c = 2 \/ c = 3 \/ c = 4 \/ c = 5 \/ c = 6
               \/ c = 7 \/ c = 8 \/ c = 9 \/ c = 10 \/ c = 11 \/ c = 12
               \/ c = 13 \/ c = 14 \/ c = 15 \/ c = 16 \/ c = 17 \/ c = 18
               \/ c = 19 \/ c = 20 \/ c = 21 \/ c = 22 \/ c = 23 \/ c = 24
               \/ c = 25 \/ c = 26 \/ c = 27 \/ c = 28 \/ c = 29 \/ c = 30
               \/ c = 31) by lia.
  repeat (destruct Hc as [-> | Hc]; [reflexivity|]). subst. reflexivity.
Qed.

Lemma scanstring_escape_char (c : Z) (s : pystr) :
  0 <= c ->
  scanstring (escape_char c ++ s)
  = match scanstring s with
    | Ok (t, r) => Ok (c :: t, r)
    | Exc e => Exc e
    end.
Proof.
  intros Hc. unfold escape_char.
  destruct (c =? 34) eqn:E34; [apply Z.eqb_eq in E34; subst; reflexivity|].
  destruct (c =? 92) eqn:E92; [apply Z.eqb_eq in E92; subst; reflexivity|].
  destruct (c =? 10) eqn:E10; [apply Z.eqb_eq in E10; subst; reflexivity|].
  destruct (c =? 13) eqn:E13; [apply Z.eqb_eq in E13; subst; reflexivity|].
  destruct (c =? 9) eqn:E9; [apply Z.eqb_eq in E9; subst; reflexivity|].
  destruct (c =? 12) eqn:E12; [apply Z.eqb_eq in E12; subst; reflexivity|].
  destruct (c =? 8) eqn:E8; [apply Z.eqb_eq in E8; subst; reflexivity|].
  destruct ((0 <=? c) && (c <? 32)) eqn:Ectl.
  - apply andb_true_iff in Ectl. destruct Ectl as [H0 H32].
    apply Z.leb_le in H0. apply Z.ltb_lt in H32.
    cbn [app scanstring]. cbn [Z.eqb Pos.eqb].
    rewrite (escape_control c) by lia.
    replace (55296 <=? c) with false by (symmetry; apply Z.leb_gt; lia).
    destruct s as [|b [|u s]]; reflexivity.
  - cbn [app scanstring]. rewrite E34, E92.
    replace (c <? 32) with false; [reflexivity|].
    symmetry. apply Z.ltb_ge.
    apply andb_false_iff in Ectl. destruct Ectl as [H|H].
    + apply Z.leb_gt in H. lia.
    + apply Z.ltb_ge in H. exact H.
Qed.

Lemma scanstring_escape (s rest : pystr) :
  Forall (fun c => 0 <= c) s ->
  scanstring (flat_map escape_char s ++ 34 :: rest) = Ok (s, rest).
Proof.
  induction 1 as [|c s Hc _ IH]; [reflexivity|].
  cbn [flat_map]. rewrite <- app_assoc.
  rewrite scanstring_escape_char by assumption. rewrite IH. reflexivity.
Qed.


Lemma is_scalar_nonneg (s : pystr) :
  Forall is_scalar s -> Forall (fun c => 0 <= c) s.
Proof. apply Forall_impl. intros c [H _]. lia. Qed.

Lemma skip_ws_newline_indent (n : nat) (c : Z) (r : pystr) :
  is_ws c = false -> skip_ws (newline_indent n ++ c :: r) = c :: r.
Proof.
  intros Hc. unfold newline_indent. cbn [app skip_ws is_ws Z.eqb Pos.eqb orb].
  induction (4 * n)%nat as [|m IH]; cbn [repeat app skip_ws].
  - rewrite Hc. reflexivity.
  - cbn. exact IH.
Qed.

(** ** [dict(pairs)] on distinct keys *)

Lemma dict_set_fresh (k : pystr) (v : pyval) (d : list (pystr * pyval)) :
  ~ In k (map fst d) -> dict_set k v d = d ++ [(k, v)].
Proof.
  induction d as [|[k' v'] d IH]; intros Hk; [reflexivity|].
  cbn [dict_set app]. cbn [map fst In] in Hk.
  replace (str_eqb k' k) with false
    by (symmetry; apply str_eqb_neq; tauto).
  rewrite IH by tauto. reflexivity.
Qed.

Lemma dict_of_pairs_from (acc l : list (pystr * pyval)) :
  NoDup (map fst (acc ++ l)) ->
  fold_left (fun d kv => dict_set (fst kv) (snd kv) d) l acc = acc ++ l.
Proof.
  revert acc; induction l as [|[k v] l IH]; intros acc Hnd.
  - symmetry; apply app_nil_r.
  - cbn [fold_left fst snd].
    assert (Hfresh : ~ In k (map fst acc)).
    { rewrite map_app in Hnd. cbn [map fst] in Hnd.
      apply NoDup_remove_2 in Hnd. intros Hin. apply Hnd.
      apply in_or_app. left. exact Hin. }
    rewrite dict_set_fresh by exact Hfresh.
    rewrite IH; rewrite <- app_assoc; [reflexivity | exact Hnd].
Qed.

Lemma dict_of_pairs_distinct (l : list (pystr * pyval)) :
  NoDup (map fst l) -> dict_of_pairs l = l.
Proof. intros H. apply (dict_of_pairs_from [] l H). Qed.

(** ** Reading back what the writer wrote *)

Section ReadDict.

Variable float_repr : pystr -> pystr.



Lemma more_items_cons level k v r :
  more_items float_repr level ((k, v) :: r)
  = 44 :: newline_indent level ++ 34 :: flat_map escape_char k
    ++ 34 :: 58 :: 32 :: 34 :: flat_map escape_char v
    ++ 34 :: more_items float_repr level r.
Proof.
  unfold more_items. cbn [map flat_map conv fst snd iterencode].
  unfold encode_basestring. cbn [app].
  repeat (rewrite <- ?app_assoc; cbn [app]). reflexivity.
Qed.

Lemma object_loop_reads (level depth : nat) (r : record) :
  forall (k v : pystr) (pairs : list (pystr * pyval)) (fuel : nat)
         (rest : pystr),
    Forall (fun c => 0 <= c) k -> Forall (fun c => 0 <= c) v ->
    Forall (fun kv => Forall (fun c => 0 <= c) (fst kv)
                      /\ Forall (fun c => 0 <= c) (snd kv)) r ->
    (List.length r < fuel)%nat ->
    JSONObject_loop (scan_once depth) fuel
      (flat_map escape_char k ++ 34 :: 58 :: 32 :: 34
       :: flat_map escape_char v ++ 34 :: more_items float_repr (S level) r
       ++ newline_indent level ++ 125 :: rest) pairs
    = Ok (PDict (dict_of_pairs (pairs ++ (k, PStr v) :: map conv r)), rest).
Proof.
  induction r as [|[k2 v2] r IH]; intros k v pairs fuel rest Hk Hv Hr Hfuel.
  - destruct fuel as [|fuel]; [cbn in Hfuel; lia|].
    cbn [JSONObject_loop]. rewrite scanstring_escape by assumption.
    cbn [skip_ws is_ws Z.eqb Pos.eqb orb].
    destruct depth; cbn [scan_once Z.eqb Pos.eqb];
      rewrite scanstring_escape by assumption;
      unfold more_items; cbn [map flat_map app];
      rewrite skip_ws_newline_indent by reflexivity;
      cbn [Z.eqb Pos.eqb]; reflexivity.
  - destruct fuel as [|fuel]; [cbn in Hfuel; lia|].
    inversion Hr as [|? ? [Hk2 Hv2] Hr']; subst. cbn [fst snd] in *.
    cbn [JSONObject_loop]. rewrite scanstring_escape by assumption.
    cbn [skip_ws is_ws Z.eqb Pos.eqb orb].
    assert (Hscan : forall tail,
               scan_once depth (34 :: flat_map escape_char v ++ 34 :: tail)
               = Ok (PStr v, tail)).
    { intros tail. destruct depth; cbn [scan_once Z.eqb Pos.eqb];
        rewrite scanstring_escape by assumption; reflexivity. }
    rewrite Hscan. rewrite more_items_cons.
    cbn [app skip_ws is_ws Z.eqb Pos.eqb orb].
    repeat (rewrite <- ?app_assoc; cbn [app]).
    rewrite skip_ws_newline_indent by reflexivity.
    cbn [Z.eqb Pos.eqb].
    rewrite IH; try assumption; [|cbn in Hfuel; lia].
    rewrite <- app_assoc. reflexivity.
Qed.

End ReadDict.


Ltac list_len := repeat (progress (rewrite ?length_app; cbn [List.length])).

Lemma scan_once_object (depth : nat) (r : pystr) :
  scan_once (S depth) (123 :: r) = JSONObject (scan_once depth) r.
Proof. reflexivity. Qed.

Lemma scan_once_array (depth : nat) (r : pystr) :
  scan_once (S depth) (91 :: r) = JSONArray (scan_once depth) r.
Proof. reflexivity. Qed.

Section ReadList.

Variable float_repr : pystr -> pystr.

Lemma more_items_length (level : nat) (r : record) :
  (List.length r <= List.length (more_items float_repr level r))%nat.
Proof.
  induction r as [|[k v] r IH]; [cbn; lia|].
  rewrite more_items_cons. list_len. lia.
Qed.

Lemma dict_text_cons (level : nat) (k v : pystr) (r : record) :
  iterencode float_repr level (dict_of_record ((k, v) :: r))
  = 123 :: newline_indent (S level) ++ 34 :: flat_map escape_char k
    ++ 34 :: 58 :: 32 :: 34 :: flat_map escape_char v
    ++ 34 :: more_items float_repr (S level) r
    ++ newline_indent level ++ [125].
Proof.
  unfold dict_of_record, more_items.
  cbn [map fst snd iterencode]. unfold encode_basestring.
  repeat (rewrite <- ?app_assoc; cbn [app]). reflexivity.
Qed.

Lemma dict_text_head (level : nat) (r : record) :
  exists tl, iterencode float_repr level (dict_of_record r) = 123 :: tl.
Proof.
  destruct r as [|[k v] r]; [exists [125]; reflexivity|].
  rewrite dict_text_cons. eexists; reflexivity.
Qed.

(** A dict of strings is read back from its text. *)
Lemma scan_once_reads_dict (level depth : nat) (r : record) (rest : pystr) :
  nonneg_record r -> distinct_keys r ->
  scan_once (S depth)
    (iterencode float_repr level (dict_of_record r) ++ rest)
  = Ok (dict_of_record r, rest).
Proof.
  intros Hr Hd. destruct r as [|[k v] r]; [reflexivity|].
  rewrite dict_text_cons. inversion Hr as [|? ? [Hk Hv] Hr']; subst.
  cbn [fst snd] in *.
  cbn [app]. rewrite scan_once_object. unfold JSONObject.
  repeat (rewrite <- ?app_assoc; cbn [app]).
  rewrite skip_ws_newline_indent by reflexivity.
  cbn [Z.eqb Pos.eqb].
  rewrite (object_loop_reads float_repr level depth r k v [])
    by (try assumption;
        pose proof (more_items_length (S level) r);
        list_len; lia).
  cbn [app]. rewrite dict_of_pairs_distinct; [reflexivity|].
  unfold distinct_keys in Hd. cbn [map fst] in *.
  rewrite map_map. cbn [conv fst]. exact Hd.
Qed.


Lemma more_records_cons (r : record) (rs : list record) :
  more_records float_repr (r :: rs)
  = 44 :: newline_indent 1 ++ iterencode float_repr 1 (dict_of_record r)
    ++ more_records float_repr rs.
Proof.
  unfold more_records. cbn [map flat_map].
  repeat (rewrite <- ?app_assoc; cbn [app]). reflexivity.
Qed.

Lemma more_records_length (rs : list record) :
  (List.length rs <= List.length (more_records float_repr rs))%nat.
Proof.
  induction rs as [|r rs IH]; [cbn; lia|].
  rewrite more_records_cons. list_len. lia.
Qed.

Lemma array_loop_reads (depth : nat) (rs : list record) :
  forall (r : record) (values : list pyval) (fuel : nat) (rest : pystr),
    Forall nonneg_record (r :: rs) -> Forall distinct_keys (r :: rs) ->
    (List.length rs < fuel)%nat ->
    JSONArray_loop (scan_once (S depth)) fuel
      (iterencode float_repr 1 (dict_of_record r) ++ more_records float_repr rs
       ++ newline_indent 0 ++ 93 :: rest) values
    = Ok (PList (values ++ map dict_of_record (r :: rs)), rest).
Proof.
  induction rs as [|r2 rs IH]; intros r values fuel rest Hn Hd Hfuel;
    (destruct fuel as [|fuel]; [cbn in Hfuel; lia|]);
    inversion Hn as [|? ? Hn1 Hn']; inversion Hd as [|? ? Hd1 Hd']; subst;
    cbn [JSONArray_loop]; rewrite scan_once_reads_dict by assumption.
  - reflexivity.
  - rewrite more_records_cons.
    cbn [app skip_ws is_ws Z.eqb Pos.eqb orb].
    repeat (rewrite <- ?app_assoc; cbn [app]).
    destruct (dict_text_head 1 r2) as [tl Htl].
    rewrite Htl. cbn [app].
    rewrite skip_ws_newline_indent by reflexivity.
    change (123 :: tl ++ ?x) with ((123 :: tl) ++ x). rewrite <- Htl.
    rewrite IH; try assumption; [|cbn in Hfuel; lia].
    cbn [map]. rewrite <- app_assoc. reflexivity.
Qed.

Lemma list_text_cons (r : record) (rs : list record) :
  json_dumps float_repr (list_of_records (r :: rs))
  = 91 :: newline_indent 1 ++ iterencode float_repr 1 (dict_of_record r)
    ++ more_records float_repr rs ++ newline_indent 0 ++ [93].
Proof.
  unfold json_dumps, list_of_records, more_records.
  cbn [map iterencode].
  repeat (rewrite <- ?app_assoc; cbn [app]). reflexivity.
Qed.

(** [json.loads] gives back the list of dicts of strings that
    [json.dump] wrote. *)
Lemma json_loads_dumps (rs : list record) :
  Forall nonneg_record rs -> Forall distinct_keys rs ->
  json_loads (json_dumps float_repr (list_of_records rs))
  = Ok (list_of_records rs).
Proof.
  intros Hn Hd. destruct rs as [|r rs]; [reflexivity|].
  rewrite list_text_cons. unfold json_loads.
  cbn [startswith Z.eqb Pos.eqb andb skip_ws is_ws orb].
  destruct (dict_text_head 1 r) as [tl Htl].
  remember (List.length _) as n eqn:Hlen.
  destruct n as [|[|depth]];
    [cbn in Hlen; discriminate
    | cbn [List.length] in Hlen; rewrite length_app, Htl in Hlen;
      cbn in Hlen; lia |].
  rewrite scan_once_array. unfold JSONArray.
  rewrite Htl.
  repeat (rewrite <- ?app_assoc; cbn [app]).
  rewrite skip_ws_newline_indent by reflexivity.
  cbn [Z.eqb Pos.eqb].
  change (123 :: tl ++ ?x) with ((123 :: tl) ++ x). rewrite <- Htl.
  replace (newline_indent 0 ++ [93]) with (newline_indent 0 ++ 93 :: [])
    by reflexivity.
  rewrite array_loop_reads; try assumption; [reflexivity|].
  pose proof (more_records_length rs).
  list_len. lia.
Qed.

End ReadList.


Lemma utf8_Z_round_trip (s : pystr) :
  Forall is_scalar s ->
  exists zs,
    utf8_encode_Z s = Ok zs
    /\ Forall (fun b => 0 <= b < 256) zs
    /\ utf8_decode_Z zs = Ok s.
Proof.
  induction 1 as [|c s Hc _ (zs & He & Hb & Hd)].
  - exists []. repeat split. constructor.
  - destruct (utf8_char_round_trip c Hc) as (bs & Hec & Hbc & Hdc).
    exists (bs ++ zs). cbn [utf8_encode_Z]. rewrite Hec, He.
    split; [reflexivity|]. split; [apply Forall_app; auto|].
    rewrite Hdc, Hd. reflexivity.
Qed.

Lemma Z_of_byte_of_Z (z : Z) : 0 <= z < 256 -> Z_of_byte (byte_of_Z z) = z.
Proof.
  intros Hz. unfold Z_of_byte, byte_of_Z.
  destruct (Byte.of_N (Z.to_N z)) as [b|] eqn:Hb.
  - apply Byte.to_of_N in Hb. rewrite Hb. lia.
  - apply Byte.of_N_None_iff in Hb. lia.
Qed.

(** Text without surrogates goes through the codec and comes back. *)
Lemma utf8_round_trip (s : pystr) :
  Forall is_scalar s ->
  exists b, utf8_encode s = Ok b /\ utf8_decode b = Ok s.
Proof.
  intros Hs. destruct (utf8_Z_round_trip s Hs) as (zs & He & Hb & Hd).
  exists (map byte_of_Z zs). unfold utf8_encode, utf8_decode. rewrite He.
  split; [reflexivity|].
  rewrite map_map.
  replace (map (fun x => Z_of_byte (byte_of_Z x)) zs) with zs; [exact Hd|].
  clear - Hb. induction Hb as [|z zs Hz _ IH]; [reflexivity|].
  cbn [map]. rewrite Z_of_byte_of_Z by exact Hz. congruence.
Qed.

Lemma universal_newlines_id (s : pystr) :
  Forall (fun c => c <> 13) s -> universal_newlines s = s.
Proof.
  induction 1 as [|c s Hc _ IH]; [reflexivity|].
  cbn [universal_newlines].
  replace (c =? 13) with false by (symmetry; apply Z.eqb_neq; exact Hc).
  rewrite IH. reflexivity.
Qed.

(** ** The characters of the text written *)

Lemma plain_below_surrogates (c : Z) :
  0 <= c < 55296 -> c <> 13 -> plain_char c.
Proof.
  intros Hc Hn. split; [split; [lia|] | exact Hn].
  unfold is_surrogate. apply andb_false_iff. left. apply Z.leb_gt. lia.
Qed.

Lemma hexdigit_plain (d : Z) : 0 <= d < 16 -> plain_char (hexdigit d).
Proof.
  intros Hd. unfold hexdigit.
  destruct (Z.ltb_spec d 10); apply plain_below_surrogates; lia.
Qed.

Lemma escape_char_plain (c : Z) :
  is_scalar c -> Forall plain_char (escape_char c).
Proof.
  intros Hc. unfold escape_char.
  repeat match goal with
         | |- context [?a =? ?b] =>
             destruct (Z.eqb_spec a b);
             [repeat constructor; apply plain_below_surrogates; lia|]
         end.
  destruct ((0 <=? c) && (c <? 32)) eqn:Ectl.
  - apply andb_true_iff in Ectl. destruct Ectl as [H0 H32].
    apply Z.leb_le in H0. apply Z.ltb_lt in H32.
    repeat constructor; try (apply plain_below_surrogates; lia);
      apply hexdigit_plain;
      first [ apply Z.mod_pos_bound; lia
            | split; [apply Z.div_pos; lia
                     | apply Z.div_lt_upper_bound; lia] ].
  - constructor; [split; assumption | constructor].
Qed.

Lemma escaped_plain (s : pystr) :
  Forall is_scalar s -> Forall plain_char (flat_map escape_char s).
Proof.
  induction 1 as [|c s Hc _ IH]; [constructor|].
  cbn [flat_map]. apply Forall_app. split; [apply escape_char_plain|]; auto.
Qed.

Lemma newline_indent_plain (n : nat) : Forall plain_char (newline_indent n).
Proof.
  unfold newline_indent.
  constructor; [apply plain_below_surrogates; lia|].
  induction (4 * n)%nat; cbn [repeat]; constructor;
    [apply plain_below_surrogates; lia | assumption].
Qed.

Ltac plain_text :=
  repeat first
    [ assumption
    | apply newline_indent_plain
    | apply escaped_plain; assumption
    | apply Forall_app; split
    | apply Forall_cons; [apply plain_below_surrogates; lia|]
    | apply Forall_nil ].

Section Text.

Variable float_repr : pystr -> pystr.

Lemma more_items_plain (level : nat) (r : record) :
  encodable r -> Forall plain_char (more_items float_repr level r).
Proof.
  induction 1 as [|[k v] r [Hk Hv] _ IH]; [constructor|].
  cbn [fst snd] in *. rewrite more_items_cons. plain_text.
Qed.

Lemma dict_text_plain (level : nat) (r : record) :
  encodable r ->
  Forall plain_char (iterencode float_repr level (dict_of_record r)).
Proof.
  intros Hr. destruct r as [|[k v] r]; [cbn; plain_text|].
  inversion Hr as [|? ? [Hk Hv] Hr']; subst. cbn [fst snd] in *.
  rewrite dict_text_cons.
  pose proof (more_items_plain (S level) r Hr'). plain_text.
Qed.

Lemma more_records_plain (rs : list record) :
  Forall encodable rs -> Forall plain_char (more_records float_repr rs).
Proof.
  induction 1 as [|r rs Hr _ IH]; [constructor|].
  rewrite more_records_cons.
  pose proof (dict_text_plain 1 r Hr). plain_text.
Qed.

Lemma list_text_plain (rs : list record) :
  Forall encodable rs ->
  Forall plain_char (json_dumps float_repr (list_of_records rs)).
Proof.
  intros Hrs. destruct rs as [|r rs]; [cbn; plain_text|].
  inversion Hrs as [|? ? Hr Hrs']; subst. rewrite list_text_cons.
  pose proof (dict_text_plain 1 r Hr).
  pose proof (more_records_plain rs Hrs'). plain_text.
Qed.

Lemma encodable_nonneg (r : record) : encodable r -> nonneg_record r.
Proof.
  apply Forall_impl. intros [k v] [Hk Hv].
  split; apply is_scalar_nonneg; assumption.
Qed.

(** What [json.dump] writes for a list of dicts of strings, and what
    [json.load] makes of it. *)
Lemma json_dump_then_load (rs : list record) :
  Forall encodable rs -> Forall distinct_keys rs ->
  exists content,
    utf8_encode (json_dumps float_repr (list_of_records rs)) = Ok content
    /\ json_load content = Ok (list_of_records rs).
Proof.
  intros He Hd.
  pose proof (list_text_plain rs He) as Hp.
  destruct (utf8_round_trip (json_dumps float_repr (list_of_records rs)))
    as (content & Henc & Hdec).
  { eapply Forall_impl; [|exact Hp]. intros c [H _]. exact H. }
  exists content. split; [exact Henc|].
  unfold json_load, read_text. rewrite Hdec.
  rewrite universal_newlines_id
    by (eapply Forall_impl; [|exact Hp]; intros c [_ H]; exact H).
  apply json_loads_dumps; [|exact Hd].
  eapply Forall_impl; [|exact He]. apply encodable_nonneg.
Qed.

End Text.

(** ** [load_from_json] *)

(** C6 (a missing file is not an error).  When no file has the given
    name, [load_from_json] returns, the store is the one before the call,
    the files are untouched, and the log has one more record: a warning
    whose message contains the name. *)
Theorem load_missing_file :
  forall (self : TrainManager) (filename : pystr) (w : World),
    files w filename = None ->
    load_from_json self filename w
    = Returns tt self
        {| files := files w;
           log := log w
                  ++ [(WARNING, msg_missing_1 ++ filename ++ msg_missing_2)] |}.
Proof.
  intros self filename w H. unfold load_from_json. rewrite H. reflexivity.
Qed.

Lemma load_missing_file_witness :
  files empty_world (lit "nonexistent.json") = None
  /\ load_from_json two_trains (lit "nonexistent.json") empty_world
     = Returns tt two_trains
         {| files := files empty_world;
            log := log empty_world
                   ++ [(WARNING,
                        msg_missing_1 ++ lit "nonexistent.json"
                        ++ msg_missing_2)] |}.
Proof.
  split; [reflexivity|].
  apply (load_missing_file two_trains (lit "nonexistent.json") empty_world).
  reflexivity.
Defined.

(** C8 (a failed load changes nothing).  Whenever [load_from_json] raises,
    the store and the world are those before the call; and it never stops
    in the middle of a change. *)
Theorem load_failure_keeps_state :
  forall (self : TrainManager) (filename : pystr) (w : World),
    (forall e self' w',
        load_from_json self filename w = Raises e self' w' ->
        self' = self /\ w' = w)
    /\ (forall e, load_from_json self filename w <> Interrupted e).
Proof.
  intros self filename w. unfold load_from_json.
  destruct (files w filename) as [content|];
    [destruct (json_load content) as [v|e0]|];
    split; intros; try discriminate.
  inversion H; auto.
Qed.

(** The run behind C8: a file cut short makes [load_from_json] raise, and
    the two trains are still there. *)
Lemma load_failure_keeps_state_witness :
  load_from_json two_trains (lit "t.json")
    (one_file (lit "t.json") truncated_json)
  = Raises JSONDecodeError two_trains (one_file (lit "t.json") truncated_json)
  /\ two_trains = two_trains
  /\ one_file (lit "t.json") truncated_json
     = one_file (lit "t.json") truncated_json.
Proof.
  assert (H : load_from_json two_trains (lit "t.json")
                (one_file (lit "t.json") truncated_json)
              = Raises JSONDecodeError two_trains
                  (one_file (lit "t.json") truncated_json))
    by reflexivity.
  split; [exact H|].
  exact (proj1 (load_failure_keeps_state two_trains (lit "t.json")
                  (one_file (lit "t.json") truncated_json))
           _ _ _ H).
Defined.

(** Against C4 as it is written: a file that is JSON, with a record that
    has no ["destination"], is loaded without any error. *)
Lemma load_accepts_missing_field :
  load_from_json two_trains (lit "t.json")
    (one_file (lit "t.json") three_field_json)
  = Returns tt {| trains := PList [three_field_record] |}
      (logging INFO (msg_loaded_1 ++ lit "t.json" ++ msg_loaded_2)
         (one_file (lit "t.json") three_field_json))
  /\ destination_of three_field_record = None.
Proof. split; reflexivity. Qed.

(** ** What the reader accepts is JSON *)

Lemma is_ws_ws_char (c : Z) : is_ws c = true <-> ws_char c.
Proof.
  unfold is_ws, ws_char. rewrite !orb_true_iff, !Z.eqb_eq. tauto.
Qed.

Lemma skip_ws_split (s : pystr) :
  exists w, s = w ++ skip_ws s /\ ws w.
Proof.
  induction s as [|c s (w & Hs & Hw)]; [exists []; split; constructor|].
  cbn [skip_ws]. destruct (is_ws c) eqn:E.
  - exists (c :: w). cbn [app]. rewrite <- Hs.
    split; [reflexivity | constructor; [apply is_ws_ws_char, E | exact Hw]].
  - exists []. split; [reflexivity | constructor].
Qed.

Lemma is_digit_digit (c : Z) : is_digit c = true <-> digit c.
Proof. unfold is_digit, digit. lia. Qed.

Lemma span_digits_spec (s : pystr) :
  forall ds r, span_digits s = (ds, r) -> s = ds ++ r /\ Forall digit ds.
Proof.
  induction s as [|c s IH]; intros ds r H; cbn [span_digits] in H.
  - inversion H; subst. split; [reflexivity | constructor].
  - destruct (is_digit c) eqn:E.
    + destruct (span_digits s) as [ds' r'] eqn:Es. inversion H; subst.
      destruct (IH _ _ eq_refl) as (-> & Hd).
      split; [reflexivity | constructor; [apply is_digit_digit, E | exact Hd]].
    + inversion H; subst. split; [reflexivity | constructor].
Qed.

Lemma match_integer_spec (s : pystr) (neg : bool) (ds r : pystr) :
  match_integer s = Some (neg, ds, r) ->
  s = (if neg then [45] else []) ++ ds ++ r /\ json_int ds.
Proof.
  unfold match_integer.
  assert (K : forall (neg0 : bool) (s1 : pystr),
             match s1 with
             | d :: r0 =>
                 if d =? 48 then Some (neg0, [48], r0)
                 else if is_digit d then
                   let (ds0, r') := span_digits r0 in
                   Some (neg0, d :: ds0, r')
                 else None
             | [] => None
             end = Some (neg, ds, r) ->
             neg0 = neg /\ s1 = ds ++ r /\ json_int ds).
  { intros neg0 s1 H. destruct s1 as [|d r0]; [discriminate|].
    destruct (Z.eqb_spec d 48) as [->|Hd].
    - inversion H; subst. repeat split. constructor.
    - destruct (is_digit d) eqn:E; [|discriminate].
      destruct (span_digits r0) as [ds0 r'] eqn:Es. inversion H; subst.
      destruct (span_digits_spec _ _ _ Es) as (-> & Hds).
      repeat split. constructor; [|exact Hds].
      apply is_digit_digit in E. unfold digit in E. unfold digit1_9. lia. }
  destruct s as [|c s0]; [discriminate|].
  destruct (Z.eqb_spec c 45) as [->|Hc]; intros H.
  - apply (K true s0) in H. destruct H as (<- & H & Hi).
    split; [cbn [app]; rewrite H; reflexivity | exact Hi].
  - apply (K false (c :: s0)) in H. destruct H as (<- & H & Hi).
    split; assumption.
Qed.

Lemma match_frac_spec (s frac r : pystr) :
  match_frac s = (frac, r) ->
  s = frac ++ r /\ (frac = [] \/ json_frac frac).
Proof.
  unfold match_frac. destruct s as [|c s0].
  - intros H. inversion H; subst. split; [reflexivity | left; reflexivity].
  - destruct (Z.eqb_spec c 46) as [->|Hc].
    + destruct (span_digits s0) as [ds r'] eqn:Es.
      destruct (span_digits_spec _ _ _ Es) as (-> & Hds).
      destruct ds as [|d ds]; intros H; inversion H; subst.
      * split; [reflexivity | left; reflexivity].
      * split; [reflexivity | right; constructor; exact Hds].
    + intros H. inversion H; subst.
      split; [reflexivity | left; reflexivity].
Qed.

Lemma match_exp_spec (s exp r : pystr) :
  match_exp s = (exp, r) ->
  s = exp ++ r /\ (exp = [] \/ json_exp exp).
Proof.
  unfold match_exp. destruct s as [|e s0].
  - intros H. inversion H; subst. split; [reflexivity | left; reflexivity].
  - destruct ((e =? 101) || (e =? 69)) eqn:Ee.
    + assert (He : e = 101 \/ e = 69)
        by (apply orb_true_iff in Ee; rewrite !Z.eqb_eq in Ee; exact Ee).
      assert (K : forall sign r1,
                 (sign = [] \/ sign = [45] \/ sign = [43]) ->
                 s0 = sign ++ r1 ->
                 match span_digits r1 with
                 | ([], _) => ([], e :: s0)
                 | (ds, r') => (e :: sign ++ ds, r')
                 end = (exp, r) ->
                 e :: s0 = exp ++ r /\ (exp = [] \/ json_exp exp)).
      { intros sign r1 Hsign Hs0 H.
        destruct (span_digits r1) as [ds r'] eqn:Es.
        destruct (span_digits_spec _ _ _ Es) as (-> & Hds).
        destruct ds as [|d ds]; inversion H; subst.
        - split; [reflexivity | left; reflexivity].
        - split; [cbn [app]; rewrite <- app_assoc; reflexivity|].
          right. constructor; assumption. }
      destruct s0 as [|c r2].
      * apply (K [] []); [left; reflexivity | reflexivity].
      * destruct ((c =? 45) || (c =? 43)) eqn:Ec.
        -- apply (K [c] r2); [|reflexivity].
           apply orb_true_iff in Ec. rewrite !Z.eqb_eq in Ec.
           destruct Ec as [->| ->]; auto.
        -- apply (K [] (c :: r2)); [left; reflexivity | reflexivity].
    + intros H. inversion H; subst.
      split; [reflexivity | left; reflexivity].
Qed.

Lemma match_number_sound (s : pystr) (v : pyval) (r : pystr) :
  match_number s = Some (v, r) ->
  exists p, s = p ++ r /\ json_number p.
Proof.
  unfold match_number. intros H.
  destruct (match_integer s) as [[[neg ds] r0]|] eqn:Ei; [|discriminate].
  destruct (match_frac r0) as [frac r1] eqn:Ef.
  destruct (match_exp r1) as [exp r2] eqn:Ee.
  destruct (match_integer_spec _ _ _ _ Ei) as (-> & Hi).
  destruct (match_frac_spec _ _ _ Ef) as (-> & Hf).
  destruct (match_exp_spec _ _ _ Ee) as (-> & He).
  assert (Hr : r = r2) by (destruct frac, exp; inversion H; reflexivity).
  subst r.
  exists ((if neg then [45] else []) ++ ds ++ frac ++ exp).
  split; [rewrite <- !app_assoc; reflexivity|].
  constructor; try assumption. destruct neg; auto.
Qed.

Lemma hexval_hexdig (c v : Z) : hexval c = Some v -> hexdig c.
Proof.
  unfold hexval, hexdig.
  destruct ((48 <=? c) && (c <=? 57)) eqn:E1; [lia|].
  destruct ((97 <=? c) && (c <=? 102)) eqn:E2; [lia|].
  destruct ((65 <=? c) && (c <=? 70)) eqn:E3; [lia | discriminate].
Qed.

Lemma decode_uXXXX_hexdig (h1 h2 h3 h4 v : Z) :
  decode_uXXXX h1 h2 h3 h4 = Some v ->
  json_char [92; 117; h1; h2; h3; h4].
Proof.
  unfold decode_uXXXX.
  destruct (hexval h1) eqn:E1; [|discriminate].
  destruct (hexval h2) eqn:E2; [|discriminate].
  destruct (hexval h3) eqn:E3; [|discriminate].
  destruct (hexval h4) eqn:E4; [|discriminate].
  intros _. constructor; eapply hexval_hexdig; eauto.
Qed.

Lemma backslash_escape (c v : Z) :
  backslash c = Some v -> json_char [92; c].
Proof.
  unfold backslash. intros H. apply char_escape.
  repeat match type of H with
         | (if ?a =? ?b then _ else _) = _ =>
             destruct (Z.eqb_spec a b); [subst; cbn; tauto|]
         end.
  discriminate.
Qed.

(** The recursive call of [scanstring] under a character already read. *)
Lemma scanstring_under (x : Z) (r t rest : pystr) :
  match scanstring r with
  | Ok (t', rest') => Ok (x :: t', rest')
  | Exc e => Exc e
  end = Ok (t, rest) ->
  exists t', scanstring r = Ok (t', rest).
Proof.
  destruct (scanstring r) as [[t' rest']|]; [|discriminate].
  intros H. inversion H; subst. eexists; reflexivity.
Qed.


Lemma scanstring_sound_upto (n : nat) :
  forall s t rest,
    (List.length s <= n)%nat ->
    Forall code_point s ->
    scanstring s = Ok (t, rest) ->
    exists body, s = body ++ 34 :: rest /\ json_chars body.
Proof.
  induction n as [|n IH]; intros s t rest Hn Hcp H.
  - destruct s; [discriminate | cbn in Hn; lia].
  - destruct s as [|c s]; [discriminate|]. cbn [List.length] in Hn.
    inversion Hcp as [|? ? Hc Hcp']; subst.
    assert (REC : forall (pre r : pystr) (x : Z) t0,
               s = pre ++ r ->
               json_chars (c :: pre) ->
               match scanstring r with
               | Ok (t', rest') => Ok (x :: t', rest')
               | Exc e => Exc e
               end = Ok (t0, rest) ->
               exists body, c :: s = body ++ 34 :: rest /\ json_chars body).
    { intros pre r x t0 Hs Hpre Hrec.
      destruct (scanstring_under _ _ _ _ Hrec) as (t' & Ht').
      assert (Hlen : (List.length r <= n)%nat)
        by (rewrite Hs, length_app in Hn; lia).
      assert (Hcpr : Forall code_point r)
        by (rewrite Hs in Hcp'; apply Forall_app in Hcp'; tauto).
      destruct (IH r t' rest Hlen Hcpr Ht') as (body & -> & Hb).
      exists ((c :: pre) ++ body). split.
      - rewrite Hs. cbn [app]. rewrite <- app_assoc. reflexivity.
      - clear - Hpre Hb.
        remember (c :: pre) as p eqn:Hp. clear Hp.
        induction Hpre as [|c0 s0 Hc0 _ IHp]; [exact Hb|].
        rewrite <- app_assoc. constructor; [exact Hc0 | exact IHp]. }
    cbn [scanstring] in H.
    destruct (Z.eqb_spec c 34) as [->|H34].
    { inversion H; subst. exists []. split; [reflexivity | constructor]. }
    destruct (Z.eqb_spec c 92) as [->|H92].
    + destruct s as [|esc r1]; [discriminate|].
      destruct (Z.eqb_spec esc 117) as [->|Hu].
      * destruct r1 as [|h1 [|h2 [|h3 [|h4 r2]]]]; try discriminate.
        destruct (decode_uXXXX h1 h2 h3 h4) as [uni|] eqn:Eh;
          [|discriminate].
        pose proof (decode_uXXXX_hexdig _ _ _ _ _ Eh) as Hch.
        assert (Hone : json_chars (92 :: [117; h1; h2; h3; h4]))
          by (apply (chars_cons [92; 117; h1; h2; h3; h4] []);
              [exact Hch | constructor]).
        destruct r2 as [|b [|u r3]];
          try (eapply (REC [117; h1; h2; h3; h4] _ uni t);
               [reflexivity | exact Hone | exact H]).
        destruct ((55296 <=? uni) && (uni <=? 56319) && (b =? 92)
                  && (u =? 117)) eqn:Epair;
          [|eapply (REC [117; h1; h2; h3; h4] _ uni t);
            [reflexivity | exact Hone | exact H]].
        apply andb_true_iff in Epair. destruct Epair as [Epair Eu].
        apply andb_true_iff in Epair. destruct Epair as [_ Eb].
        apply Z.eqb_eq in Eu, Eb. subst b u.
        destruct r3 as [|g1 [|g2 [|g3 [|g4 r4]]]]; try discriminate.
        destruct (decode_uXXXX g1 g2 g3 g4) as [uni2|] eqn:Eg;
          [|discriminate].
        pose proof (decode_uXXXX_hexdig _ _ _ _ _ Eg) as Hcg.
        destruct ((56320 <=? uni2) && (uni2 <=? 57343)).
        -- apply (REC [117; h1; h2; h3; h4; 92; 117; g1; g2; g3; g4] r4
                    (65536 + ((uni - 55296) * 1024 + (uni2 - 56320))) t);
             [reflexivity | | exact H].
           apply (chars_cons [92; 117; h1; h2; h3; h4]
                    [92; 117; g1; g2; g3; g4]); [exact Hch|].
           apply (chars_cons [92; 117; g1; g2; g3; g4] []);
             [exact Hcg | constructor].
        -- eapply (REC [117; h1; h2; h3; h4] _ uni t);
             [reflexivity | exact Hone | exact H].
      * destruct (backslash esc) as [ch|] eqn:Eb; [|discriminate].
        apply (REC [esc] r1 ch t); [reflexivity | | exact H].
        apply (chars_cons [92; esc] []);
          [eapply backslash_escape; eauto | constructor].
    + destruct (Z.ltb_spec c 32) as [Hlt|Hge]; [discriminate|].
      apply (REC [] s c t); [reflexivity | | exact H].
      apply (chars_cons [c] []); [|constructor].
      constructor. unfold code_point in Hc. lia.
Qed.

Lemma scanstring_sound (s t rest : pystr) :
  Forall code_point s ->
  scanstring s = Ok (t, rest) ->
  exists body, s = body ++ 34 :: rest /\ json_chars body.
Proof.
  apply (scanstring_sound_upto (List.length s)). apply Nat.le_refl.
Qed.

Lemma startswith_app (p : pystr) :
  forall s, startswith s p = true -> s = p ++ skipn (List.length p) s.
Proof.
  induction p as [|x p IH]; intros s H; [reflexivity|].
  destruct s as [|c s]; [discriminate|]. cbn [startswith] in H.
  apply andb_true_iff in H. destruct H as [Hc Hs]. apply Z.eqb_eq in Hc.
  subst c. cbn [List.length skipn app]. f_equal. apply IH, Hs.
Qed.

Lemma code_point_suffix (p r : pystr) :
  Forall code_point (p ++ r) -> Forall code_point r.
Proof. intros H. apply Forall_app in H. tauto. Qed.

(** The white space at the head of [s] put aside: [s] becomes what
    [skip_ws] leaves of it. *)
Ltac peel_ws s w Hw :=
  let Hs := fresh "Hs" in
  let s' := fresh "s" in
  destruct (skip_ws_split s) as (w & Hs & Hw);
  remember (skip_ws s) as s' eqn:E; clear E; subst s; rename s' into s.

Ltac norm_app := repeat (progress (cbn [app]; rewrite <- ?app_assoc)).

Section Sound.

Variable extra : pystr -> Prop.
Hypothesis extra_python : forall s, python_constant s -> extra s.

Section ContainersSound.

Variable scan : pystr -> result (pyval * pystr).
Hypothesis scan_sound :
  forall s v r,
    Forall code_point s -> scan s = Ok (v, r) ->
    exists p, s = p ++ r /\ json_value extra p.

Lemma JSONArray_loop_sound (fuel : nat) :
  forall s values v r,
    Forall code_point s ->
    JSONArray_loop scan fuel s values = Ok (v, r) ->
    exists body w,
      s = body ++ w ++ 93 :: r /\ json_elements extra body /\ ws w.
Proof.
  induction fuel as [|fuel IH]; intros s values v r Hcp H; [discriminate|].
  cbn [JSONArray_loop] in H.
  destruct (scan s) as [[value s1]|] eqn:Es; [|discriminate].
  destruct (scan_sound _ _ _ Hcp Es) as (p & -> & Hp).
  peel_ws s1 w Hw. destruct s1 as [|c r1]; [discriminate|].
  destruct (Z.eqb_spec c 93) as [->|H93].
  - inversion H; subst. exists p, w.
    split; [reflexivity|]. split; [constructor; exact Hp | exact Hw].
  - destruct (Z.eqb_spec c 44) as [->|H44]; [|discriminate].
    peel_ws r1 w2 Hw2.
    assert (Hcp2 : Forall code_point r1).
    { do 2 apply code_point_suffix in Hcp.
      inversion Hcp; subst. eapply code_point_suffix; eauto. }
    destruct (IH _ _ _ _ Hcp2 H) as (body & w3 & -> & Hel & Hw3).
    exists (p ++ w ++ [44] ++ w2 ++ body), w3.
    split; [|split; [constructor; assumption | exact Hw3]].
    norm_app. reflexivity.
Qed.

Lemma JSONArray_sound (s : pystr) (v : pyval) (r : pystr) :
  Forall code_point s ->
  JSONArray scan s = Ok (v, r) ->
  exists p, 91 :: s = p ++ r /\ json_value extra p.
Proof.
  unfold JSONArray. intros Hcp H.
  peel_ws s w Hw. destruct s as [|c r1]; [discriminate|].
  destruct (Z.eqb_spec c 93) as [->|H93].
  - inversion H; subst. exists ([] ++ [91] ++ w ++ [] ++ [93] ++ []).
    split; [norm_app; reflexivity|].
    apply value_array_empty;
      [apply Forall_nil | exact Hw | apply Forall_nil | apply Forall_nil].
  - assert (Hcp1 : Forall code_point (c :: r1))
      by (eapply code_point_suffix; eauto).
    destruct (JSONArray_loop_sound _ _ _ _ _ Hcp1 H)
      as (body & w3 & Hb & Hel & Hw3).
    exists ([] ++ [91] ++ w ++ body ++ w3 ++ [93] ++ []).
    split; [|apply value_array;
              [apply Forall_nil | exact Hw | exact Hel | exact Hw3
              | apply Forall_nil]].
    rewrite Hb. norm_app. reflexivity.
Qed.

Lemma JSONObject_loop_sound (fuel : nat) :
  forall s pairs v r,
    Forall code_point s ->
    JSONObject_loop scan fuel s pairs = Ok (v, r) ->
    exists body w,
      34 :: s = body ++ w ++ 125 :: r /\ json_members extra body /\ ws w.
Proof.
  induction fuel as [|fuel IH]; intros s pairs v r Hcp H; [discriminate|].
  cbn [JSONObject_loop] in H.
  destruct (scanstring s) as [[key s1]|] eqn:Ek; [|discriminate].
  destruct (scanstring_sound _ _ _ Hcp Ek) as (kb & -> & Hkb).
  assert (Hkey : json_string (34 :: kb ++ [34])) by (constructor; exact Hkb).
  apply code_point_suffix in Hcp. inversion Hcp as [|? ? _ Hcp1]; subst.
  peel_ws s1 w1 Hw1. destruct s1 as [|c r1]; [discriminate|].
  destruct (Z.eqb_spec c 58) as [->|H58]; [|discriminate].
  peel_ws r1 w2 Hw2.
  assert (Hcp2 : Forall code_point r1).
  { apply code_point_suffix in Hcp1.
    inversion Hcp1; subst. eapply code_point_suffix; eauto. }
  destruct (scan r1) as [[value s2]|] eqn:Es; [|discriminate].
  destruct (scan_sound _ _ _ Hcp2 Es) as (p & -> & Hv).
  peel_ws s2 w3 Hw3. destruct s2 as [|c' r2]; [discriminate|].
  destruct (Z.eqb_spec c' 125) as [->|H125].
  - inversion H; subst.
    exists ((34 :: kb ++ [34]) ++ w1 ++ [58] ++ w2 ++ p), w3.
    split; [|split; [constructor; assumption | exact Hw3]].
    norm_app. reflexivity.
  - destruct (Z.eqb_spec c' 44) as [->|H44]; [|discriminate].
    peel_ws r2 w4 Hw4. destruct r2 as [|q r3]; [discriminate|].
    destruct (Z.eqb_spec q 34) as [->|H34]; [|discriminate].
    assert (Hcp3 : Forall code_point r3).
    { do 2 apply code_point_suffix in Hcp2.
      inversion Hcp2 as [|? ? _ Hcp2']; subst.
      apply code_point_suffix in Hcp2'.
      inversion Hcp2'; subst. assumption. }
    destruct (IH _ _ _ _ Hcp3 H) as (body & w5 & Hb & Hm & Hw5).
    exists ((34 :: kb ++ [34]) ++ w1 ++ [58] ++ w2 ++ p ++ w3 ++ [44]
            ++ w4 ++ body), w5.
    split; [|split; [constructor; assumption | exact Hw5]].
    norm_app. rewrite app_comm_cons, Hb. norm_app. reflexivity.
Qed.

Lemma JSONObject_sound (s : pystr) (v : pyval) (r : pystr) :
  Forall code_point s ->
  JSONObject scan s = Ok (v, r) ->
  exists p, 123 :: s = p ++ r /\ json_value extra p.
Proof.
  unfold JSONObject. intros Hcp H.
  peel_ws s w Hw. destruct s as [|c r1]; [discriminate|].
  destruct (Z.eqb_spec c 125) as [->|H125].
  - inversion H; subst. exists ([] ++ [123] ++ w ++ [] ++ [125] ++ []).
    split; [norm_app; reflexivity|].
    apply value_object_empty;
      [apply Forall_nil | exact Hw | apply Forall_nil | apply Forall_nil].
  - destruct (Z.eqb_spec c 34) as [->|H34]; [|discriminate].
    assert (Hcp1 : Forall code_point r1).
    { apply code_point_suffix in Hcp.
      inversion Hcp; subst. assumption. }
    destruct (JSONObject_loop_sound _ _ _ _ _ Hcp1 H)
      as (body & w3 & Hb & Hm & Hw3).
    exists ([] ++ [123] ++ w ++ body ++ w3 ++ [125] ++ []).
    split; [|apply value_object;
              [apply Forall_nil | exact Hw | exact Hm | exact Hw3
              | apply Forall_nil]].
    norm_app. rewrite app_comm_cons, Hb. norm_app. reflexivity.
Qed.

End ContainersSound.

Lemma scan_once_sound (depth : nat) :
  forall s v r,
    Forall code_point s ->
    scan_once depth s = Ok (v, r) ->
    exists p, s = p ++ r /\ json_value extra p.
Proof.
  assert (ATOM : forall s v r,
             Forall code_point s ->
             (if startswith s s_null then Ok (PNone, skipn 4 s)
              else if startswith s s_true then Ok (PBool true, skipn 4 s)
              else if startswith s s_false then Ok (PBool false, skipn 5 s)
              else
                match match_number s with
                | Some vr => Ok vr
                | None =>
                    if startswith s s_NaN then Ok (PFloat s_NaN, skipn 3 s)
                    else if startswith s s_Infinity then
                      Ok (PFloat s_Infinity, skipn 8 s)
                    else if startswith s s_neg_Infinity then
                      Ok (PFloat s_neg_Infinity, skipn 9 s)
                    else Exc JSONDecodeError
                end) = Ok (v, r) ->
             exists p, s = p ++ r /\ json_value extra p).
  { intros s v r _ H.
    destruct (startswith s s_null) eqn:E1.
    { inversion H; subst. exists s_null.
      split; [apply (startswith_app s_null), E1 | apply value_null]. }
    destruct (startswith s s_true) eqn:E2.
    { inversion H; subst. exists s_true.
      split; [apply (startswith_app s_true), E2 | apply value_true]. }
    destruct (startswith s s_false) eqn:E3.
    { inversion H; subst. exists s_false.
      split; [apply (startswith_app s_false), E3 | apply value_false]. }
    destruct (match_number s) as [[v' r']|] eqn:En.
    { inversion H; subst.
      destruct (match_number_sound _ _ _ En) as (p & Hp & Hn).
      exists p. split; [exact Hp | apply value_number, Hn]. }
    destruct (startswith s s_NaN) eqn:E4.
    { inversion H; subst. exists s_NaN.
      split; [apply (startswith_app s_NaN), E4|].
      apply value_extra, extra_python. left. reflexivity. }
    destruct (startswith s s_Infinity) eqn:E5.
    { inversion H; subst. exists s_Infinity.
      split; [apply (startswith_app s_Infinity), E5|].
      apply value_extra, extra_python. right. left. reflexivity. }
    destruct (startswith s s_neg_Infinity) eqn:E6; [|discriminate].
    inversion H; subst. exists s_neg_Infinity.
    split; [apply (startswith_app s_neg_Infinity), E6|].
    apply value_extra, extra_python. right. right. reflexivity. }
  assert (STR : forall c s v r,
             Forall code_point (c :: s) -> c = 34 ->
             match scanstring s with
             | Ok (t, r') => Ok (PStr t, r')
             | Exc e => Exc e
             end = Ok (v, r) ->
             exists p, c :: s = p ++ r /\ json_value extra p).
  { intros c s v r Hcp -> H. inversion Hcp as [|? ? _ Hcp']; subst.
    destruct (scanstring s) as [[t r']|] eqn:E; [|discriminate].
    inversion H; subst.
    destruct (scanstring_sound _ _ _ Hcp' E) as (body & -> & Hb).
    exists (34 :: body ++ [34]).
    split; [cbn [app]; rewrite <- app_assoc; reflexivity|].
    apply value_string. constructor. exact Hb. }
  induction depth as [|depth IH]; intros s v r Hcp H;
    (destruct s as [|c s]; [discriminate|]); cbn [scan_once] in H.
  - destruct (Z.eqb_spec c 34) as [Hc|_]; [eapply STR; eauto|].
    destruct (c =? 123); [discriminate|].
    destruct (c =? 91); [discriminate|].
    exact (ATOM _ _ _ Hcp H).
  - destruct (Z.eqb_spec c 34) as [Hc|_]; [eapply STR; eauto|].
    inversion Hcp as [|? ? _ Hcp']; subst.
    destruct (Z.eqb_spec c 123) as [->|_];
      [eapply JSONObject_sound; eauto|].
    destruct (Z.eqb_spec c 91) as [->|_];
      [eapply JSONArray_sound; eauto|].
    exact (ATOM (c :: s) _ _ Hcp H).
Qed.

Lemma json_loads_sound (s : pystr) (v : pyval) :
  Forall code_point s ->
  json_loads s = Ok v -> json_text extra s.
Proof.
  unfold json_loads. intros Hcp H.
  destruct (startswith s [65279]); [discriminate|].
  destruct (skip_ws_split s) as (w1 & Hs & Hw1).
  destruct (scan_once (List.length s) (skip_ws s)) as [[obj r]|] eqn:E;
    [|discriminate].
  assert (Hcp1 : Forall code_point (skip_ws s))
    by (rewrite Hs in Hcp; eapply code_point_suffix; eauto).
  destruct (scan_once_sound _ _ _ _ Hcp1 E) as (p & Hp & Hv).
  destruct (skip_ws_split r) as (w2 & Hr & Hw2).
  destruct (skip_ws r); [|discriminate].
  exists w1, p, w2. rewrite app_nil_r in Hr.
  split; [rewrite Hs at 1; rewrite Hp, <- Hr; reflexivity|]. auto.
Qed.

End Sound.

(** *** The text of a file is made of code points *)

Lemma utf8_decode_Z_code_points_upto (n : nat) :
  forall bs s,
    (List.length bs <= n)%nat ->
    utf8_decode_Z bs = Ok s -> Forall code_point s.
Proof.
  unfold code_point.
  induction n as [|n IH]; intros bs s Hn H.
  - destruct bs; [inversion H; constructor | cbn in Hn; lia].
  - destruct bs as [|b0 r0]; [inversion H; constructor|].
    cbn [List.length] in Hn. cbn [utf8_decode_Z] in H. cbv zeta in H.
    destruct ((0 <=? b0) && (b0 <? 128)) eqn:E1.
    { destruct (utf8_decode_Z r0) as [s0|] eqn:E; [|discriminate].
      inversion H; subst. constructor; [lia|].
      eapply IH; [|exact E]. lia. }
    destruct ((194 <=? b0) && (b0 <? 224)) eqn:E2.
    { destruct r0 as [|b1 r1]; [discriminate|].
      destruct (is_cont b1) eqn:C1; [|discriminate].
      destruct (utf8_decode_Z r1) as [s0|] eqn:E; [|discriminate].
      inversion H; subst. unfold is_cont in C1.
      constructor; [lia|]. eapply IH; [|exact E]. cbn in Hn. lia. }
    destruct ((224 <=? b0) && (b0 <? 240)) eqn:E3.
    { destruct r0 as [|b1 [|b2 r2]]; try discriminate.
      destruct (is_cont b1 && is_cont b2
                && (2048 <=? (b0 - 224) * 4096 + (b1 - 128) * 64
                              + (b2 - 128))
                && negb (is_surrogate ((b0 - 224) * 4096 + (b1 - 128) * 64
                                       + (b2 - 128)))) eqn:C;
        [|discriminate].
      destruct (utf8_decode_Z r2) as [s0|] eqn:E; [|discriminate].
      inversion H; subst. unfold is_cont in C.
      constructor; [lia|]. eapply IH; [|exact E]. cbn in Hn. lia. }
    destruct ((240 <=? b0) && (b0 <? 245)) eqn:E4; [|discriminate].
    destruct r0 as [|b1 [|b2 [|b3 r3]]]; try discriminate.
    destruct (is_cont b1 && is_cont b2 && is_cont b3
              && (65536 <=? (b0 - 240) * 262144 + (b1 - 128) * 4096
                             + (b2 - 128) * 64 + (b3 - 128))
              && ((b0 - 240) * 262144 + (b1 - 128) * 4096
                  + (b2 - 128) * 64 + (b3 - 128) <? 1114112)) eqn:C;
      [|discriminate].
    destruct (utf8_decode_Z r3) as [s0|] eqn:E; [|discriminate].
    inversion H; subst.
    constructor; [lia|]. eapply IH; [|exact E]. cbn in Hn. lia.
Qed.

Lemma utf8_decode_code_points (b : bytes) (s : pystr) :
  utf8_decode b = Ok s -> Forall code_point s.
Proof.
  apply (utf8_decode_Z_code_points_upto (List.length (map Z_of_byte b))).
  apply Nat.le_refl.
Qed.

(** *** Reading in text mode keeps a text JSON and makes none *)

Lemma universal_newlines_code_points (s : pystr) :
  Forall code_point s -> Forall code_point (universal_newlines s).
Proof.
  induction 1 as [|c s Hc Hs IH]; [constructor|].
  cbn [universal_newlines]. destruct (c =? 13).
  - destruct s as [|c' s']; [repeat constructor; unfold code_point; lia|].
    destruct (Z.eqb_spec c' 10) as [->|Hc'].
    + cbn [universal_newlines Z.eqb Pos.eqb] in IH. exact IH.
    + constructor; [unfold code_point; lia | exact IH].
  - constructor; assumption.
Qed.

Lemma universal_newlines_split (a : pystr) :
  forall t b,
    universal_newlines t = a ++ b ->
    exists ta tb,
      t = ta ++ tb /\ universal_newlines ta = a
      /\ universal_newlines tb = b.
Proof.
  induction a as [|x a IH]; intros t b H.
  - exists [], t. split; [reflexivity|]. split; [reflexivity | exact H].
  - destruct t as [|c r]; [discriminate|].
    cbn [universal_newlines app] in H.
    destruct (Z.eqb_spec c 13) as [->|Hc].
    + destruct r as [|c' r'].
      * inversion H as [[Hx Hab]]. subst x. symmetry in Hab.
        apply app_eq_nil in Hab. destruct Hab as [-> ->].
        exists [13], []. split; [reflexivity|]. split; reflexivity.
      * destruct (Z.eqb_spec c' 10) as [->|Hc'].
        -- inversion H as [[Hx Hab]]. subst x.
           destruct (IH r' b Hab) as (ta & tb & -> & Ha & Hb).
           exists (13 :: 10 :: ta), tb. split; [reflexivity|].
           split; [|exact Hb].
           cbn [universal_newlines Z.eqb Pos.eqb]. rewrite Ha. reflexivity.
        -- inversion H as [[Hx Hab]]. subst x.
           destruct (IH (c' :: r') b Hab) as (ta & tb & Ht & Ha & Hb).
           exists (13 :: ta), tb. rewrite Ht.
           split; [reflexivity|]. split; [|exact Hb].
           destruct ta as [|c'' ta'].
           ++ cbn in Ha. subst a. reflexivity.
           ++ cbn [app] in Ht. inversion Ht; subst c''.
              cbn [universal_newlines Z.eqb Pos.eqb].
              destruct (Z.eqb_spec c' 10); [contradiction|].
              rewrite <- Ha. reflexivity.
    + inversion H as [[Hx Hab]]. subst x.
      destruct (IH r b Hab) as (ta & tb & -> & Ha & Hb).
      exists (c :: ta), tb. split; [reflexivity|]. split; [|exact Hb].
      cbn [universal_newlines].
      destruct (Z.eqb_spec c 13); [contradiction|]. rewrite Ha.
      reflexivity.
Qed.


Lemma universal_newlines_plain (t : pystr) :
  no_newline (universal_newlines t) -> universal_newlines t = t.
Proof.
  unfold no_newline. induction t as [|c r IH]; [reflexivity|].
  cbn [universal_newlines]. destruct (Z.eqb_spec c 13) as [->|Hc].
  - destruct r as [|c' r']; [intros H; inversion H; congruence|].
    destruct (c' =? 10); intros H; inversion H; congruence.
  - intros H. inversion H; subst. f_equal. apply IH. assumption.
Qed.

Lemma universal_newlines_ws (t : pystr) :
  ws (universal_newlines t) -> ws t.
Proof.
  unfold ws. induction t as [|c r IH]; [constructor|].
  cbn [universal_newlines]. destruct (Z.eqb_spec c 13) as [->|Hc].
  - intros H. constructor; [unfold ws_char; tauto|].
    destruct r as [|c' r']; [constructor|].
    destruct (Z.eqb_spec c' 10) as [->|Hc'].
    + apply IH. cbn [universal_newlines Z.eqb Pos.eqb]. exact H.
    + apply IH. inversion H; subst. assumption.
  - intros H. inversion H; subst. constructor; [assumption|].
    apply IH. assumption.
Qed.

Lemma digits_no_newline (ds : pystr) : Forall digit ds -> no_newline ds.
Proof. apply Forall_impl. unfold digit. intros c H. lia. Qed.

Lemma json_number_no_newline (n : pystr) :
  json_number n -> no_newline n.
Proof.
  unfold no_newline.
  intros [minus i f e Hm Hi Hf He].
  apply Forall_app; split;
    [|apply Forall_app; split; [|apply Forall_app; split]].
  - destruct Hm as [-> | ->]; repeat constructor. lia.
  - destruct Hi as [|d ds Hd Hds]; [repeat constructor; lia|].
    constructor; [unfold digit1_9 in Hd; lia|].
    apply digits_no_newline, Hds.
  - destruct Hf as [-> | [d ds Hds]]; [constructor|].
    constructor; [lia | apply digits_no_newline, Hds].
  - destruct He as [-> | [e0 sign d ds He0 Hs Hds]]; [constructor|].
    constructor; [lia|]. apply Forall_app. split.
    + destruct Hs as [-> | [-> | ->]]; repeat constructor; lia.
    + apply digits_no_newline, Hds.
Qed.

Lemma json_chars_no_newline (s : pystr) : json_chars s -> no_newline s.
Proof.
  unfold no_newline. induction 1 as [|c s Hc _ IH]; [constructor|].
  apply Forall_app. split; [|exact IH].
  destruct Hc as [c Hc | c Hc | h1 h2 h3 h4 H1 H2 H3 H4].
  - repeat constructor. lia.
  - constructor; [lia|]. constructor; [|constructor].
    cbn in Hc. lia.
  - unfold hexdig in *. repeat constructor; lia.
Qed.

Lemma json_string_no_newline (s : pystr) :
  json_string s -> no_newline s.
Proof.
  intros [body Hb]. unfold no_newline. constructor; [lia|].
  apply Forall_app. split; [apply json_chars_no_newline, Hb|].
  repeat constructor. lia.
Qed.

(** [un t = u] with [u] free of new lines: [t] is [u]. *)
Lemma universal_newlines_token (t u : pystr) :
  universal_newlines t = u -> no_newline u -> t = u.
Proof.
  intros H Hu. rewrite <- H in Hu.
  rewrite <- (universal_newlines_plain t Hu). exact H.
Qed.

Ltac un_cut H ta Ha :=
  match type of H with
  | universal_newlines ?t = ?a ++ ?b =>
      let tb := fresh "t" in
      let Hb := fresh "H" in
      destruct (universal_newlines_split a t b H) as (ta & tb & -> & Ha & Hb);
      clear H; rename Hb into H
  end.


Section TextMode.

Variable extra : pystr -> Prop.
Hypothesis extra_no_newline : forall s, extra s -> no_newline s.

Lemma json_value_text_mode (u : pystr) :
  json_value extra u ->
  forall t, universal_newlines t = u -> json_value extra t.
Proof.
  apply (json_value_mut extra
           (fun u => forall t, universal_newlines t = u ->
                               json_value extra t)
           (fun u => forall t, universal_newlines t = u ->
                               json_elements extra t)
           (fun u => forall t, universal_newlines t = u ->
                               json_members extra t)).
  - intros t H. apply universal_newlines_token in H;
      [subst; constructor | repeat constructor; lia].
  - intros t H. apply universal_newlines_token in H;
      [subst; constructor | repeat constructor; lia].
  - intros t H. apply universal_newlines_token in H;
      [subst; constructor | repeat constructor; lia].
  - intros n Hn t H. apply universal_newlines_token in H;
      [subst; apply value_number, Hn | apply json_number_no_newline, Hn].
  - intros s Hs t H. apply universal_newlines_token in H;
      [subst; apply value_string, Hs | apply json_string_no_newline, Hs].
  - intros w1 w2 w3 w4 H1 H2 H3 H4 t H.
    un_cut H t1 E1. un_cut H tb Eb. un_cut H t2 E2. un_cut H t3 E3.
    un_cut H tc Ec.
    apply universal_newlines_token in Eb; [|repeat constructor; lia].
    apply universal_newlines_token in Ec; [|repeat constructor; lia].
    subst. apply value_array_empty; apply universal_newlines_ws; assumption.
  - intros w1 w2 body w3 w4 H1 H2 _ IHb H3 H4 t H.
    un_cut H t1 E1. un_cut H tb Eb. un_cut H t2 E2. un_cut H tbody Ebody.
    un_cut H t3 E3. un_cut H tc Ec.
    apply universal_newlines_token in Eb; [|repeat constructor; lia].
    apply universal_newlines_token in Ec; [|repeat constructor; lia].
    subst. apply value_array; try (apply universal_newlines_ws; assumption).
    apply IHb. reflexivity.
  - intros w1 w2 w3 w4 H1 H2 H3 H4 t H.
    un_cut H t1 E1. un_cut H tb Eb. un_cut H t2 E2. un_cut H t3 E3.
    un_cut H tc Ec.
    apply universal_newlines_token in Eb; [|repeat constructor; lia].
    apply universal_newlines_token in Ec; [|repeat constructor; lia].
    subst. apply value_object_empty; apply universal_newlines_ws;
      assumption.
  - intros w1 w2 body w3 w4 H1 H2 _ IHb H3 H4 t H.
    un_cut H t1 E1. un_cut H tb Eb. un_cut H t2 E2. un_cut H tbody Ebody.
    un_cut H t3 E3. un_cut H tc Ec.
    apply universal_newlines_token in Eb; [|repeat constructor; lia].
    apply universal_newlines_token in Ec; [|repeat constructor; lia].
    subst. apply value_object; try (apply universal_newlines_ws; assumption).
    apply IHb. reflexivity.
  - intros s Hs t H. apply universal_newlines_token in H;
      [subst; apply value_extra, Hs | apply extra_no_newline, Hs].
  - intros v _ IHv t H. apply elements_one, IHv, H.
  - intros v w1 w2 rest _ IHv H1 H2 _ IHr t H.
    un_cut H tv Ev. un_cut H t1 E1. un_cut H tc Ec. un_cut H t2 E2.
    apply universal_newlines_token in Ec; [|repeat constructor; lia].
    subst. apply elements_more; try (apply universal_newlines_ws; assumption).
    + apply IHv. reflexivity.
    + apply IHr. reflexivity.
  - intros k w1 w2 v Hk H1 H2 _ IHv t H.
    un_cut H tk Ek. un_cut H t1 E1. un_cut H tc Ec. un_cut H t2 E2.
    apply universal_newlines_token in Ek;
      [|apply json_string_no_newline, Hk].
    apply universal_newlines_token in Ec; [|repeat constructor; lia].
    subst. apply members_one; try (apply universal_newlines_ws; assumption).
    + exact Hk.
    + apply IHv. reflexivity.
  - intros k w1 w2 v w3 w4 rest Hk H1 H2 _ IHv H3 H4 _ IHr t H.
    un_cut H tk Ek. un_cut H t1 E1. un_cut H tc Ec. un_cut H t2 E2.
    un_cut H tv Ev. un_cut H t3 E3. un_cut H td Ed. un_cut H t4 E4.
    apply universal_newlines_token in Ek;
      [|apply json_string_no_newline, Hk].
    apply universal_newlines_token in Ec; [|repeat constructor; lia].
    apply universal_newlines_token in Ed; [|repeat constructor; lia].
    subst. apply members_more; try (apply universal_newlines_ws; assumption).
    + exact Hk.
    + apply IHv. reflexivity.
    + apply IHr. reflexivity.
Qed.

Lemma json_text_text_mode (t : pystr) :
  json_text extra (universal_newlines t) -> json_text extra t.
Proof.
  intros (w1 & v & w2 & H & H1 & Hv & H2).
  un_cut H t1 E1. un_cut H tv Ev. subst.
  exists t1, tv, t. split; [reflexivity|].
  split; [apply universal_newlines_ws, H1|].
  split; [eapply json_value_text_mode; eauto|].
  apply universal_newlines_ws, H2.
Qed.

End TextMode.

Lemma python_constant_no_newline (s : pystr) :
  python_constant s -> no_newline s.
Proof.
  intros [-> | [-> | ->]]; unfold no_newline; repeat constructor; lia.
Qed.

(** What [json.load] returns on is a file that holds JSON. *)
Lemma json_load_sound (content : bytes) (v : pyval) :
  json_load content = Ok v -> python_json_file content.
Proof.
  unfold json_load, read_text. intros H.
  destruct (utf8_decode content) as [text|] eqn:E; [|discriminate].
  exists text. split; [exact E|].
  apply (json_text_text_mode python_constant python_constant_no_newline).
  apply (json_loads_sound python_constant (fun s H => H) _ v);
    [|exact H].
  apply universal_newlines_code_points, (utf8_decode_code_points content).
  exact E.
Qed.

(** *** How a JSON text ends *)



Lemma last_or_nil (l : pystr) : l = [] \/ exists p c, l = p ++ [c].
Proof.
  induction l as [|c p _] using rev_ind; [left; reflexivity|].
  right. exists p, c. reflexivity.
Qed.

Lemma ends_with_app (P : Z -> Prop) (a b : pystr) :
  ends_with P b -> ends_with P (a ++ b).
Proof.
  intros (p & c & -> & Hc). exists (a ++ p), c.
  split; [rewrite app_assoc; reflexivity | exact Hc].
Qed.

Lemma ends_with_ws (P : Z -> Prop) (a w : pystr) :
  (forall c, ws_char c -> P c) ->
  ends_with P a -> ws w -> ends_with P (a ++ w).
Proof.
  intros HP Ha Hw. destruct (last_or_nil w) as [-> | (p & c & ->)].
  - rewrite app_nil_r. exact Ha.
  - apply ends_with_app. exists p, c. split; [reflexivity|].
    apply HP. apply Forall_app in Hw. destruct Hw as [_ Hc].
    inversion Hc; assumption.
Qed.

Lemma digits_end (P : Z -> Prop) (d : Z) (ds : pystr) :
  (forall c, digit c -> P c) ->
  Forall digit (d :: ds) -> ends_with P (d :: ds).
Proof.
  intros HP H. destruct (last_or_nil (d :: ds)) as [E | (p & c & E)];
    [discriminate|].
  exists p, c. split; [exact E|]. apply HP. rewrite E in H.
  apply Forall_app in H. destruct H as [_ H]. inversion H; assumption.
Qed.

Lemma json_number_end (n : pystr) :
  json_number n -> ends_with json_end n.
Proof.
  assert (HP : forall c, digit c -> json_end c)
    by (unfold json_end; tauto).
  intros [minus i f e Hm Hi Hf He].
  destruct He as [-> | [e0 sign d ds He0 Hs Hds]].
  - rewrite app_nil_r. destruct Hf as [-> | [d ds Hds]].
    + rewrite app_nil_r. apply ends_with_app.
      destruct Hi as [|d ds Hd Hds].
      * exists [], 48. split; [reflexivity | apply HP; unfold digit; lia].
      * apply digits_end; [exact HP|]. constructor; [|exact Hds].
        unfold digit1_9 in Hd. unfold digit. lia.
    + do 2 apply ends_with_app.
      apply (ends_with_app _ [46]). apply digits_end; assumption.
  - do 3 apply ends_with_app.
    apply (ends_with_app _ (e0 :: sign)). apply digits_end; assumption.
Qed.

Section Ends.

Variable extra : pystr -> Prop.
Variable extra_end : Z -> Prop.
Hypothesis extra_ends : forall s, extra s -> ends_with extra_end s.

Lemma json_value_end (v : pystr) :
  json_value extra v ->
  ends_with (fun c => json_end c \/ extra_end c) v.
Proof.
  assert (HP : forall c, ws_char c -> json_end c \/ extra_end c)
    by (unfold json_end; tauto).
  assert (CLOSE : forall a c w,
             json_end c -> ws w ->
             ends_with (fun c => json_end c \/ extra_end c)
               (a ++ [c] ++ w)).
  { intros a c w Hc Hw. rewrite app_assoc.
    apply ends_with_ws; [exact HP | | exact Hw].
    exists a, c. split; [reflexivity | left; exact Hc]. }
  intros H. destruct H.
  - exists (removelast t_false), 101.
    split; [reflexivity | left; unfold json_end; tauto].
  - exists (removelast t_null), 108.
    split; [reflexivity | left; unfold json_end; tauto].
  - exists (removelast t_true), 101.
    split; [reflexivity | left; unfold json_end; tauto].
  - destruct (json_number_end n H) as (p & c & -> & Hc).
    exists p, c. split; [reflexivity | left; exact Hc].
  - destruct H as [body Hb]. exists (34 :: body), 34.
    split; [reflexivity | left; unfold json_end; tauto].
  - rewrite !app_assoc. rewrite <- (app_assoc _ [93] w4).
    apply CLOSE; [unfold json_end; tauto | assumption].
  - rewrite !app_assoc. rewrite <- (app_assoc _ [93] w4).
    apply CLOSE; [unfold json_end; tauto | assumption].
  - rewrite !app_assoc. rewrite <- (app_assoc _ [125] w4).
    apply CLOSE; [unfold json_end; tauto | assumption].
  - rewrite !app_assoc. rewrite <- (app_assoc _ [125] w4).
    apply CLOSE; [unfold json_end; tauto | assumption].
  - destruct (extra_ends s H) as (p & c & -> & Hc).
    exists p, c. split; [reflexivity | right; exact Hc].
Qed.

Lemma json_text_end (s : pystr) :
  json_text extra s ->
  ends_with (fun c => json_end c \/ extra_end c) s.
Proof.
  intros (w1 & v & w2 & -> & H1 & Hv & H2).
  apply ends_with_app. apply ends_with_ws; [|apply json_value_end, Hv|exact H2].
  unfold json_end. tauto.
Qed.

End Ends.

Lemma ends_with_last (P : Z -> Prop) (s : pystr) :
  ends_with P s -> P (last s 0).
Proof. intros (p & c & -> & Hc). rewrite last_last. exact Hc. Qed.

Lemma python_json_end (s : pystr) :
  python_json s ->
  json_end (last s 0) \/ last s 0 = 78 \/ last s 0 = 121.
Proof.
  intros H.
  apply (ends_with_last (fun c => json_end c \/ (c = 78 \/ c = 121))).
  apply (json_text_end python_constant (fun c => c = 78 \/ c = 121));
    [|exact H].
  intros t [-> | [-> | ->]].
  - exists (removelast s_NaN), 78. split; [reflexivity | tauto].
  - exists (removelast s_Infinity), 121. split; [reflexivity | tauto].
  - exists (removelast s_neg_Infinity), 121. split; [reflexivity | tauto].
Qed.

Lemma rfc8259_end (s : pystr) : rfc8259 s -> json_end (last s 0).
Proof.
  intros H.
  assert (K : json_end (last s 0) \/ False); [|tauto].
  apply (ends_with_last (fun c => json_end c \/ False)).
  apply (json_text_end (fun _ => False) (fun _ => False)); [|exact H].
  intros t [].
Qed.

(** A text cut after a comma is not JSON, and neither is an empty one. *)
Lemma truncated_json_malformed : ~ python_json_file truncated_json.
Proof.
  intros (text & Hd & Ht).
  assert (E : utf8_decode truncated_json
              = Ok (removelast text ++ [44])).
  { rewrite Hd. f_equal. vm_compute in Hd. inversion Hd. reflexivity. }
  rewrite Hd in E. inversion E as [E']. clear E.
  apply python_json_end in Ht. rewrite E', last_last in Ht.
  unfold json_end, digit, ws_char in Ht. lia.
Qed.

Ltac concrete_records :=
  repeat first
    [ apply Forall_nil
    | apply Forall_cons
    | apply NoDup_nil
    | apply NoDup_cons
    | split
    | reflexivity
    | lia
    | (intros Hin; cbn in Hin; intuition discriminate) ].

(** Against the first half of C4 read by the letter of the RFC: [NaN] is
    no JSON text, and a file that holds it is loaded without any
    error. *)
Example load_accepts_NaN :
  load_from_json two_trains (lit "t.json")
    (one_file (lit "t.json") (file_text "NaN"))
  = Returns tt {| trains := PFloat s_NaN |}
      (logging INFO (msg_loaded_1 ++ lit "t.json" ++ msg_loaded_2)
         (one_file (lit "t.json") (file_text "NaN")))
  /\ ~ rfc8259_file (file_text "NaN").
Proof.
  split; [reflexivity|].
  intros (text & Hd & Ht). vm_compute in Hd. inversion Hd; subst text.
  apply rfc8259_end in Ht. cbn in Ht.
  unfold json_end, digit, ws_char in Ht. lia.
Qed.

(** C4, amended.  When the file exists and does not hold JSON, because
    its bytes are not UTF-8 or because the text is outside the grammar of
    RFC 8259 with the three literals [NaN], [Infinity] and [-Infinity]
    that the [json] module reads besides, [load_from_json] raises, and
    the store and the world are left as they were.  Fields are not
    looked at: the file [save_to_json] writes for a list of records is
    loaded whatever keys the records have or lack. *)
Theorem load_raises_on_malformed_json :
  forall (self : TrainManager) (filename : pystr) (w : World)
         (content : bytes),
    files w filename = Some content ->
    (~ python_json_file content ->
     exists e, load_from_json self filename w = Raises e self w)
    /\ (forall (float_repr : pystr -> pystr) (rs : list record),
          Forall distinct_keys rs ->
          Forall encodable rs ->
          utf8_encode (json_dumps float_repr (list_of_records rs))
          = Ok content ->
          load_from_json self filename w
          = Returns tt {| trains := list_of_records rs |}
              (logging INFO (msg_loaded_1 ++ filename ++ msg_loaded_2) w)).
Proof.
  intros self filename w content Hf. unfold load_from_json. rewrite Hf.
  split.
  - intros Hbad. destruct (json_load content) as [v|e] eqn:E.
    + exfalso. apply Hbad. eapply json_load_sound; eauto.
    + exists e. reflexivity.
  - intros float_repr rs Hd He Henc.
    destruct (json_dump_then_load float_repr rs He Hd) as (c & Hc & Hload).
    rewrite Henc in Hc. inversion Hc; subst. rewrite Hload. reflexivity.
Qed.

Lemma load_raises_on_malformed_json_witness :
  (files (one_file (lit "t.json") truncated_json) (lit "t.json")
   = Some truncated_json
   /\ ~ python_json_file truncated_json
   /\ exists e,
        load_from_json two_trains (lit "t.json")
          (one_file (lit "t.json") truncated_json)
        = Raises e two_trains (one_file (lit "t.json") truncated_json))
  /\ (files (one_file (lit "t.json") three_field_dump) (lit "t.json")
      = Some three_field_dump
      /\ utf8_encode
           (json_dumps (fun l => l) (list_of_records three_field_records))
         = Ok three_field_dump
      /\ load_from_json two_trains (lit "t.json")
           (one_file (lit "t.json") three_field_dump)
         = Returns tt {| trains := list_of_records three_field_records |}
             (logging INFO (msg_loaded_1 ++ lit "t.json" ++ msg_loaded_2)
                (one_file (lit "t.json") three_field_dump))).
Proof.
  split.
  - split; [reflexivity|]. split; [exact truncated_json_malformed|].
    exact (proj1 (load_raises_on_malformed_json two_trains (lit "t.json")
                    (one_file (lit "t.json") truncated_json)
                    truncated_json eq_refl)
             truncated_json_malformed).
  - assert (He : utf8_encode
                   (json_dumps (fun l => l)
                      (list_of_records three_field_records))
                 = Ok three_field_dump) by reflexivity.
    split; [reflexivity|]. split; [exact He|].
    refine (proj2 (load_raises_on_malformed_json two_trains (lit "t.json")
                     (one_file (lit "t.json") three_field_dump)
                     three_field_dump eq_refl)
              (fun l => l) three_field_records _ _ He).
    + unfold three_field_records, distinct_keys. concrete_records.
    + unfold three_field_records, encodable, is_scalar. concrete_records.
Defined.

(** Bytes that are not UTF-8 make [json.load] raise as well. *)
Example json_load_bad_utf8 :
  json_load [x5b; xff; x5d] = Exc UnicodeDecodeError.
Proof. reflexivity. Qed.

(** ** [save_to_json] *)

Lemma startswith_spec (s p : pystr) :
  startswith s p = true <-> exists r, s = p ++ r.
Proof.
  revert s; induction p as [|y p IH]; intros s; simpl.
  - split; [exists s; reflexivity | destruct s; reflexivity].
  - destruct s as [|x s].
    + split; [discriminate | intros [r H]; discriminate].
    + simpl. rewrite andb_true_iff, Z.eqb_eq, IH. split.
      * intros [-> [r ->]]. exists r. reflexivity.
      * intros [r H]. inversion H. split; [reflexivity | exists r; reflexivity].
Qed.

Lemma endswith_spec (s p : pystr) :
  endswith s p = true <-> exists pre, s = pre ++ p.
Proof.
  unfold endswith. rewrite startswith_spec. split.
  - intros [r H]. exists (rev r).
    rewrite <- (rev_involutive s), H, rev_app_distr, rev_involutive.
    reflexivity.
  - intros [pre ->]. exists (rev pre). apply rev_app_distr.
Qed.

Lemma app_same_length_tail (A : Type) (a b c d : list A) :
  a ++ b = c ++ d -> List.length b = List.length d -> b = d.
Proof.
  intros H Hlen.
  assert (Hr : rev b ++ rev a = rev d ++ rev c)
    by (rewrite <- !rev_app_distr, H; reflexivity).
  assert (Hb : rev b = rev d).
  { apply (f_equal (firstn (List.length (rev b)))) in Hr.
    rewrite firstn_app, firstn_all, Nat.sub_diag in Hr. cbn [firstn] in Hr.
    rewrite app_nil_r in Hr. rewrite Hr.
    rewrite !length_rev, Hlen, <- (length_rev d).
    rewrite firstn_app, firstn_all, Nat.sub_diag. cbn [firstn].
    apply app_nil_r. }
  rewrite <- (rev_involutive b), Hb. apply rev_involutive.
Qed.

Lemma save_path_spec (filename : pystr) :
  ((exists pre, filename = pre ++ dot_json) -> save_path filename = filename)
  /\ (~ (exists pre, filename = pre ++ dot_json) ->
      save_path filename = filename ++ dot_json).
Proof.
  unfold save_path. rewrite <- endswith_spec.
  destruct (endswith filename dot_json); split; intros H;
    try reflexivity; congruence.
Qed.

(** What a save that gets its text through the codec does. *)
Lemma save_to_json_returns (float_repr : pystr -> pystr)
  (self : TrainManager) (filename : pystr) (w : World) (content : bytes) :
  utf8_encode (json_dumps float_repr (trains self)) = Ok content ->
  save_to_json float_repr self filename w
  = Returns tt self
      {| files := fun p => if str_eqb p (save_path filename)
                           then Some content else files w p;
         log := log w
                ++ [(INFO,
                     msg_saved_1 ++ save_path filename ++ msg_saved_2)] |}.
Proof.
  intros H. unfold save_to_json. rewrite H. reflexivity.
Qed.

(** C7 (file name normalisation).  A save whose text gets through the
    codec returns and touches one file only, the one at the normalised
    path, and logs that path; the normalised path is the name itself when
    the name ends with [".json"] and the name plus [".json"] when it does
    not, so ["data"] and ["data.json"] both give ["data.json"]. *)
Theorem save_normalizes_path :
  forall (float_repr : pystr -> pystr) (self : TrainManager)
         (filename : pystr) (w : World) (content : bytes),
    utf8_encode (json_dumps float_repr (trains self)) = Ok content ->
    exists w',
      save_to_json float_repr self filename w = Returns tt self w'
      /\ files w' (save_path filename) = Some content
      /\ (forall p, p <> save_path filename -> files w' p = files w p)
      /\ log w' = log w
                  ++ [(INFO, msg_saved_1 ++ save_path filename ++ msg_saved_2)]
      /\ ((exists pre, filename = pre ++ dot_json) ->
          save_path filename = filename)
      /\ (~ (exists pre, filename = pre ++ dot_json) ->
          save_path filename = filename ++ dot_json)
      /\ save_path (lit "data") = lit "data.json"
      /\ save_path (lit "data.json") = lit "data.json".
Proof.
  intros float_repr self filename w content H.
  eexists. split; [apply save_to_json_returns; exact H|].
  cbn [files log]. split; [|split; [|split; [|split; [|split; [|split]]]]].
  - rewrite str_eqb_refl. reflexivity.
  - intros p Hp. apply str_eqb_neq in Hp. rewrite Hp. reflexivity.
  - reflexivity.
  - apply save_path_spec.
  - apply save_path_spec.
  - reflexivity.
  - reflexivity.
Qed.

Lemma ascii_lower_length (v : pystr) :
  List.length (ascii_lower v) = List.length v.
Proof. apply length_map. Qed.

Lemma case_variant_not_suffix (pre v : pystr) :
  case_variant v -> ~ (exists pre', pre ++ v = pre' ++ dot_json).
Proof.
  intros [Hlow Hne] [pre' H]. apply Hne.
  apply (app_same_length_tail _ _ _ _ _ H).
  rewrite <- ascii_lower_length, Hlow. reflexivity.
Qed.

(** C10 (the suffix test is case-sensitive).  When the name ends with
    [".json"] spelled in another letter case, a save whose text gets
    through the codec writes to the name plus [".json"] and leaves the
    file at the name itself as it was. *)
Theorem save_suffix_case_sensitive :
  forall (float_repr : pystr -> pystr) (self : TrainManager)
         (pre v : pystr) (w : World) (content : bytes),
    case_variant v ->
    utf8_encode (json_dumps float_repr (trains self)) = Ok content ->
    exists w',
      save_to_json float_repr self (pre ++ v) w = Returns tt self w'
      /\ save_path (pre ++ v) = pre ++ v ++ dot_json
      /\ files w' (pre ++ v ++ dot_json) = Some content
      /\ files w' (pre ++ v) = files w (pre ++ v).
Proof.
  intros float_repr self pre v w content Hv H.
  assert (Hp : save_path (pre ++ v) = pre ++ v ++ dot_json).
  { rewrite (proj2 (save_path_spec (pre ++ v))
               (case_variant_not_suffix pre v Hv)).
    symmetry. apply app_assoc. }
  eexists. split; [apply save_to_json_returns; exact H|].
  cbn [files]. rewrite Hp. split; [reflexivity|]. split.
  - rewrite str_eqb_refl. reflexivity.
  - replace (str_eqb (pre ++ v) (pre ++ v ++ dot_json)) with false;
      [reflexivity|].
    symmetry. apply str_eqb_neq. intros Heq.
    apply (f_equal (@List.length Z)) in Heq.
    rewrite !length_app in Heq. cbn in Heq. lia.
Qed.

(** ** Saving and loading *)

Lemma manager_eta (self : TrainManager) : {| trains := trains self |} = self.
Proof. destruct self; reflexivity. Qed.

(** Against C3 as it is written: the name ["data"] does not end with
    [".json"], so the save goes to ["data.json"], and the load reads the
    file ["data"], which holds an empty list: the two trains are gone. *)
Lemma save_then_load_other_file :
  exists w1 w2,
    save_to_json (fun l => l) two_trains (lit "data")
      (one_file (lit "data") empty_list_json)
    = Returns tt two_trains w1
    /\ load_from_json two_trains (lit "data") w1
       = Returns tt {| trains := PList [] |} w2
    /\ trains two_trains <> PList [].
Proof.
  eexists. eexists. split; [reflexivity|]. split; [reflexivity|].
  discriminate.
Qed.

(** C3, amended (save round trip).  Take a store of dicts of strings,
    keys distinct as in every dict and no character a surrogate, and a
    name that ends with [".json"] or is the name of no file.  Then
    [save_to_json] returns, [load_from_json] with the same name returns
    after it, and the store it leaves is the store that was saved, record
    by record and field by field. *)
Theorem save_then_load_round_trip :
  forall (float_repr : pystr -> pystr) (self : TrainManager)
         (rs : list record) (filename : pystr) (w : World),
    trains self = list_of_records rs ->
    Forall distinct_keys rs ->
    Forall encodable rs ->
    (exists pre, filename = pre ++ dot_json) \/ files w filename = None ->
    exists w1 self' w2,
      save_to_json float_repr self filename w = Returns tt self w1
      /\ load_from_json self filename w1 = Returns tt self' w2
      /\ list_trains self' = list_of_records rs.
Proof.
  intros float_repr self rs filename w Hself Hd He Hname.
  destruct (json_dump_then_load float_repr rs He Hd)
    as (content & Henc & Hload).
  rewrite <- Hself in Henc.
  exists {| files := fun p => if str_eqb p (save_path filename)
                             then Some content else files w p;
            log := log w
                   ++ [(INFO,
                        msg_saved_1 ++ save_path filename ++ msg_saved_2)] |}.
  rewrite (save_to_json_returns _ _ filename w _ Henc).
  unfold load_from_json. cbn [files].
  destruct (endswith filename dot_json) eqn:Hends.
  - apply endswith_spec in Hends.
    rewrite (proj1 (save_path_spec filename) Hends).
    exists {| trains := list_of_records rs |}. eexists.
    split; [reflexivity|]. split; [|reflexivity].
    rewrite str_eqb_refl, Hload. reflexivity.
  - assert (Hnot : ~ (exists pre, filename = pre ++ dot_json)).
    { rewrite <- endswith_spec. congruence. }
    destruct Hname as [Hname | Hnone]; [contradiction|].
    rewrite (proj2 (save_path_spec filename) Hnot).
    exists self. eexists. split; [reflexivity|]. split; [|exact Hself].
    replace (str_eqb filename (filename ++ dot_json)) with false.
    + rewrite Hnone. reflexivity.
    + symmetry. apply str_eqb_neq. intros Heq.
      apply (f_equal (@List.length Z)) in Heq.
      rewrite length_app in Heq. cbn in Heq. lia.
Qed.

Lemma two_records_distinct_keys : Forall distinct_keys two_records.
Proof. unfold two_records, distinct_keys. cbn [map fst]. concrete_records. Qed.

Lemma two_records_encodable : Forall encodable two_records.
Proof. unfold two_records, encodable, is_scalar. concrete_records. Qed.

Lemma save_then_load_round_trip_witness :
  trains two_trains = list_of_records two_records
  /\ Forall distinct_keys two_records
  /\ Forall encodable two_records
  /\ ((exists pre, lit "trains.json" = pre ++ dot_json)
      \/ files empty_world (lit "trains.json") = None)
  /\ exists w1 self' w2,
       save_to_json (fun l => l) two_trains (lit "trains.json") empty_world
       = Returns tt two_trains w1
       /\ load_from_json two_trains (lit "trains.json") w1
          = Returns tt self' w2
       /\ list_trains self' = list_of_records two_records.
Proof.
  assert (Hn : (exists pre, lit "trains.json" = pre ++ dot_json)
               \/ files empty_world (lit "trains.json") = None)
    by (left; exists (lit "trains"); reflexivity).
  split; [reflexivity|].
  split; [exact two_records_distinct_keys|].
  split; [exact two_records_encodable|].
  split; [exact Hn|].
  exact (save_then_load_round_trip (fun l => l) two_trains two_records
           (lit "trains.json") empty_world eq_refl
           two_records_distinct_keys two_records_encodable Hn).
Defined.

(** C5 (load replaces, and does not sort).  When the file exists, the
    store after [load_from_json] is what [json.load] makes of the file,
    whatever the store held before.  In particular, when the file holds
    the JSON array of a list of records, in any order, the store is that
    list in that order. *)
Theorem load_replaces_collection :
  forall (self : TrainManager) (filename : pystr) (w : World)
         (content : bytes),
    files w filename = Some content ->
    (forall v,
        json_load content = Ok v ->
        load_from_json self filename w
        = Returns tt {| trains := v |}
            (logging INFO (msg_loaded_1 ++ filename ++ msg_loaded_2) w))
    /\ (forall float_repr rs,
          Forall distinct_keys rs ->
          Forall encodable rs ->
          utf8_encode (json_dumps float_repr (list_of_records rs))
          = Ok content ->
          load_from_json self filename w
          = Returns tt {| trains := list_of_records rs |}
              (logging INFO (msg_loaded_1 ++ filename ++ msg_loaded_2) w)).
Proof.
  intros self filename w content Hf.
  assert (H : forall v,
             json_load content = Ok v ->
             load_from_json self filename w
             = Returns tt {| trains := v |}
                 (logging INFO (msg_loaded_1 ++ filename ++ msg_loaded_2) w)).
  { intros v Hv. unfold load_from_json. rewrite Hf, Hv. reflexivity. }
  split; [exact H|].
  intros float_repr rs Hd He Henc. apply H.
  destruct (json_dump_then_load float_repr rs He Hd) as (c & Hc & Hload).
  rewrite Henc in Hc. inversion Hc; subst. exact Hload.
Qed.

Lemma load_replaces_collection_witness :
  files (one_file (lit "t.json") two_trains_json) (lit "t.json")
  = Some two_trains_json
  /\ utf8_encode (json_dumps (fun l => l) (list_of_records two_records))
     = Ok two_trains_json
  /\ load_from_json one_train (lit "t.json")
       (one_file (lit "t.json") two_trains_json)
     = Returns tt {| trains := list_of_records two_records |}
         (logging INFO (msg_loaded_1 ++ lit "t.json" ++ msg_loaded_2)
            (one_file (lit "t.json") two_trains_json)).
Proof.
  assert (He : utf8_encode
                 (json_dumps (fun l => l) (list_of_records two_records))
               = Ok two_trains_json) by reflexivity.
  split; [reflexivity|]. split; [exact He|].
  exact (proj2 (load_replaces_collection one_train (lit "t.json")
                  (one_file (lit "t.json") two_trains_json)
                  two_trains_json eq_refl)
           (fun l => l) two_records two_records_distinct_keys
           two_records_encodable He).
Defined.

Lemma save_normalizes_path_witness :
  utf8_encode (json_dumps (fun l => l) (trains two_trains))
  = Ok two_trains_json
  /\ exists w',
       save_to_json (fun l => l) two_trains (lit "data") empty_world
       = Returns tt two_trains w'
       /\ files w' (save_path (lit "data")) = Some two_trains_json
       /\ save_path (lit "data") = lit "data.json".
Proof.
  assert (He : utf8_encode (json_dumps (fun l => l) (trains two_trains))
               = Ok two_trains_json) by reflexivity.
  split; [exact He|].
  destruct (save_normalizes_path (fun l => l) two_trains (lit "data")
              empty_world two_trains_json He)
    as (w' & Hrun & Hfile & _ & _ & _ & _ & Hdata & _).
  exists w'. split; [exact Hrun|]. split; [exact Hfile | exact Hdata].
Defined.

Lemma save_suffix_case_sensitive_witness :
  case_variant (lit ".JSON")
  /\ utf8_encode (json_dumps (fun l => l) (trains two_trains))
     = Ok two_trains_json
  /\ exists w',
       save_to_json (fun l => l) two_trains (lit "data" ++ lit ".JSON")
         empty_world
       = Returns tt two_trains w'
       /\ save_path (lit "data" ++ lit ".JSON")
          = lit "data" ++ lit ".JSON" ++ dot_json
       /\ files w' (lit "data" ++ lit ".JSON" ++ dot_json)
          = Some two_trains_json
       /\ files w' (lit "data" ++ lit ".JSON")
          = files empty_world (lit "data" ++ lit ".JSON").
Proof.
  assert (Hv : case_variant (lit ".JSON"))
    by (split; [reflexivity | discriminate]).
  assert (He : utf8_encode (json_dumps (fun l => l) (trains two_trains))
               = Ok two_trains_json) by reflexivity.
  split; [exact Hv|]. split; [exact He|].
  exact (save_suffix_case_sensitive (fun l => l) two_trains (lit "data")
           (lit ".JSON") empty_world two_trains_json Hv He).
Defined.

(** * More properties *)

(** ** [add_train], call after call *)

Lemma sort_keys_keyed (ks : list (pystr * pyval)) :
  keyed_right ks ->
  sort_keys (map snd ks) = Ok (map tagged ks)
  /\ str_keys (map tagged ks) = Some ks.
Proof.
  induction 1 as [|[k x] ks Hk _ [IH1 IH2]]; [split; reflexivity|].
  cbn [fst snd] in Hk. cbn [map sort_keys snd].
  unfold time_departure_of in Hk.
  destruct x as [| | | | |?|d]; try discriminate.
  cbn [getitem].
  destruct (dict_get k_time_departure d) as [[| | | |s| |]|]; try discriminate.
  inversion Hk; subst. rewrite IH1. split; [reflexivity|].
  cbn [tagged fst snd str_keys]. fold (map tagged ks). rewrite IH2. reflexivity.
Qed.

Lemma keyed_right_app (a b : list (pystr * pyval)) :
  keyed_right a -> keyed_right b -> keyed_right (a ++ b).
Proof. intros Ha Hb. apply Forall_app; split; assumption. Qed.

Lemma keyed_right_sort (ks : list (pystr * pyval)) :
  keyed_right ks -> keyed_right (stable_sort ks).
Proof.
  intros H. eapply Permutation_Forall; [apply stable_sort_perm | exact H].
Qed.

(** One call on a store given with its keys. *)
Lemma add_train_keyed (self : TrainManager) (ks : list (pystr * pyval))
  (dp nt td dest : pystr) (w : World) :
  keyed_right ks ->
  trains self = PList (map snd ks) ->
  add_train self dp nt td dest w
  = Returns tt
      {| trains :=
           PList (map snd (stable_sort
                             (ks ++ [(td, train_dict dp nt td dest)]))) |}
      (logging INFO
         (msg_added_1 ++ dp ++ msg_added_2 ++ nt ++ msg_added_3 ++ td
          ++ msg_added_4 ++ dest) w).
Proof.
  intros Hk Hself.
  assert (Hk' : keyed_right (ks ++ [(td, train_dict dp nt td dest)])).
  { apply keyed_right_app; [exact Hk|].
    constructor; [reflexivity|constructor]. }
  destruct (sort_keys_keyed _ Hk') as [H1 H2].
  unfold add_train, sort_by_time_departure. rewrite Hself.
  replace (map snd ks ++ [train_dict dp nt td dest])
    with (map snd (ks ++ [(td, train_dict dp nt td dest)]))
    by (rewrite map_app; reflexivity).
  rewrite H1, H2. reflexivity.
Qed.

(** Sorting, adding items at the end and sorting again is sorting once. *)
Lemma stable_sort_app (a b : list (pystr * pyval)) :
  stable_sort (stable_sort a ++ b) = stable_sort (a ++ b).
Proof.
  symmetry. apply stable_sort_unique; [apply stable_sort_sorted|].
  intros k. rewrite stable_sort_stable, !filter_app, stable_sort_stable.
  reflexivity.
Qed.

Lemma add_trains_keyed (calls : list call) :
  forall (self : TrainManager) (ks : list (pystr * pyval)) (w : World),
    keyed_right ks ->
    trains self = PList (map snd (stable_sort ks)) ->
    exists w',
      add_trains calls self w
      = Some ({| trains :=
                   PList (map snd
                            (stable_sort (ks ++ map keyed_call calls))) |},
              w')
      /\ files w' = files w
      /\ List.length (log w') = (List.length (log w) + List.length calls)%nat.
Proof.
  induction calls as [|[[[dp nt] td] dest] calls IH]; intros self ks w Hk Hself.
  - exists w. cbn [add_trains map]. rewrite app_nil_r, <- Hself.
    destruct self; cbn. repeat split. lia.
  - cbn [add_trains].
    rewrite (add_train_keyed self (stable_sort ks) dp nt td dest w
               (keyed_right_sort ks Hk) Hself).
    rewrite stable_sort_app.
    destruct (IH {| trains :=
                      PList
                        (map snd
                           (stable_sort
                              (ks ++ [(td, train_dict dp nt td dest)]))) |}
                (ks ++ [(td, train_dict dp nt td dest)])
                (logging INFO
                   (msg_added_1 ++ dp ++ msg_added_2 ++ nt ++ msg_added_3
                    ++ td ++ msg_added_4 ++ dest) w))
      as (w' & Hrun & Hfiles & Hlog).
    { apply keyed_right_app; [exact Hk|].
      constructor; [reflexivity | constructor]. }
    { reflexivity. }
    exists w'. rewrite Hrun. cbn [map keyed_call].
    rewrite <- app_assoc. cbn [app]. split; [reflexivity|].
    split; [exact Hfiles|]. rewrite Hlog. cbn [logging log].
    rewrite length_app. cbn [List.length]. lia.
Qed.

(** X1 (re-sorting after every insertion is sorting once).  Whatever the
    calls of [add_train] on a new [TrainManager], they all return, and the
    list they leave is the records of the calls, in call order, sorted
    once by a stable sort on the departure time.  No file is touched and
    each call adds one record to the log. *)
Theorem add_trains_from_init :
  forall (calls : list call) (w : World),
    exists w',
      add_trains calls init w
      = Some ({| trains :=
                   PList (map snd (stable_sort (map keyed_call calls))) |},
              w')
      /\ files w' = files w
      /\ List.length (log w') = (List.length (log w) + List.length calls)%nat.
Proof.
  intros calls w.
  apply (add_trains_keyed calls init [] w); [constructor | reflexivity].
Qed.

(** ** [add_train] on a sorted list *)

Lemma str_le_not_lt (a b : pystr) : str_le a b = negb (str_lt b a).
Proof.
  unfold str_le, str_lt. rewrite (str_compare_antisym a b).
  destruct (str_compare a b); reflexivity.
Qed.

Lemma insert_by_key_first (k : pystr) (x : pyval) (l : list (pystr * pyval)) :
  Forall (fun y => str_le k (fst y) = true) l ->
  insert_by_key k x l = (k, x) :: l.
Proof.
  intros H. destruct H as [|[k' y] l Hy _]; [reflexivity|].
  cbn [insert_by_key]. cbn [fst] in Hy. rewrite str_le_not_lt in Hy.
  destruct (str_lt k' k); [discriminate | reflexivity].
Qed.

Lemma sorted_keys_of (l : list pyval) :
  sorted_by_time l ->
  exists ks,
    map snd ks = l /\ keyed_right ks
    /\ StronglySorted (fun a b => str_le a b = true) (map fst ks).
Proof.
  intros (keys & Hkeys & Hs). revert l Hkeys.
  induction Hs as [|k keys Hs IH Hall]; intros l Hkeys.
  - destruct l; [|discriminate]. exists []. repeat split; constructor.
  - destruct l as [|t l]; [discriminate|]. cbn [map] in Hkeys.
    inversion Hkeys as [[Ht Hl]].
    destruct (IH l Hl) as (ks & Hm & Hr & Hss).
    exists ((k, t) :: ks). cbn [map fst snd]. rewrite Hm.
    split; [reflexivity|]. split; [constructor; assumption|].
    constructor; [exact Hss|].
    assert (Hfst : map fst ks = keys).
    { clear - Hm Hr Hl. subst l. revert keys Hl.
      induction Hr as [|[k' x] ks Hkx _ IH]; intros keys Hl;
        destruct keys; try discriminate; [reflexivity|].
      cbn [map fst snd] in *. rewrite Hkx in Hl. inversion Hl; subst.
      f_equal. apply IH. assumption. }
    rewrite Hfst. exact Hall.
Qed.

(** Into a list sorted by key the sort puts a new last item after the
    items with a key up to its own, before the others, and moves nothing
    else. *)
Lemma stable_sort_insert_last (k : pystr) (x : pyval)
  (ks : list (pystr * pyval)) :
  StronglySorted (fun a b => str_le a b = true) (map fst ks) ->
  stable_sort (ks ++ [(k, x)])
  = filter (fun y => str_le (fst y) k) ks
    ++ (k, x) :: filter (fun y => str_lt k (fst y)) ks
  /\ ks = filter (fun y => str_le (fst y) k) ks
          ++ filter (fun y => str_lt k (fst y)) ks.
Proof.
  induction ks as [|[ka a] ks IH]; intros Hs; [split; reflexivity|].
  cbn [map fst] in Hs. inversion Hs as [|? ? Hs' Hall]; subst.
  destruct (IH Hs') as [IH1 IH2]. clear IH.
  assert (Hall' : Forall (fun y => str_le ka (fst y) = true) ks).
  { clear - Hall. induction ks as [|[k' y] ks IH]; [constructor|].
    cbn [map fst] in Hall. inversion Hall; subst. constructor; auto. }
  cbn [app stable_sort filter fst]. rewrite IH1.
  rewrite (str_le_not_lt ka k).
  destruct (str_lt k ka) eqn:Hlt; cbn [negb].
  - assert (Hnone : filter (fun y => str_le (fst y) k) ks = []).
    { clear - Hall' Hlt.
      induction Hall' as [|[k' y] ks Hy _ IH]; [reflexivity|].
      cbn [filter fst] in *. rewrite IH.
      replace (str_le k' k) with false; [reflexivity|].
      symmetry. rewrite str_le_not_lt. apply negb_false_iff.
      unfold str_lt in *. unfold str_le in Hy.
      destruct (str_compare k ka) eqn:E1; try discriminate.
      destruct (str_compare ka k') eqn:E2; try discriminate.
      + apply str_compare_eq in E2. subst. rewrite E1. reflexivity.
      + rewrite (str_compare_trans Lt k ka k' E1 E2). reflexivity. }
    rewrite Hnone in *. cbn [app] in *.
    cbn [insert_by_key]. rewrite Hlt.
    rewrite <- IH2.
    rewrite insert_by_key_first by exact Hall'. split; reflexivity.
  - cbn [app]. rewrite <- IH2. split; [|reflexivity].
    apply insert_by_key_first.
    apply Forall_app. split.
    + eapply incl_Forall; [|exact Hall']. intros y Hy.
      apply filter_In in Hy. tauto.
    + constructor.
      * cbn [fst]. rewrite str_le_not_lt, Hlt. reflexivity.
      * eapply incl_Forall; [|exact Hall']. intros y Hy.
        apply filter_In in Hy. tauto.
Qed.

Lemma not_after_keyed (td : pystr) (ks : list (pystr * pyval)) :
  keyed_right ks ->
  not_after td (map snd ks)
  = map snd (filter (fun y => str_le (fst y) td) ks).
Proof.
  induction 1 as [|[k x] ks Hk _ IH]; [reflexivity|].
  cbn [map filter not_after snd fst] in *. rewrite Hk.
  fold (not_after td (map snd ks)). rewrite IH.
  destruct (str_le k td); reflexivity.
Qed.

Lemma after_keyed (td : pystr) (ks : list (pystr * pyval)) :
  keyed_right ks ->
  after td (map snd ks)
  = map snd (filter (fun y => str_lt td (fst y)) ks).
Proof.
  induction 1 as [|[k x] ks Hk _ IH]; [reflexivity|].
  cbn [map filter after snd fst] in *. rewrite Hk.
  fold (after td (map snd ks)). rewrite IH.
  destruct (str_lt td k); reflexivity.
Qed.

(** X2 (where the new record goes).  On a list that is sorted by
    departure time, [add_train] returns and moves no record: the list is
    cut in two, the records with a time up to the new one and the records
    with a later time, and the new record is put between them. *)
Theorem add_train_into_sorted :
  forall (self : TrainManager) (l : list pyval)
         (dp nt td dest : pystr) (w : World),
    trains self = PList l ->
    sorted_by_time l ->
    l = not_after td l ++ after td l
    /\ add_train self dp nt td dest w
       = Returns tt
           {| trains :=
                PList (not_after td l ++ train_dict dp nt td dest
                       :: after td l) |}
           (logging INFO
              (msg_added_1 ++ dp ++ msg_added_2 ++ nt ++ msg_added_3 ++ td
               ++ msg_added_4 ++ dest) w).
Proof.
  intros self l dp nt td dest w Hself Hsorted.
  destruct (sorted_keys_of l Hsorted) as (ks & Hm & Hr & Hs). subst l.
  destruct (stable_sort_insert_last td (train_dict dp nt td dest) ks Hs)
    as [H1 H2].
  rewrite (not_after_keyed td ks Hr), (after_keyed td ks Hr). split.
  - rewrite <- map_app, <- H2. reflexivity.
  - rewrite (add_train_keyed self ks dp nt td dest w Hr Hself), H1.
    rewrite map_app. reflexivity.
Qed.

Lemma two_sorted : sorted_by_time [moscow_samara; moscow_kazan].
Proof.
  exists [lit "08:00"; lit "09:15"]. split; [reflexivity|].
  repeat constructor.
Qed.

Lemma add_train_into_sorted_witness :
  sorted_by_time [moscow_samara; moscow_kazan]
  /\ add_train {| trains := PList [moscow_samara; moscow_kazan] |}
       (lit "Tver") (lit "303") (lit "08:00") (lit "Pskov") empty_world
     = Returns tt
         {| trains :=
              PList [moscow_samara;
                     train_dict (lit "Tver") (lit "303") (lit "08:00")
                       (lit "Pskov");
                     moscow_kazan] |}
         (logging INFO
            (msg_added_1 ++ lit "Tver" ++ msg_added_2 ++ lit "303"
             ++ msg_added_3 ++ lit "08:00" ++ msg_added_4 ++ lit "Pskov")
            empty_world).
Proof.
  split; [exact two_sorted|].
  exact (proj2 (add_train_into_sorted
                  {| trains := PList [moscow_samara; moscow_kazan] |}
                  [moscow_samara; moscow_kazan]
                  (lit "Tver") (lit "303") (lit "08:00") (lit "Pskov")
                  empty_world eq_refl two_sorted)).
Defined.

(** ** When a record lacks a field *)

Lemma sort_keys_app_fails (l1 l2 : list pyval) (t : pyval) (e : exn) :
  Forall (fun t' => exists v, getitem t' k_time_departure = Ok v) l1 ->
  getitem t k_time_departure = Exc e ->
  sort_keys (l1 ++ t :: l2) = Exc e.
Proof.
  intros H1 Ht. induction H1 as [|t' l1 [v Hv] _ IH].
  - cbn [app sort_keys]. rewrite Ht. reflexivity.
  - cbn [app sort_keys]. rewrite Hv, IH. reflexivity.
Qed.

(** X3 (a failed insertion is not undone).  When the list holds a dict
    without ["time_departure"], and every item before it can be asked for
    that key, [add_train] raises [KeyError], logs nothing, and leaves the
    new record appended at the end of the list, which is not sorted
    again. *)
Theorem add_train_missing_time :
  forall (self : TrainManager) (l1 l2 : list pyval)
         (d : list (pystr * pyval)) (dp nt td dest : pystr) (w : World),
    trains self = PList (l1 ++ PDict d :: l2) ->
    Forall (fun t => exists v, getitem t k_time_departure = Ok v) l1 ->
    dict_get k_time_departure d = None ->
    add_train self dp nt td dest w
    = Raises (KeyError k_time_departure)
        {| trains :=
             PList ((l1 ++ PDict d :: l2) ++ [train_dict dp nt td dest]) |}
        w.
Proof.
  intros self l1 l2 d dp nt td dest w Hself H1 Hd.
  unfold add_train, sort_by_time_departure. rewrite Hself.
  rewrite <- app_assoc. cbn [app].
  rewrite (sort_keys_app_fails l1 _ (PDict d) (KeyError k_time_departure) H1).
  - reflexivity.
  - cbn [getitem]. rewrite Hd. reflexivity.
Qed.

Lemma add_train_missing_time_witness :
  add_train {| trains := PList ([moscow_kazan] ++ no_time_record :: []) |}
    (lit "Tver") (lit "303") (lit "07:30") (lit "Pskov") empty_world
  = Raises (KeyError k_time_departure)
      {| trains :=
           PList (([moscow_kazan] ++ no_time_record :: [])
                  ++ [train_dict (lit "Tver") (lit "303") (lit "07:30")
                        (lit "Pskov")]) |}
      empty_world.
Proof.
  apply (add_train_missing_time _ [moscow_kazan] []
           [(k_departure_point, PStr (lit "Moscow"));
            (k_number_train, PStr (lit "101"))]).
  - reflexivity.
  - constructor; [|constructor]. eexists. reflexivity.
  - reflexivity.
Defined.

Lemma select_loop_app_fails (str_lower : pystr -> pystr) (q : pystr)
  (l1 l2 : list pyval) (t : pyval) (e : exn) :
  Forall (fun t' => destination_of t' <> None) l1 ->
  getitem t k_destination = Exc e ->
  select_loop str_lower q (l1 ++ t :: l2) = Exc e.
Proof.
  intros H1 Ht. induction H1 as [|t' l1 Hd _ IH].
  - cbn [app select_loop]. rewrite Ht. reflexivity.
  - cbn [app select_loop]. rewrite IH.
    unfold destination_of in Hd. destruct t' as [| | | | |?|d']; try congruence.
    cbn [getitem].
    destruct (dict_get k_destination d') as [[| | | |s| |]|]; try congruence.
    reflexivity.
Qed.

(** X6 (a missing destination surfaces at the query).  When the list holds
    a dict without ["destination"], and every item before it has a [str]
    destination, [select_trains] raises [KeyError] whatever the query and
    whatever follows, logs nothing and changes nothing. *)
Theorem select_trains_missing_destination :
  forall (str_lower : pystr -> pystr) (self : TrainManager)
         (l1 l2 : list pyval) (d : list (pystr * pyval))
         (point_user : pystr) (w : World),
    trains self = PList (l1 ++ PDict d :: l2) ->
    Forall (fun t => destination_of t <> None) l1 ->
    dict_get k_destination d = None ->
    select_trains str_lower self point_user w
    = Raises (KeyError k_destination) self w.
Proof.
  intros str_lower self l1 l2 d q w Hself H1 Hd.
  unfold select_trains. rewrite Hself. cbn [iterate].
  rewrite (select_loop_app_fails str_lower _ l1 l2 (PDict d)
             (KeyError k_destination) H1).
  - reflexivity.
  - cbn [getitem]. rewrite Hd. reflexivity.
Qed.

(** The record of three fields that [load_from_json] accepted: the query
    raises. *)
Lemma select_trains_missing_destination_witness :
  select_trains ascii_lower
    {| trains := PList ([moscow_kazan] ++ three_field_record :: []) |}
    (lit "Kazan") empty_world
  = Raises (KeyError k_destination)
      {| trains := PList ([moscow_kazan] ++ three_field_record :: []) |}
      empty_world.
Proof.
  apply (select_trains_missing_destination ascii_lower _ [moscow_kazan] []
           [(k_departure_point, PStr (lit "Moscow"));
            (k_number_train, PStr (lit "101"));
            (k_time_departure, PStr (lit "09:15"))]).
  - reflexivity.
  - constructor; [discriminate | constructor].
  - reflexivity.
Defined.

(** ** [select_trains] on a sorted list, and after [add_train] *)

Lemma sorted_by_time_filter (f : pyval -> bool) (l : list pyval) :
  sorted_by_time l -> sorted_by_time (filter f l).
Proof.
  intros (ks & Hk & Hs). revert l Hk.
  induction Hs as [|k ks Hs IH Hall]; intros l Hk.
  - destruct l; [|discriminate]. exists []. split; constructor.
  - destruct l as [|t l]; [discriminate|]. cbn [map] in Hk.
    inversion Hk as [[Ht Hl]].
    destruct (IH l Hl) as (ks' & Hk' & Hs').
    cbn [filter]. destruct (f t); [|exists ks'; auto].
    exists (k :: ks'). cbn [map]. rewrite Ht, Hk'. split; [reflexivity|].
    constructor; [exact Hs'|].
    rewrite Forall_forall in *. intros k' Hin. apply Hall.
    assert (Hin' : In (Some k') (map time_departure_of (filter f l)))
      by (rewrite Hk'; apply in_map; exact Hin).
    apply in_map_iff in Hin'. destruct Hin' as (t' & Ht' & Hint').
    apply filter_In in Hint'. destruct Hint' as [Hint' _].
    assert (Hs'' : In (Some k') (map Some ks))
      by (rewrite <- Hl, <- Ht'; apply in_map; exact Hint').
    apply in_map_iff in Hs''. destruct Hs'' as (k'' & Heq & Hk'').
    inversion Heq; subst. exact Hk''.
Qed.

Lemma select_trains_run (str_lower : pystr -> pystr) (self : TrainManager)
  (l : list pyval) (point_user : pystr) (w : World) :
  trains self = PList l ->
  Forall (fun t => destination_of t <> None) l ->
  select_trains str_lower self point_user w
  = Returns (filter (dest_matches str_lower point_user) l) self
      (logging INFO
         (msg_select_1 ++ str_lower point_user ++ msg_select_2
          ++ int_repr
               (Z.of_nat
                  (List.length
                     (filter (dest_matches str_lower point_user) l)))
          ++ msg_select_3) w).
Proof.
  intros Hself Hl. unfold select_trains. rewrite Hself.
  cbn [iterate]. rewrite (select_loop_filter str_lower point_user l Hl).
  reflexivity.
Qed.

(** X4 (a selection is in list order).  On a list sorted by departure
    time whose items all carry a [str] destination, the result of
    [select_trains] is sorted by departure time as well, and each of its
    records is a record of the list. *)
Theorem select_trains_sorted :
  forall (str_lower : pystr -> pystr) (self : TrainManager)
         (l : list pyval) (point_user : pystr) (w : World),
    trains self = PList l ->
    sorted_by_time l ->
    Forall (fun t => destination_of t <> None) l ->
    exists selected w',
      select_trains str_lower self point_user w = Returns selected self w'
      /\ sorted_by_time selected
      /\ incl selected l
      /\ (List.length selected <= List.length l)%nat.
Proof.
  intros str_lower self l q w Hself Hs Hd.
  pose proof (select_trains_run str_lower self l q w Hself Hd) as Hrun.
  eexists. eexists. split; [exact Hrun|]. split; [|split].
  - apply sorted_by_time_filter. exact Hs.
  - apply incl_filter.
  - apply filter_length_le.
Qed.

Lemma select_trains_sorted_witness :
  sorted_by_time [moscow_samara; moscow_kazan]
  /\ exists selected w',
       select_trains ascii_lower
         {| trains := PList [moscow_samara; moscow_kazan] |}
         (lit "KAZAN") empty_world
       = Returns selected
           {| trains := PList [moscow_samara; moscow_kazan] |} w'
       /\ sorted_by_time selected
       /\ incl selected [moscow_samara; moscow_kazan]
       /\ (List.length selected
           <= List.length [moscow_samara; moscow_kazan])%nat.
Proof.
  split; [exact two_sorted|].
  apply (select_trains_sorted ascii_lower
           {| trains := PList [moscow_samara; moscow_kazan] |}
           [moscow_samara; moscow_kazan] (lit "KAZAN") empty_world
           eq_refl two_sorted).
  repeat constructor; discriminate.
Defined.

(** X5 (a train just added is found).  On a list whose items all carry a
    [str] departure time and a [str] destination, after [add_train] with
    destination [dest] a query equal to [dest] up to letter case returns
    the new record, and one record more than the same query before the
    insertion. *)
Theorem add_train_then_select :
  forall (str_lower : pystr -> pystr) (self : TrainManager)
         (l : list pyval) (dp nt td dest point_user : pystr) (w : World),
    trains self = PList l ->
    Forall (fun t => time_departure_of t <> None) l ->
    Forall (fun t => destination_of t <> None) l ->
    str_lower point_user = str_lower dest ->
    exists self1 w1 before selected w2 w3,
      add_train self dp nt td dest w = Returns tt self1 w1
      /\ select_trains str_lower self point_user w = Returns before self w2
      /\ select_trains str_lower self1 point_user w1
         = Returns selected self1 w3
      /\ In (train_dict dp nt td dest) selected
      /\ List.length selected = S (List.length before).
Proof.
  intros str_lower self l dp nt td dest q w Hself Ht Hd Hq.
  destruct (add_train_timed self l dp nt td dest w Hself Ht)
    as (l2 & Hadd & Hperm & _ & _ & _).
  assert (Hd2 : Forall (fun t => destination_of t <> None) l2).
  { eapply Permutation_Forall; [exact Hperm|].
    apply Forall_app. split; [exact Hd|].
    constructor; [discriminate | constructor]. }
  pose proof (select_trains_run str_lower self l q w Hself Hd) as Hsel0.
  pose proof (select_trains_run str_lower {| trains := PList l2 |} l2 q
                (logging INFO
                   (msg_added_1 ++ dp ++ msg_added_2 ++ nt ++ msg_added_3
                    ++ td ++ msg_added_4 ++ dest) w) eq_refl Hd2)
    as Hsel.
  assert (Hm : dest_matches str_lower q (train_dict dp nt td dest) = true).
  { unfold dest_matches. rewrite destination_of_train_dict.
    apply str_eqb_eq. symmetry. exact Hq. }
  do 6 eexists. split; [exact Hadd|]. split; [exact Hsel0|].
  split; [exact Hsel|]. split.
  - apply filter_In. split; [|exact Hm].
    eapply Permutation_in; [exact Hperm|].
    apply in_or_app. right. left. reflexivity.
  - assert (Hp : Permutation
                   (filter (dest_matches str_lower q)
                      (l ++ [train_dict dp nt td dest]))
                   (filter (dest_matches str_lower q) l2)).
    { clear - Hperm. induction Hperm; cbn [filter];
        repeat match goal with
               | |- context [if ?b then _ else _] => destruct b
               end; eauto using Permutation. }
    rewrite <- (Permutation_length Hp), filter_app. cbn [filter].
    rewrite Hm, length_app. cbn [List.length]. lia.
Qed.

Lemma add_train_then_select_witness :
  exists self1 w1 before selected w2 w3,
    add_train two_trains (lit "Tver") (lit "303") (lit "07:30")
      (lit "Kazan") empty_world = Returns tt self1 w1
    /\ select_trains ascii_lower two_trains (lit "KAZAN") empty_world
       = Returns before two_trains w2
    /\ select_trains ascii_lower self1 (lit "KAZAN") w1
       = Returns selected self1 w3
    /\ In (train_dict (lit "Tver") (lit "303") (lit "07:30") (lit "Kazan"))
         selected
    /\ List.length selected = S (List.length before).
Proof.
  apply (add_train_then_select ascii_lower two_trains
           [moscow_kazan; moscow_samara]).
  - reflexivity.
  - repeat constructor; discriminate.
  - repeat constructor; discriminate.
  - reflexivity.
Defined.

(** ** More on saving and loading *)

(** X7 (one suffix, never two).  The name [save_to_json] opens always ends
    with [".json"], and completing a completed name changes nothing. *)
Theorem save_path_idempotent :
  forall filename : pystr,
    (exists pre, save_path filename = pre ++ dot_json)
    /\ save_path (save_path filename) = save_path filename.
Proof.
  intros filename.
  assert (H : exists pre, save_path filename = pre ++ dot_json).
  { unfold save_path. destruct (endswith filename dot_json) eqn:E; cbn [negb].
    - apply endswith_spec. exact E.
    - exists filename. reflexivity. }
  split; [exact H|]. apply save_path_spec. exact H.
Qed.

(** X8 (what is saved can be loaded by anyone).  After [save_to_json] of
    a list of dicts of strings without surrogates under any name, a
    [load_from_json] of the completed name returns and leaves that list,
    whatever the loading object held before. *)
Theorem save_then_load_saved_path :
  forall (float_repr : pystr -> pystr) (self other : TrainManager)
         (rs : list record) (filename : pystr) (w : World),
    trains self = list_of_records rs ->
    Forall distinct_keys rs ->
    Forall encodable rs ->
    exists w1 w2,
      save_to_json float_repr self filename w = Returns tt self w1
      /\ load_from_json other (save_path filename) w1
         = Returns tt {| trains := list_of_records rs |} w2.
Proof.
  intros float_repr self other rs filename w Hself Hd He.
  destruct (json_dump_then_load float_repr rs He Hd)
    as (content & Henc & Hload).
  rewrite <- Hself in Henc.
  eexists. eexists.
  split; [apply (save_to_json_returns _ _ filename w _ Henc)|].
  unfold load_from_json. cbn [files]. rewrite str_eqb_refl, Hload.
  reflexivity.
Qed.

Lemma save_then_load_saved_path_witness :
  exists w1 w2,
    save_to_json (fun l => l) two_trains (lit "data")
      (one_file (lit "data") empty_list_json)
    = Returns tt two_trains w1
    /\ load_from_json one_train (save_path (lit "data")) w1
       = Returns tt {| trains := list_of_records two_records |} w2.
Proof.
  exact (save_then_load_saved_path (fun l => l) two_trains one_train
           two_records (lit "data") (one_file (lit "data") empty_list_json)
           eq_refl two_records_distinct_keys two_records_encodable).
Defined.

(** X9 (loading and saving back leaves the file as it is).  When the file
    [filename], whose name ends with [".json"], holds what [save_to_json]
    writes for a list of dicts of strings, [load_from_json] followed by
    [save_to_json] under the same name returns and every file holds what
    it held before. *)
Theorem load_then_save_same_file :
  forall (float_repr : pystr -> pystr) (self : TrainManager)
         (rs : list record) (pre : pystr) (w : World) (content : bytes),
    Forall distinct_keys rs ->
    Forall encodable rs ->
    utf8_encode (json_dumps float_repr (list_of_records rs)) = Ok content ->
    files w (pre ++ dot_json) = Some content ->
    exists self1 w1 w2,
      load_from_json self (pre ++ dot_json) w = Returns tt self1 w1
      /\ save_to_json float_repr self1 (pre ++ dot_json) w1
         = Returns tt self1 w2
      /\ trains self1 = list_of_records rs
      /\ forall p, files w2 p = files w p.
Proof.
  intros float_repr self rs pre w content Hd He Henc Hf.
  destruct (json_dump_then_load float_repr rs He Hd) as (c & Hc & Hload).
  rewrite Henc in Hc. inversion Hc; subst c.
  exists {| trains := list_of_records rs |}. eexists. eexists.
  split; [unfold load_from_json; rewrite Hf, Hload; reflexivity|].
  split; [apply save_to_json_returns; exact Henc|].
  split; [reflexivity|].
  intros p. cbn [files logging].
  rewrite (proj1 (save_path_spec (pre ++ dot_json)))
    by (exists pre; reflexivity).
  destruct (str_eqb p (pre ++ dot_json)) eqn:E; [|reflexivity].
  apply str_eqb_eq in E. subst p. symmetry. exact Hf.
Qed.

Lemma load_then_save_same_file_witness :
  utf8_encode (json_dumps (fun l => l) (list_of_records two_records))
  = Ok two_trains_json
  /\ exists self1 w1 w2,
       load_from_json one_train (lit "t" ++ dot_json)
         (one_file (lit "t.json") two_trains_json) = Returns tt self1 w1
       /\ save_to_json (fun l => l) self1 (lit "t" ++ dot_json) w1
          = Returns tt self1 w2
       /\ trains self1 = list_of_records two_records
       /\ forall p,
            files w2 p = files (one_file (lit "t.json") two_trains_json) p.
Proof.
  assert (He : utf8_encode
                 (json_dumps (fun l => l) (list_of_records two_records))
               = Ok two_trains_json) by reflexivity.
  split; [exact He|].
  exact (load_then_save_same_file (fun l => l) one_train two_records
           (lit "t") (one_file (lit "t.json") two_trains_json)
           two_trains_json two_records_distinct_keys two_records_encodable
           He eq_refl).
Defined.

(** X10 (the order of the file lasts until the next insertion).  When the
    file holds what [save_to_json] writes for a list of records that all
    carry a [str] departure time, in any order, [load_from_json] leaves
    the list in the order of the file, and the next [add_train] returns
    and leaves the records of the file and the new one sorted by
    departure time. *)
Theorem load_then_add_train :
  forall (float_repr : pystr -> pystr) (self : TrainManager)
         (rs : list record) (filename : pystr) (w : World) (content : bytes)
         (dp nt td dest : pystr),
    Forall distinct_keys rs ->
    Forall encodable rs ->
    Forall (fun r => time_departure_of (dict_of_record r) <> None) rs ->
    utf8_encode (json_dumps float_repr (list_of_records rs)) = Ok content ->
    files w filename = Some content ->
    exists w1 l2 w2,
      load_from_json self filename w
      = Returns tt {| trains := list_of_records rs |} w1
      /\ add_train {| trains := list_of_records rs |} dp nt td dest w1
         = Returns tt {| trains := PList l2 |} w2
      /\ Permutation (map dict_of_record rs ++ [train_dict dp nt td dest]) l2
      /\ sorted_by_time l2.
Proof.
  intros float_repr self rs filename w content dp nt td dest
    Hd He Ht Henc Hf.
  destruct (json_dump_then_load float_repr rs He Hd) as (c & Hc & Hload).
  rewrite Henc in Hc. inversion Hc; subst c.
  assert (Ht' : Forall (fun t => time_departure_of t <> None)
                  (map dict_of_record rs))
    by (apply Forall_map; exact Ht).
  destruct (add_train_timed {| trains := list_of_records rs |}
              (map dict_of_record rs) dp nt td dest
              (logging INFO (msg_loaded_1 ++ filename ++ msg_loaded_2) w)
              eq_refl Ht')
    as (l2 & Hadd & Hperm & Hsorted & _).
  eexists. exists l2. eexists.
  split; [unfold load_from_json; rewrite Hf, Hload; reflexivity|].
  split; [exact Hadd|]. split; assumption.
Qed.

Lemma load_then_add_train_witness :
  utf8_encode (json_dumps (fun l => l) (list_of_records two_records))
  = Ok two_trains_json
  /\ ~ sorted_by_time (map dict_of_record two_records)
  /\ exists w1 l2 w2,
       load_from_json one_train (lit "t.json")
         (one_file (lit "t.json") two_trains_json)
       = Returns tt {| trains := list_of_records two_records |} w1
       /\ add_train {| trains := list_of_records two_records |}
            (lit "Tver") (lit "303") (lit "07:30") (lit "Pskov") w1
          = Returns tt {| trains := PList l2 |} w2
       /\ Permutation
            (map dict_of_record two_records
             ++ [train_dict (lit "Tver") (lit "303") (lit "07:30")
                   (lit "Pskov")]) l2
       /\ sorted_by_time l2.
Proof.
  assert (He : utf8_encode
                 (json_dumps (fun l => l) (list_of_records two_records))
               = Ok two_trains_json) by reflexivity.
  split; [exact He|]. split.
  - intros (ks & Hk & Hs). cbn in Hk.
    destruct ks as [|k1 [|k2 [|k3 ks]]]; try discriminate.
    inversion Hk; subst. inversion Hs as [|? ? _ Hall]; subst.
    inversion Hall as [|? ? Hle _]; subst. discriminate.
  - apply (load_then_add_train (fun l => l) one_train two_records
             (lit "t.json") (one_file (lit "t.json") two_trains_json)
             two_trains_json (lit "Tver") (lit "303") (lit "07:30")
             (lit "Pskov") two_records_distinct_keys two_records_encodable);
      [repeat constructor; discriminate | exact He | reflexivity].
Defined.

(** ** [print_trains] *)

Section Printed.

Variable float_is_zero : pystr -> bool.
Variable float_str : pystr -> pystr.

Lemma format_row_fields (idx : Z) (t : pyval) (dp nt td dest : pystr) :
  fields_of t = Some (dp, nt, td, dest) ->
  format_row float_str idx t = Ok (table_row idx dp nt td dest).
Proof.
  unfold fields_of, format_row. intros H.
  destruct (getitem t k_departure_point) as [[| | | |s1| |]|]; try discriminate.
  destruct (getitem t k_number_train) as [[| | | |s2| |]|]; try discriminate.
  destruct (getitem t k_time_departure) as [[| | | |s3| |]|]; try discriminate.
  destruct (getitem t k_destination) as [[| | | |s4| |]|]; try discriminate.
  inversion H; subst. reflexivity.
Qed.

Lemma print_rows_fields (items : list pyval) :
  forall (idx : Z) (fs : list (pystr * pystr * pystr * pystr)),
    map fields_of items = map Some fs ->
    print_rows float_str idx items = (table_rows idx fs, Ok tt).
Proof.
  induction items as [|t items IH]; intros idx fs H;
    destruct fs as [|[[[dp nt] td] dest] fs]; try discriminate;
    [reflexivity|].
  cbn [map] in H. inversion H as [[Ht Hrest]].
  cbn [print_rows table_rows].
  rewrite (format_row_fields idx t dp nt td dest Ht).
  rewrite (IH (idx + 1) fs Hrest). reflexivity.
Qed.

Lemma table_rows_length (fs : list (pystr * pystr * pystr * pystr)) :
  forall idx, List.length (table_rows idx fs) = (2 * List.length fs)%nat.
Proof.
  induction fs as [|[[[dp nt] td] dest] fs IH]; intros idx; [reflexivity|].
  cbn [table_rows List.length]. rewrite IH. lia.
Qed.

Lemma table_rows_nth (fs : list (pystr * pystr * pystr * pystr)) :
  forall (idx : Z) (i : nat) (dp nt td dest : pystr),
    nth_error fs i = Some (dp, nt, td, dest) ->
    nth_error (table_rows idx fs) (2 * i)
    = Some (table_row (idx + Z.of_nat i) dp nt td dest)
    /\ nth_error (table_rows idx fs) (2 * i + 1) = Some table_line.
Proof.
  induction fs as [|[[[dp0 nt0] td0] dest0] fs IH];
    intros idx i dp nt td dest H; [destruct i; discriminate|].
  destruct i as [|i].
  - cbn in H. inversion H; subst. cbn [table_rows].
    replace (idx + Z.of_nat 0) with idx by lia. split; reflexivity.
  - cbn [nth_error] in H. destruct (IH (idx + 1) i dp nt td dest H) as [H1 H2].
    cbn [table_rows].
    replace (2 * S i)%nat with (S (S (2 * i))) by lia.
    replace (S (S (2 * i)) + 1)%nat with (S (S (2 * i + 1))) by lia.
    cbn [nth_error].
    replace (idx + Z.of_nat (S i)) with (idx + 1 + Z.of_nat i) by lia.
    split; assumption.
Qed.

(** X11 (the shape of the table).  An empty list prints the one message
    about an empty list.  A list of [n >= 1] trains that have the four
    keys with a [str] under each prints [2 n + 3] lines and returns: the
    line, the header, the line, and for the train at place [i], counted
    from zero, its row with the number [i + 1] and the line. *)
Theorem print_trains_table :
  forall (items : list pyval) (fs : list (pystr * pystr * pystr * pystr)),
    map fields_of items = map Some fs ->
    print_trains float_is_zero float_str (PList [])
    = ([msg_empty], Ok tt)
    /\ (items <> [] ->
        exists printed,
          print_trains float_is_zero float_str (PList items)
          = (table_line :: table_header :: table_line :: printed, Ok tt)
          /\ List.length printed = (2 * List.length items)%nat
          /\ forall i dp nt td dest,
               nth_error fs i = Some (dp, nt, td, dest) ->
               nth_error printed (2 * i)
               = Some (table_row (Z.of_nat i + 1) dp nt td dest)
               /\ nth_error printed (2 * i + 1) = Some table_line).
Proof.
  intros items fs H. split; [reflexivity|]. intros Hne.
  exists (table_rows 1 fs). split; [|split].
  - unfold print_trains. destruct items as [|t items]; [congruence|].
    cbn [truth negb iterate].
    rewrite (print_rows_fields (t :: items) 1 fs H). reflexivity.
  - rewrite table_rows_length.
    rewrite <- (length_map fields_of items), H, length_map. reflexivity.
  - intros i dp nt td dest Hi.
    destruct (table_rows_nth fs 1 i dp nt td dest Hi) as [H1 H2].
    replace (Z.of_nat i + 1) with (1 + Z.of_nat i) by lia. split; assumption.
Qed.

Lemma print_rows_app_fails (l1 l2 : list pyval) (t : pyval) (e : exn) :
  forall (idx : Z) (fs : list (pystr * pystr * pystr * pystr)),
    map fields_of l1 = map Some fs ->
    format_row float_str (idx + Z.of_nat (List.length l1)) t = Exc e ->
    print_rows float_str idx (l1 ++ t :: l2) = (table_rows idx fs, Exc e).
Proof.
  induction l1 as [|t1 l1 IH]; intros idx fs H Ht;
    destruct fs as [|[[[dp nt] td] dest] fs]; try discriminate.
  - cbn [app print_rows table_rows]. cbn [List.length] in Ht.
    replace (idx + Z.of_nat 0) with idx in Ht by lia.
    rewrite Ht. reflexivity.
  - cbn [map] in H. inversion H as [[Ht1 Hrest]].
    cbn [app print_rows table_rows].
    rewrite (format_row_fields idx t1 dp nt td dest Ht1).
    rewrite (IH (idx + 1) fs Hrest); [reflexivity|].
    rewrite <- Ht. f_equal. cbn [List.length]. lia.
Qed.

Lemma format_row_missing (idx : Z) (d : list (pystr * pyval)) (k : pystr) :
  first_missing d = Some k ->
  format_row float_str idx (PDict d) = Exc (KeyError k).
Proof.
  unfold first_missing, format_row. cbn [getitem]. intros H.
  destruct (dict_get k_departure_point d);
    [|inversion H; subst; reflexivity].
  destruct (dict_get k_number_train d);
    [|inversion H; subst; reflexivity].
  destruct (dict_get k_time_departure d);
    [|inversion H; subst; reflexivity].
  destruct (dict_get k_destination d);
    [discriminate | inversion H; subst; reflexivity].
Qed.

(** X13 (a missing field stops the table midway).  When the trains before
    a dict that lacks one of the four keys are complete, [print_trains]
    prints the header and the rows of those trains and then raises
    [KeyError] with the first key that is missing; nothing of the dict and
    of what follows it is printed. *)
Theorem print_trains_missing_field :
  forall (l1 l2 : list pyval) (d : list (pystr * pyval)) (k : pystr)
         (fs : list (pystr * pystr * pystr * pystr)),
    map fields_of l1 = map Some fs ->
    first_missing d = Some k ->
    print_trains float_is_zero float_str (PList (l1 ++ PDict d :: l2))
    = (table_line :: table_header :: table_line :: table_rows 1 fs,
       Exc (KeyError k))
    /\ List.length (table_rows 1 fs) = (2 * List.length l1)%nat.
Proof.
  intros l1 l2 d k fs H Hk. split.
  - unfold print_trains.
    replace (truth float_is_zero (PList (l1 ++ PDict d :: l2))) with true
      by (destruct l1; reflexivity).
    cbn [negb iterate].
    rewrite (print_rows_app_fails l1 l2 (PDict d) (KeyError k) 1 fs H).
    + reflexivity.
    + apply format_row_missing. exact Hk.
  - rewrite table_rows_length.
    rewrite <- (length_map fields_of l1), H, length_map. reflexivity.
Qed.

End Printed.

Lemma print_trains_table_witness :
  map fields_of [moscow_samara; moscow_kazan]
  = map Some [(lit "Moscow", lit "202", lit "08:00", lit "Samara");
              (lit "Moscow", lit "101", lit "09:15", lit "Kazan")]
  /\ exists printed,
       print_trains (fun _ => false) (fun l => l)
         (PList [moscow_samara; moscow_kazan])
       = (table_line :: table_header :: table_line :: printed, Ok tt)
       /\ List.length printed = 4%nat.
Proof.
  split; [reflexivity|].
  destruct (proj2 (print_trains_table (fun _ => false) (fun l => l)
                     [moscow_samara; moscow_kazan]
                     [(lit "Moscow", lit "202", lit "08:00", lit "Samara");
                      (lit "Moscow", lit "101", lit "09:15", lit "Kazan")]
                     eq_refl))
    as (printed & Hrun & Hlen & _); [discriminate|].
  exists printed. split; [exact Hrun | exact Hlen].
Defined.

Lemma print_trains_missing_field_witness :
  first_missing
    [(k_departure_point, PStr (lit "Moscow"));
     (k_number_train, PStr (lit "101"));
     (k_time_departure, PStr (lit "09:15"))] = Some k_destination
  /\ print_trains (fun _ => false) (fun l => l)
       (PList ([moscow_samara] ++ three_field_record :: [moscow_kazan]))
     = (table_line :: table_header :: table_line
        :: table_rows 1 [(lit "Moscow", lit "202", lit "08:00", lit "Samara")],
        Exc (KeyError k_destination)).
Proof.
  split; [reflexivity|].
  exact (proj1 (print_trains_missing_field (fun _ => false) (fun l => l)
                  [moscow_samara] [moscow_kazan]
                  [(k_departure_point, PStr (lit "Moscow"));
                   (k_number_train, PStr (lit "101"));
                   (k_time_departure, PStr (lit "09:15"))]
                  k_destination
                  [(lit "Moscow", lit "202", lit "08:00", lit "Samara")]
                  eq_refl eq_refl)).
Defined.

Lemma spaces_length (n : nat) : List.length (spaces n) = n.
Proof. apply repeat_length. Qed.

Lemma ljust_length (w : nat) (s : pystr) :
  List.length (ljust w s) = Nat.max w (List.length s).
Proof. unfold ljust. rewrite length_app, spaces_length. lia. Qed.

Lemma rjust_length (w : nat) (s : pystr) :
  List.length (rjust w s) = Nat.max w (List.length s).
Proof. unfold rjust. rewrite length_app, spaces_length. lia. Qed.

Lemma table_row_length (idx : Z) (dp nt td dest : pystr) :
  List.length (table_row idx dp nt td dest)
  = (16 + Nat.max 4 (List.length (int_repr idx))
     + Nat.max 20 (List.length dp) + Nat.max 13 (List.length nt)
     + Nat.max 18 (List.length td) + Nat.max 20 (List.length dest))%nat.
Proof.
  unfold table_row.
  repeat (rewrite length_app || rewrite ljust_length || rewrite rjust_length).
  cbn [List.length]. lia.
Qed.

(** X12 (columns are padded, never cut).  A row is at least as long as
    the line of the table, 91 characters, and exactly as long when the
    number has at most four digits and the four texts fit their columns
    of 20, 13, 18 and 20 characters, and only then. *)
Theorem table_row_aligned :
  forall (idx : Z) (dp nt td dest : pystr),
    List.length table_line = 91%nat
    /\ List.length table_header = 91%nat
    /\ (91 <= List.length (table_row idx dp nt td dest))%nat
    /\ (List.length (table_row idx dp nt td dest) = 91%nat
        <-> (List.length (int_repr idx) <= 4)%nat
            /\ fits (dp, nt, td, dest)).
Proof.
  intros idx dp nt td dest. rewrite table_row_length. unfold fits.
  split; [reflexivity|]. split; [reflexivity|]. split; lia.
Qed.

Lemma int_repr_four_digits (idx : Z) :
  0 <= idx <= 9999 -> (List.length (int_repr idx) <= 4)%nat.
Proof.
  intros H.
  assert (Hall : forallb
                   (fun i => Nat.leb (List.length (int_repr (Z.of_nat i))) 4)
                   (seq 0 (Z.to_nat 10000)) = true)
    by (vm_compute; reflexivity).
  rewrite forallb_forall in Hall.
  specialize (Hall (Z.to_nat idx)).
  rewrite Z2Nat.id in Hall by lia.
  apply Nat.leb_le, Hall, in_seq. lia.
Qed.

Lemma table_rows_aligned (fs : list (pystr * pystr * pystr * pystr)) :
  forall idx,
    0 <= idx -> idx + Z.of_nat (List.length fs) <= 10000 ->
    Forall fits fs ->
    Forall (fun ln => List.length ln = 91%nat) (table_rows idx fs).
Proof.
  induction fs as [|[[[dp nt] td] dest] fs IH]; intros idx H0 Hn Hf;
    [constructor|].
  inversion Hf as [|? ? Hfit Hf']; subst. cbn [List.length] in Hn.
  cbn [table_rows]. constructor; [|constructor; [reflexivity|]].
  - rewrite table_row_length. unfold fits in Hfit.
    pose proof (int_repr_four_digits idx). lia.
  - apply IH; [lia | lia | exact Hf'].
Qed.

(** X14 (a table of short texts is straight).  When every train has the
    four keys with a [str] under each that fits its column, and there are
    at most 9999 trains, every line [print_trains] prints has the same
    length, 91 characters. *)
Theorem print_trains_aligned :
  forall (float_is_zero : pystr -> bool) (float_str : pystr -> pystr)
         (items : list pyval) (fs : list (pystr * pystr * pystr * pystr)),
    map fields_of items = map Some fs ->
    Forall fits fs ->
    1 <= Z.of_nat (List.length items) <= 9999 ->
    snd (print_trains float_is_zero float_str (PList items)) = Ok tt
    /\ Forall (fun ln => List.length ln = 91%nat)
         (fst (print_trains float_is_zero float_str (PList items))).
Proof.
  intros fz fstr items fs H Hf Hn.
  assert (Hlen : List.length fs = List.length items)
    by (rewrite <- (length_map Some fs), <- H, length_map; reflexivity).
  unfold print_trains. destruct items as [|t items]; [cbn in Hn; lia|].
  cbn [truth negb iterate].
  rewrite (print_rows_fields fstr (t :: items) 1 fs H). cbn [fst snd].
  split; [reflexivity|].
  repeat (constructor; [reflexivity|]).
  apply table_rows_aligned; [lia | lia | exact Hf].
Qed.

Lemma print_trains_aligned_witness :
  Forall fits [(lit "Moscow", lit "202", lit "08:00", lit "Samara");
               (lit "Moscow", lit "101", lit "09:15", lit "Kazan")]
  /\ Forall (fun ln => List.length ln = 91%nat)
       (fst (print_trains (fun _ => false) (fun l => l)
               (PList [moscow_samara; moscow_kazan]))).
Proof.
  assert (Hf : Forall fits
                 [(lit "Moscow", lit "202", lit "08:00", lit "Samara");
                  (lit "Moscow", lit "101", lit "09:15", lit "Kazan")])
    by (repeat constructor; cbn; lia).
  split; [exact Hf|].
  apply (print_trains_aligned (fun _ => false) (fun l => l)
           [moscow_samara; moscow_kazan]
           [(lit "Moscow", lit "202", lit "08:00", lit "Samara");
            (lit "Moscow", lit "101", lit "09:15", lit "Kazan")]
           eq_refl Hf).
  cbn. lia.
Defined.

(** ** The commands of [main] *)

Lemma lstrip_split (s : pystr) :
  exists gap, s = gap ++ lstrip s /\ Forall (fun c => is_space c = true) gap.
Proof.
  induction s as [|c s (gap & Hs & Hg)]; [exists []; split; constructor|].
  cbn [lstrip]. destruct (is_space c) eqn:Hc.
  - exists (c :: gap). split; [cbn [app]; congruence | constructor; assumption].
  - exists []. split; constructor.
Qed.

Lemma lstrip_head (s : pystr) (c : Z) (r : pystr) :
  lstrip s = c :: r -> is_space c = false.
Proof.
  induction s as [|c0 s IH]; [discriminate|]. cbn [lstrip].
  destruct (is_space c0) eqn:Hc; [exact IH|].
  intros H. inversion H; subst. exact Hc.
Qed.

Lemma lstrip_fixed (c : Z) (r : pystr) :
  is_space c = false -> lstrip (c :: r) = c :: r.
Proof. intros H. cbn [lstrip]. rewrite H. reflexivity. Qed.

Lemma lstrip_shorter (s : pystr) :
  (List.length (lstrip s) <= List.length s)%nat.
Proof.
  induction s as [|c s IH]; [apply Nat.le_refl|]. cbn [lstrip].
  destruct (is_space c); cbn [List.length]; lia.
Qed.

Lemma lstrip_fixed_inv (c : Z) (r : pystr) :
  lstrip (c :: r) = c :: r -> is_space c = false.
Proof.
  cbn [lstrip]. destruct (is_space c); [|reflexivity].
  intros H. pose proof (lstrip_shorter r) as Hl. rewrite H in Hl.
  cbn [List.length] in Hl. lia.
Qed.

Lemma span_word_app (word rest : pystr) (c : Z) :
  Forall (fun x => is_space x = false) word ->
  is_space c = true ->
  span_word (word ++ c :: rest) = (word, c :: rest).
Proof.
  intros Hw Hc. induction Hw as [|x word Hx _ IH].
  - cbn [app span_word]. rewrite Hc. reflexivity.
  - cbn [app span_word]. rewrite Hx, IH. reflexivity.
Qed.

(** After a first word and a space a command that [strip] leaves as it is
    has a second part: [parts[1]] exists, it is the rest of the command
    after the white space, it is not empty, and [strip] leaves it as it
    is. *)
Lemma second_part_after_word (x : Z) (word rest : pystr) :
  Forall (fun c => is_space c = false) (x :: word) ->
  strip (x :: word ++ 32 :: rest) = x :: word ++ 32 :: rest ->
  exists gap arg,
    second_part (x :: word ++ 32 :: rest) = Some arg
    /\ 32 :: rest = gap ++ arg
    /\ Forall (fun c => is_space c = true) gap
    /\ gap <> []
    /\ arg <> []
    /\ strip arg = arg.
Proof.
  intros Hw Hstrip.
  assert (Hx : is_space x = false) by (inversion Hw; assumption).
  unfold strip in Hstrip.
  change (x :: word ++ 32 :: rest) with ((x :: word) ++ 32 :: rest) in *.
  assert (H1 : lstrip ((x :: word) ++ 32 :: rest) = (x :: word) ++ 32 :: rest)
    by (cbn [app]; apply lstrip_fixed; exact Hx).
  rewrite H1 in Hstrip.
  assert (Hrev : lstrip (rev ((x :: word) ++ 32 :: rest))
                 = rev ((x :: word) ++ 32 :: rest)).
  { rewrite <- (rev_involutive (lstrip _)), Hstrip. reflexivity. }
  destruct (lstrip_split (32 :: rest)) as (gap & Hgap & Hspaces).
  destruct (lstrip (32 :: rest)) as [|c r] eqn:Harg.
  - exfalso. rewrite app_nil_r in Hgap.
    rewrite Hgap, rev_app_distr in Hrev.
    assert (Hg : gap <> []) by (rewrite <- Hgap; discriminate).
    destruct (rev gap) as [|g0 g] eqn:Hrg.
    + apply Hg. rewrite <- (rev_involutive gap), Hrg. reflexivity.
    + cbn [app] in Hrev. apply lstrip_fixed_inv in Hrev.
      assert (Hin : In g0 gap)
        by (apply in_rev; rewrite Hrg; left; reflexivity).
      rewrite Forall_forall in Hspaces. rewrite (Hspaces g0 Hin) in Hrev.
      discriminate.
  - exists gap, (c :: r).
    split; [|split; [exact Hgap|split; [exact Hspaces|split]]].
    + unfold second_part, split_maxsplit_1. rewrite H1.
      cbn [app]. change (x :: word ++ 32 :: rest)
        with ((x :: word) ++ 32 :: rest).
      rewrite (span_word_app (x :: word) rest 32 Hw eq_refl).
      rewrite Harg. reflexivity.
    + intros ->. cbn [app] in Hgap. inversion Hgap; subst.
      apply lstrip_head in Harg. discriminate.
    + split; [discriminate|].
      unfold strip. rewrite (lstrip_fixed c r (lstrip_head _ _ _ Harg)).
      rewrite Hgap, app_assoc, rev_app_distr in Hrev.
      destruct (rev (c :: r)) as [|l0 l] eqn:Hl.
      * apply (f_equal (@List.length Z)) in Hl. rewrite length_rev in Hl.
        discriminate.
      * cbn [app] in Hrev. apply lstrip_fixed_inv in Hrev.
        rewrite (lstrip_fixed l0 l Hrev), <- Hl. apply rev_involutive.
Qed.

Lemma dispatch_select (rest : pystr) :
  dispatch (c_select_ ++ rest)
  = match second_part (c_select_ ++ rest) with
    | Some point_user => inl (DoSelect point_user)
    | None => inr IndexError
    end.
Proof. destruct rest; reflexivity. Qed.

Lemma dispatch_load (rest : pystr) :
  dispatch (c_load_ ++ rest)
  = match second_part (c_load_ ++ rest) with
    | Some filename => inl (DoLoad filename)
    | None => inr IndexError
    end.
Proof. destruct rest; reflexivity. Qed.

Lemma dispatch_save (rest : pystr) :
  dispatch (c_save_ ++ rest)
  = match second_part (c_save_ ++ rest) with
    | Some filename => inl (DoSave filename)
    | None => inr IndexError
    end.
Proof. destruct rest; reflexivity. Qed.

(** X15 (the argument of a command is always there).  A command that
    [strip] leaves as it is and that starts with ["select "], ["load "] or
    ["save "] is recognised, [parts[1]] never fails, and the argument is
    the rest of the command after the white space: it is not empty,
    [strip] leaves it as it is, and what is between its words is kept. *)
Theorem dispatch_argument :
  forall cmd : pystr,
    strip cmd = cmd ->
    startswith cmd c_select_ = true \/ startswith cmd c_load_ = true
    \/ startswith cmd c_save_ = true ->
    exists arg gap,
      arg <> [] /\ strip arg = arg
      /\ Forall (fun c => is_space c = true) gap /\ gap <> []
      /\ ((cmd = lit "select" ++ gap ++ arg
           /\ dispatch cmd = inl (DoSelect arg))
          \/ (cmd = lit "load" ++ gap ++ arg
              /\ dispatch cmd = inl (DoLoad arg))
          \/ (cmd = lit "save" ++ gap ++ arg
              /\ dispatch cmd = inl (DoSave arg))).
Proof.
  intros cmd Hstrip [H | [H | H]]; apply startswith_spec in H;
    destruct H as [rest ->].
  - destruct (second_part_after_word 115 [101; 108; 101; 99; 116] rest)
      as (gap & arg & Hp & Hg & Hs & Hgne & Hne & Hsa);
      [repeat constructor | exact Hstrip |].
    assert (Hp' : second_part (c_select_ ++ rest) = Some arg) by exact Hp.
    exists arg, gap. split; [exact Hne|]. split; [exact Hsa|].
    split; [exact Hs|]. split; [exact Hgne|].
    left. split; [|rewrite dispatch_select, Hp'; reflexivity].
    change (c_select_ ++ rest)
      with ([115; 101; 108; 101; 99; 116] ++ 32 :: rest).
    rewrite Hg. reflexivity.
  - destruct (second_part_after_word 108 [111; 97; 100] rest)
      as (gap & arg & Hp & Hg & Hs & Hgne & Hne & Hsa);
      [repeat constructor | exact Hstrip |].
    assert (Hp' : second_part (c_load_ ++ rest) = Some arg) by exact Hp.
    exists arg, gap. split; [exact Hne|]. split; [exact Hsa|].
    split; [exact Hs|]. split; [exact Hgne|].
    right. left. split; [|rewrite dispatch_load, Hp'; reflexivity].
    change (c_load_ ++ rest) with ([108; 111; 97; 100] ++ 32 :: rest).
    rewrite Hg. reflexivity.
  - destruct (second_part_after_word 115 [97; 118; 101] rest)
      as (gap & arg & Hp & Hg & Hs & Hgne & Hne & Hsa);
      [repeat constructor | exact Hstrip |].
    assert (Hp' : second_part (c_save_ ++ rest) = Some arg) by exact Hp.
    exists arg, gap. split; [exact Hne|]. split; [exact Hsa|].
    split; [exact Hs|]. split; [exact Hgne|].
    right. right. split; [|rewrite dispatch_save, Hp'; reflexivity].
    change (c_save_ ++ rest) with ([115; 97; 118; 101] ++ 32 :: rest).
    rewrite Hg. reflexivity.
Qed.

Lemma dispatch_argument_witness :
  strip (lit "save my trains") = lit "save my trains"
  /\ exists arg gap,
       arg <> [] /\ strip arg = arg
       /\ Forall (fun c => is_space c = true) gap /\ gap <> []
       /\ ((lit "save my trains" = lit "select" ++ gap ++ arg
            /\ dispatch (lit "save my trains") = inl (DoSelect arg))
           \/ (lit "save my trains" = lit "load" ++ gap ++ arg
               /\ dispatch (lit "save my trains") = inl (DoLoad arg))
           \/ (lit "save my trains" = lit "save" ++ gap ++ arg
               /\ dispatch (lit "save my trains") = inl (DoSave arg))).
Proof.
  split; [reflexivity|].
  apply (dispatch_argument (lit "save my trains")); [reflexivity|].
  right. right. reflexivity.
Defined.

(** ** The loop of [main] *)

Ltac session_simpl :=
  unfold finish, handle, raised_str, after_call, say, say_error, note,
    world_of, logging;
  cbn [manager disk journal stdin stdout stderr files log map fst snd app];
  rewrite <- ?app_assoc;
  cbn [manager disk journal stdin stdout stderr files log map fst snd app].

Section Loop.

Variable str_lower : pystr -> pystr.
Variable float_repr : pystr -> pystr.
Variable float_is_zero : pystr -> bool.
Variable float_str : pystr -> pystr.
Variable exc_str : exn -> pystr.
Variable interrupted_sort : list pyval -> list pyval.
Variable interrupted_dump : pyval -> bytes.
Variable log_file : list (severity * pystr) -> bytes.

(** X16 (the end of the input does not end the program).  Once standard
    input is at its end, every turn of the loop writes the prompt, logs
    the [EOFError] and reports it on standard error, changes neither the
    manager nor the files, and goes on to the next turn: the loop does
    not stop. *)
Theorem run_at_end_of_input :
  forall (turns : nat) (s : Session),
    stdin s = [] ->
    run str_lower float_repr float_is_zero float_str exc_str
      interrupted_sort interrupted_dump log_file turns s
    = Continue
        {| manager := manager s; disk := disk s;
           journal := journal s
                      ++ repeat (ERROR, msg_error_log ++ msg_eof_error) turns;
           stdin := [];
           stdout := stdout s ++ repeat prompt turns;
           stderr := stderr s
                     ++ repeat (msg_error ++ msg_eof_error ++ [10]) turns |}.
Proof.
  induction turns as [|turns IH]; intros s Hs.
  - cbn [run repeat]. rewrite !app_nil_r, <- Hs. destruct s; reflexivity.
  - cbn [run]. unfold loop_body, input. rewrite Hs. cbn [hd_error tl].
    rewrite IH by reflexivity.
    unfold handle, raised_str, say_error, note.
    cbn [manager disk journal stdin stdout stderr].
    rewrite <- !app_assoc.
    change (repeat ?x (S turns)) with (x :: repeat x turns).
    reflexivity.
Qed.

Lemma dispatch_unknown (cmd : pystr) :
  str_eqb cmd c_exit = false -> str_eqb cmd c_add = false ->
  str_eqb cmd c_list = false -> str_eqb cmd c_help = false ->
  startswith cmd c_select_ = false -> startswith cmd c_load_ = false ->
  startswith cmd c_save_ = false ->
  dispatch cmd = inr (Unknown (unknown_command cmd)).
Proof.
  intros H1 H2 H3 H4 H5 H6 H7. unfold dispatch.
  rewrite H1, H2, H3, H4, H5, H6, H7. reflexivity.
Qed.

(** X17 (a command the program does not know).  When the line read,
    stripped and lower-cased, is none of [exit], [add], [list] and [help]
    and starts with none of ["select "], ["load "] and ["save "], the turn
    changes neither the manager nor the files, logs the command and the
    error ["<command> -> Неизвестная команда"], writes the error to
    standard error, and the loop goes on. *)
Theorem loop_body_unknown_command :
  forall (s : Session) (line : pystr) (rest : list pystr),
    stdin s = line :: rest ->
    str_eqb (str_lower (strip line)) c_exit = false ->
    str_eqb (str_lower (strip line)) c_add = false ->
    str_eqb (str_lower (strip line)) c_list = false ->
    str_eqb (str_lower (strip line)) c_help = false ->
    startswith (str_lower (strip line)) c_select_ = false ->
    startswith (str_lower (strip line)) c_load_ = false ->
    startswith (str_lower (strip line)) c_save_ = false ->
    loop_body str_lower float_repr float_is_zero float_str exc_str
      interrupted_sort interrupted_dump log_file s
    = Continue
        {| manager := manager s; disk := disk s;
           journal :=
             journal s
             ++ [(Level INFO,
                  msg_command_1 ++ str_lower (strip line) ++ msg_command_2);
                 (ERROR,
                  msg_error_log ++ str_lower (strip line) ++ lit " -> "
                  ++ msg_unknown)];
           stdin := rest;
           stdout := stdout s ++ [prompt];
           stderr :=
             stderr s
             ++ [(msg_error ++ str_lower (strip line) ++ lit " -> "
                  ++ msg_unknown) ++ [10]] |}.
Proof.
  intros s line rest Hs H1 H2 H3 H4 H5 H6 H7.
  unfold loop_body, input. rewrite Hs. cbn [hd_error tl].
  rewrite (dispatch_unknown _ H1 H2 H3 H4 H5 H6 H7).
  unfold handle, raised_str, say_error, note, UnknownCommandError_str,
    unknown_command.
  cbn [manager disk journal stdin stdout stderr command message].
  change (lit " -> ") with [32; 45; 62; 32].
  rewrite <- !app_assoc. reflexivity.
Qed.

Lemma dispatch_exit_only (cmd : pystr) :
  dispatch cmd = inl DoExit -> cmd = c_exit.
Proof.
  unfold dispatch. destruct (str_eqb cmd c_exit) eqn:E;
    [intros _; apply str_eqb_eq; exact E|].
  repeat match goal with
         | |- context [if ?b then _ else _] => destruct b
         | |- context [match second_part ?c with _ => _ end] =>
             destruct (second_part c)
         end; discriminate.
Qed.

Lemma finish_no_stop (o : outcome unit) (done : pystr)
  (broken s s' : Session) :
  finish exc_str o done broken s <> Stop s'.
Proof. destruct o; discriminate. Qed.

Lemma do_add_no_stop (s s' : Session) :
  do_add exc_str interrupted_sort s <> Stop s'.
Proof.
  unfold do_add, input.
  repeat match goal with
         | |- context [hd_error ?l] => destruct l; cbn [hd_error tl stdin]
         end; try discriminate.
  apply finish_no_stop.
Qed.

Lemma do_list_no_stop (s s' : Session) :
  do_list float_is_zero float_str exc_str s <> Stop s'.
Proof.
  unfold do_list.
  destruct (show float_is_zero float_str (list_trains (manager s)) s)
    as [[?|?] ?]; [|discriminate].
  destruct (py_len (list_trains (manager s))); discriminate.
Qed.

Lemma do_select_no_stop (p : pystr) (s s' : Session) :
  do_select str_lower float_is_zero float_str exc_str p s <> Stop s'.
Proof.
  unfold do_select.
  destruct (select_trains str_lower (manager s) p (world_of s));
    try discriminate.
  destruct (show float_is_zero float_str (PList a) (after_call self w s))
    as [[?|?] ?]; discriminate.
Qed.

(** X18 (only [exit] ends the loop).  When a turn of the loop ends in the
    [break], the line it read, stripped and lower-cased, is [exit]; the
    manager and the files are as before, the end is logged and
    announced.  No error and no other command ends the loop. *)
Theorem loop_body_stops_on_exit_only :
  forall s s' : Session,
    loop_body str_lower float_repr float_is_zero float_str exc_str
      interrupted_sort interrupted_dump log_file s
    = Stop s' ->
    exists line rest,
      stdin s = line :: rest
      /\ str_lower (strip line) = c_exit
      /\ manager s' = manager s /\ disk s' = disk s /\ stdin s' = rest
      /\ journal s'
         = journal s
           ++ [(Level INFO, msg_command_1 ++ c_exit ++ msg_command_2);
               (Level INFO, msg_exit_log)]
      /\ stdout s' = stdout s ++ [prompt; msg_exit ++ [10]].
Proof.
  intros s s'. unfold loop_body, input.
  destruct (stdin s) as [|line rest] eqn:Hs; cbn [hd_error tl];
    [discriminate|].
  destruct (dispatch (str_lower (strip line))) as [[| | |p|f|f|]|e] eqn:D;
    intros H.
  - apply dispatch_exit_only in D. inversion H; subst s'. clear H.
    exists line, rest. rewrite D. session_simpl. repeat split.
  - exfalso. eapply do_add_no_stop; eauto.
  - exfalso. eapply do_list_no_stop; eauto.
  - exfalso. eapply do_select_no_stop; eauto.
  - exfalso. destruct (str_eqb f log_name).
    + unfold do_load_log in H. destruct (load_from_json _ _ _) in H;
        discriminate.
    + eapply finish_no_stop; eauto.
  - exfalso. eapply finish_no_stop; eauto.
  - discriminate.
  - discriminate.
Qed.

(** X19 (a load that loads nothing is reported as done).  On a [load]
    command that names no file, the manager and the files stay as they
    are and the warning of [load_from_json] is logged, and still the
    program prints that the data were loaded from that file. *)
Theorem loop_body_load_missing :
  forall (s : Session) (line : pystr) (rest : list pystr) (filename : pystr),
    stdin s = line :: rest ->
    dispatch (str_lower (strip line)) = inl (DoLoad filename) ->
    str_eqb filename log_name = false ->
    disk s filename = None ->
    loop_body str_lower float_repr float_is_zero float_str exc_str
      interrupted_sort interrupted_dump log_file s
    = Continue
        {| manager := manager s; disk := disk s;
           journal :=
             journal s
             ++ [(Level INFO,
                  msg_command_1 ++ str_lower (strip line) ++ msg_command_2);
                 (Level WARNING,
                  msg_missing_1 ++ filename ++ msg_missing_2)];
           stdin := rest;
           stdout :=
             stdout s
             ++ [prompt;
                 (msg_load_done_1 ++ filename ++ msg_done_2) ++ [10]];
           stderr := stderr s |}.
Proof.
  intros s line rest filename Hs Hd Hlog Hnone.
  unfold loop_body, input. rewrite Hs. cbn [hd_error tl].
  rewrite Hd, Hlog. unfold load_from_json.
  cbn [world_of files note manager disk journal stdin stdout stderr].
  rewrite Hnone. session_simpl. reflexivity.
Qed.

(** X20 (a save is reported under the name before its completion).  On a
    [save] command whose text gets through the codec, the file is written
    under the completed name and [save_to_json] logs that name, while the
    program prints the argument of the command without the completion:
    the name as [main] holds it, that is, as it stands in the line once
    stripped and lower-cased.  The manager is as before and no other file
    is touched. *)
Theorem loop_body_save :
  forall (s : Session) (line : pystr) (rest : list pystr) (filename : pystr)
         (content : bytes),
    stdin s = line :: rest ->
    dispatch (str_lower (strip line)) = inl (DoSave filename) ->
    utf8_encode (json_dumps float_repr (trains (manager s))) = Ok content ->
    exists s',
      loop_body str_lower float_repr float_is_zero float_str exc_str
        interrupted_sort interrupted_dump log_file s
      = Continue s'
      /\ manager s' = manager s
      /\ disk s' (save_path filename) = Some content
      /\ (forall p, p <> save_path filename -> disk s' p = disk s p)
      /\ journal s'
         = journal s
           ++ [(Level INFO,
                msg_command_1 ++ str_lower (strip line) ++ msg_command_2);
               (Level INFO,
                msg_saved_1 ++ save_path filename ++ msg_saved_2)]
      /\ stdout s'
         = stdout s
           ++ [prompt; (msg_save_done_1 ++ filename ++ msg_done_2) ++ [10]]
      /\ stderr s' = stderr s.
Proof.
  intros s line rest filename content Hs Hd Henc.
  unfold loop_body, input. rewrite Hs. cbn [hd_error tl].
  rewrite Hd.
  cbn [world_of note manager disk journal stdin stdout stderr].
  rewrite (save_to_json_returns float_repr (manager s) filename _ content Henc).
  eexists. split; [reflexivity|]. session_simpl.
  split; [reflexivity|]. split; [rewrite str_eqb_refl; reflexivity|].
  split; [intros p Hp; apply str_eqb_neq in Hp; rewrite Hp; reflexivity|].
  repeat split.
Qed.

End Loop.

Lemma loop_body_unknown_command_witness :
  loop_body ascii_lower (fun l => l) (fun _ => false) (fun l => l)
    (fun _ => [])
    (fun l => l) (fun _ => []) (fun _ => [])
    (start (fun _ => None) [lit "  Exit now "; lit "exit"])
  = Continue
      {| manager := init; disk := fun _ => None;
         journal :=
           [(Level INFO, msg_started)]
           ++ [(Level INFO,
                msg_command_1 ++ lit "exit now" ++ msg_command_2);
               (ERROR,
                msg_error_log ++ lit "exit now" ++ lit " -> "
                ++ msg_unknown)];
         stdin := [lit "exit"];
         stdout := [] ++ [prompt];
         stderr :=
           [] ++ [(msg_error ++ lit "exit now" ++ lit " -> " ++ msg_unknown)
                  ++ [10]] |}.
Proof.
  apply (loop_body_unknown_command ascii_lower (fun l => l) (fun _ => false)
           (fun l => l) (fun _ => [])
           (fun l => l) (fun _ => []) (fun _ => [])
           (start (fun _ => None) [lit "  Exit now "; lit "exit"])
           (lit "  Exit now ") [lit "exit"]); reflexivity.
Defined.

Lemma run_at_end_of_input_witness :
  run ascii_lower (fun l => l) (fun _ => false) (fun l => l) (fun _ => [])
    (fun l => l) (fun _ => []) (fun _ => [])
    3 (start (fun _ => None) [])
  = Continue
      {| manager := init; disk := fun _ => None;
         journal := [(Level INFO, msg_started)]
                    ++ repeat (ERROR, msg_error_log ++ msg_eof_error) 3;
         stdin := [];
         stdout := [] ++ repeat prompt 3;
         stderr := [] ++ repeat (msg_error ++ msg_eof_error ++ [10]) 3 |}.
Proof.
  apply (run_at_end_of_input ascii_lower (fun l => l) (fun _ => false)
           (fun l => l) (fun _ => [])
           (fun l => l) (fun _ => []) (fun _ => [])
           3 (start (fun _ => None) [])).
  reflexivity.
Defined.

Lemma loop_body_stops_on_exit_only_witness :
  loop_body ascii_lower (fun l => l) (fun _ => false) (fun l => l)
    (fun _ => [])
    (fun l => l) (fun _ => []) (fun _ => [])
    (start (fun _ => None) [lit " EXIT "])
  = Stop (say msg_exit
            (note (Level INFO) msg_exit_log
               (note (Level INFO) (msg_command_1 ++ c_exit ++ msg_command_2)
                  {| manager := init; disk := fun _ => None;
                     journal := [(Level INFO, msg_started)];
                     stdin := []; stdout := [prompt]; stderr := [] |})))
  /\ exists line rest,
       [lit " EXIT "] = line :: rest /\ ascii_lower (strip line) = c_exit.
Proof.
  assert (H : loop_body ascii_lower (fun l => l) (fun _ => false)
                (fun l => l) (fun _ => [])
                (fun l => l) (fun _ => []) (fun _ => [])
                (start (fun _ => None) [lit " EXIT "])
              = Stop (say msg_exit
                        (note (Level INFO) msg_exit_log
                           (note (Level INFO)
                              (msg_command_1 ++ c_exit ++ msg_command_2)
                              {| manager := init; disk := fun _ => None;
                                 journal := [(Level INFO, msg_started)];
                                 stdin := []; stdout := [prompt];
                                 stderr := [] |}))))
    by reflexivity.
  split; [exact H|].
  destruct (loop_body_stops_on_exit_only ascii_lower (fun l => l)
              (fun _ => false) (fun l => l) (fun _ => [])
              (fun l => l) (fun _ => []) (fun _ => []) _ _ H)
    as (line & rest & Hs & Hc & _).
  exists line, rest. split; assumption.
Defined.

Lemma loop_body_load_missing_witness :
  loop_body ascii_lower (fun l => l) (fun _ => false) (fun l => l)
    (fun _ => [])
    (fun l => l) (fun _ => []) (fun _ => [])
    (start (fun _ => None) [lit "load Nothing.json"])
  = Continue
      {| manager := init; disk := fun _ => None;
         journal :=
           [(Level INFO, msg_started)]
           ++ [(Level INFO,
                msg_command_1 ++ ascii_lower (strip (lit "load Nothing.json"))
                ++ msg_command_2);
               (Level WARNING,
                msg_missing_1 ++ lit "nothing.json" ++ msg_missing_2)];
         stdin := [];
         stdout :=
           [] ++ [prompt;
                  (msg_load_done_1 ++ lit "nothing.json" ++ msg_done_2)
                  ++ [10]];
         stderr := [] |}.
Proof.
  apply (loop_body_load_missing ascii_lower (fun l => l) (fun _ => false)
           (fun l => l) (fun _ => [])
           (fun l => l) (fun _ => []) (fun _ => [])
           (start (fun _ => None) [lit "load Nothing.json"])
           (lit "load Nothing.json") [] (lit "nothing.json"));
    reflexivity.
Defined.

Lemma loop_body_save_witness :
  utf8_encode (json_dumps (fun l => l) (trains init)) = Ok (file_text "[]")
  /\ exists s',
       loop_body ascii_lower (fun l => l) (fun _ => false) (fun l => l)
         (fun _ => [])
         (fun l => l) (fun _ => []) (fun _ => [])
         (start (fun _ => None) [lit "save Data"])
       = Continue s'
       /\ disk s' (lit "data.json") = Some (file_text "[]")
       /\ stdout s'
          = [] ++ [prompt;
                   (msg_save_done_1 ++ lit "data" ++ msg_done_2) ++ [10]].
Proof.
  assert (He : utf8_encode (json_dumps (fun l => l) (trains init))
               = Ok (file_text "[]")) by reflexivity.
  split; [exact He|].
  destruct (loop_body_save ascii_lower (fun l => l) (fun _ => false)
              (fun l => l) (fun _ => [])
              (fun l => l) (fun _ => []) (fun _ => [])
              (start (fun _ => None) [lit "save Data"])
              (lit "save Data") [] (lit "data") (file_text "[]")
              eq_refl eq_refl He)
    as (s' & Hrun & _ & Hdisk & _ & _ & Hout & _).
  exists s'. split; [exact Hrun|]. split; [exact Hdisk | exact Hout].
Defined.

(** A session from start to [exit]. *)
Example session_add_list_exit :
  exists s,
    run ascii_lower (fun l => l) (fun _ => false) (fun l => l) (fun _ => [])
      (fun l => l) (fun _ => []) (fun _ => [])
      5 (start (fun _ => None)
           [lit "add"; lit "Moscow"; lit "101"; lit "09:15"; lit "Kazan";
            lit "LIST"; lit "exit"])
    = Stop s
    /\ manager s = {| trains := PList [moscow_kazan] |}
    /\ stderr s = []
    /\ In (table_row 1 (lit "Moscow") (lit "101") (lit "09:15") (lit "Kazan")
           ++ [10]) (stdout s).
Proof.
  eexists. split; [vm_compute; reflexivity|].
  split; [vm_compute; reflexivity|]. split; [vm_compute; reflexivity|].
  vm_compute. do 10 right. left. reflexivity.
Qed.

(** ** The commands of [main], one by one *)

Lemma print_trains_fields (float_is_zero : pystr -> bool)
  (float_str : pystr -> pystr) (items : list pyval)
  (fs : list (pystr * pystr * pystr * pystr)) :
  map fields_of items = map Some fs ->
  print_trains float_is_zero float_str (PList items) = (table_of fs, Ok tt).
Proof.
  intros H. unfold print_trains.
  destruct items as [|t items]; destruct fs as [|f fs]; try discriminate;
    [reflexivity|].
  cbn [truth negb iterate table_of].
  rewrite (print_rows_fields float_str (t :: items) 1 (f :: fs) H).
  reflexivity.
Qed.

Lemma fields_of_destination (t : pyval) (dp nt td dest : pystr) :
  fields_of t = Some (dp, nt, td, dest) -> destination_of t = Some dest.
Proof.
  unfold fields_of, destination_of, getitem.
  destruct t as [| | | | | |d]; try discriminate.
  destruct (dict_get k_departure_point d) as [[| | | |s1| |]|];
    try discriminate.
  destruct (dict_get k_number_train d) as [[| | | |s2| |]|];
    try discriminate.
  destruct (dict_get k_time_departure d) as [[| | | |s3| |]|];
    try discriminate.
  destruct (dict_get k_destination d) as [[| | | |s4| |]|];
    try discriminate.
  intros H. inversion H. reflexivity.
Qed.

Lemma fields_of_filter (str_lower : pystr -> pystr) (q : pystr)
  (items : list pyval) :
  forall fs,
    map fields_of items = map Some fs ->
    map fields_of (filter (dest_matches str_lower q) items)
    = map Some (filter (field_matches str_lower q) fs)
    /\ Forall (fun t => destination_of t <> None) items.
Proof.
  induction items as [|t items IH]; intros fs H;
    destruct fs as [|[[[dp nt] td] dest] fs]; try discriminate;
    [split; [reflexivity | constructor]|].
  cbn [map] in H. inversion H as [[Ht Hrest]].
  destruct (IH fs Hrest) as [IH1 IH2].
  pose proof (fields_of_destination t dp nt td dest Ht) as Hd.
  split.
  - cbn [filter]. unfold dest_matches at 1. rewrite Hd.
    unfold field_matches at 1.
    destruct (str_eqb (str_lower dest) (str_lower q)); cbn [map].
    + rewrite Ht, IH1. reflexivity.
    + exact IH1.
  - constructor; [congruence | exact IH2].
Qed.

Lemma dispatch_add_only (cmd : pystr) :
  dispatch cmd = inl DoAdd -> cmd = c_add.
Proof.
  unfold dispatch. destruct (str_eqb cmd c_exit); [discriminate|].
  destruct (str_eqb cmd c_add) eqn:E;
    [intros _; apply str_eqb_eq; exact E|].
  repeat match goal with
         | |- context [if ?b then _ else _] => destruct b
         | |- context [match second_part ?c with _ => _ end] =>
             destruct (second_part c)
         end; discriminate.
Qed.

Lemma dispatch_load_only (cmd filename : pystr) :
  dispatch cmd = inl (DoLoad filename) -> startswith cmd c_load_ = true.
Proof.
  unfold dispatch.
  destruct (str_eqb cmd c_exit); [discriminate|].
  destruct (str_eqb cmd c_add); [discriminate|].
  destruct (str_eqb cmd c_list); [discriminate|].
  destruct (startswith cmd c_select_);
    [destruct (second_part cmd); discriminate|].
  destruct (startswith cmd c_load_); [reflexivity|].
  destruct (startswith cmd c_save_);
    [destruct (second_part cmd); discriminate|].
  destruct (str_eqb cmd c_help); discriminate.
Qed.

Lemma dispatch_save_only (cmd filename : pystr) :
  dispatch cmd = inl (DoSave filename) -> startswith cmd c_save_ = true.
Proof.
  unfold dispatch.
  destruct (str_eqb cmd c_exit); [discriminate|].
  destruct (str_eqb cmd c_add); [discriminate|].
  destruct (str_eqb cmd c_list); [discriminate|].
  destruct (startswith cmd c_select_);
    [destruct (second_part cmd); discriminate|].
  destruct (startswith cmd c_load_);
    [destruct (second_part cmd); discriminate|].
  destruct (startswith cmd c_save_); [reflexivity|].
  destruct (str_eqb cmd c_help); discriminate.
Qed.

Section Commands.

Variable str_lower : pystr -> pystr.
Variable float_repr : pystr -> pystr.
Variable float_is_zero : pystr -> bool.
Variable float_str : pystr -> pystr.
Variable exc_str : exn -> pystr.
Variable interrupted_sort : list pyval -> list pyval.
Variable interrupted_dump : pyval -> bytes.
Variable log_file : list (severity * pystr) -> bytes.

(** X21 (the [add] command).  On [add] followed by four lines, when the
    list holds records that all carry a [str] departure time, the four
    lines are stored as they were typed, neither stripped nor lower-cased,
    the list is left sorted by departure time, the four prompts and the
    confirmation are written, and the command and the insertion are
    logged. *)
Theorem loop_body_add :
  forall (s : Session) (line dp nt td dest : pystr) (rest : list pystr)
         (l : list pyval),
    stdin s = line :: dp :: nt :: td :: dest :: rest ->
    str_lower (strip line) = c_add ->
    trains (manager s) = PList l ->
    Forall (fun t => time_departure_of t <> None) l ->
    exists l2,
      loop_body str_lower float_repr float_is_zero float_str exc_str
        interrupted_sort interrupted_dump log_file s
      = Continue
          {| manager := {| trains := PList l2 |}; disk := disk s;
             journal :=
               journal s
               ++ [(Level INFO, msg_command_1 ++ c_add ++ msg_command_2);
                   (Level INFO,
                    msg_added_1 ++ dp ++ msg_added_2 ++ nt ++ msg_added_3
                    ++ td ++ msg_added_4 ++ dest)];
             stdin := rest;
             stdout :=
               stdout s
               ++ prompt :: add_prompts ++ [msg_train_added ++ [10]];
             stderr := stderr s |}
      /\ Permutation (l ++ [train_dict dp nt td dest]) l2
      /\ sorted_by_time l2.
Proof.
  intros s line dp nt td dest rest l Hs Hc Hl Ht.
  unfold loop_body, input. rewrite Hs. cbn [hd_error tl]. rewrite !Hc.
  change (dispatch c_add) with (@inl action dispatch_error DoAdd).
  cbv beta iota. unfold do_add, input, note.
  cbn [manager disk journal stdin stdout stderr hd_error tl].
  match goal with
  | |- context [add_train ?m dp nt td dest ?w] =>
      destruct (add_train_timed m l dp nt td dest w Hl Ht)
        as (l2 & Hadd & Hperm & Hsorted & _)
  end.
  exists l2. split; [|split; assumption].
  rewrite Hadd. session_simpl. reflexivity.
Qed.

(** X22 (an [add] cut short).  When the input ends before the fourth of
    the lines [add] asks for, no train is added: the lines read are lost,
    the manager and the files are as before, and the [EOFError] is logged
    and reported after one prompt more than there were lines. *)
Theorem loop_body_add_end_of_input :
  forall (s : Session) (line : pystr) (fields : list pystr),
    stdin s = line :: fields ->
    str_lower (strip line) = c_add ->
    (List.length fields < 4)%nat ->
    loop_body str_lower float_repr float_is_zero float_str exc_str
      interrupted_sort interrupted_dump log_file s
    = Continue
        {| manager := manager s; disk := disk s;
           journal :=
             journal s
             ++ [(Level INFO, msg_command_1 ++ c_add ++ msg_command_2);
                 (ERROR, msg_error_log ++ msg_eof_error)];
           stdin := [];
           stdout :=
             stdout s
             ++ prompt :: firstn (S (List.length fields)) add_prompts;
           stderr := stderr s ++ [(msg_error ++ msg_eof_error) ++ [10]] |}.
Proof.
  intros s line fields Hs Hc Hn.
  unfold loop_body, input. rewrite Hs. cbn [hd_error tl]. rewrite !Hc.
  change (dispatch c_add) with (@inl action dispatch_error DoAdd).
  cbv beta iota. unfold do_add, input, note.
  cbn [manager disk journal stdin stdout stderr hd_error tl].
  destruct fields as [|f1 [|f2 [|f3 [|f4 fields]]]];
    try (cbn [List.length] in Hn; lia);
    cbn [hd_error tl]; session_simpl; reflexivity.
Qed.

(** X23 (the [list] command).  On [list], when the trains have the four
    keys with a [str] under each, the table of all of them is printed (or
    the message about an empty list), their number is logged, and the
    manager and the files are as before. *)
Theorem loop_body_list :
  forall (s : Session) (line : pystr) (rest : list pystr)
         (items : list pyval) (fs : list (pystr * pystr * pystr * pystr)),
    stdin s = line :: rest ->
    str_lower (strip line) = c_list ->
    trains (manager s) = PList items ->
    map fields_of items = map Some fs ->
    loop_body str_lower float_repr float_is_zero float_str exc_str
      interrupted_sort interrupted_dump log_file s
    = Continue
        {| manager := manager s; disk := disk s;
           journal :=
             journal s
             ++ [(Level INFO, msg_command_1 ++ c_list ++ msg_command_2);
                 (Level INFO,
                  msg_listed_1 ++ int_repr (Z.of_nat (List.length items))
                  ++ msg_listed_2)];
           stdin := rest;
           stdout :=
             stdout s
             ++ prompt :: map (fun ln => ln ++ [10]) (table_of fs);
           stderr := stderr s |}.
Proof.
  intros s line rest items fs Hs Hc Hl Hf.
  unfold loop_body, input. rewrite Hs. cbn [hd_error tl]. rewrite !Hc.
  change (dispatch c_list) with (@inl action dispatch_error DoList).
  cbv beta iota. unfold do_list, show, list_trains, note.
  cbn [manager disk journal stdin stdout stderr]. rewrite Hl.
  rewrite (print_trains_fields float_is_zero float_str items fs Hf).
  cbn [py_len]. session_simpl. reflexivity.
Qed.

(** X24 (the [select] command).  On [select] with an argument, when the
    trains have the four keys with a [str] under each, the table printed
    is that of the trains whose destination, lower-cased, equals the
    argument lower-cased, numbered anew from 1 in list order; the query
    and the number found are logged, and the manager and the files are as
    before. *)
Theorem loop_body_select :
  forall (s : Session) (line point_user : pystr) (rest : list pystr)
         (items : list pyval) (fs : list (pystr * pystr * pystr * pystr)),
    stdin s = line :: rest ->
    dispatch (str_lower (strip line)) = inl (DoSelect point_user) ->
    trains (manager s) = PList items ->
    map fields_of items = map Some fs ->
    loop_body str_lower float_repr float_is_zero float_str exc_str
      interrupted_sort interrupted_dump log_file s
    = Continue
        {| manager := manager s; disk := disk s;
           journal :=
             journal s
             ++ [(Level INFO,
                  msg_command_1 ++ str_lower (strip line) ++ msg_command_2);
                 (Level INFO,
                  msg_select_1 ++ str_lower point_user ++ msg_select_2
                  ++ int_repr
                       (Z.of_nat
                          (List.length
                             (filter (field_matches str_lower point_user)
                                fs)))
                  ++ msg_select_3)];
           stdin := rest;
           stdout :=
             stdout s
             ++ prompt
                :: map (fun ln => ln ++ [10])
                     (table_of (filter (field_matches str_lower point_user)
                                  fs));
           stderr := stderr s |}.
Proof.
  intros s line q rest items fs Hs Hd Hl Hf.
  destruct (fields_of_filter str_lower q items fs Hf) as [Hsel Hdest].
  unfold loop_body, input. rewrite Hs. cbn [hd_error tl]. rewrite Hd.
  unfold do_select, select_trains, note.
  cbn [manager disk journal stdin stdout stderr world_of]. rewrite Hl.
  cbn [iterate]. rewrite (select_loop_filter str_lower q items Hdest).
  unfold show.
  rewrite (print_trains_fields float_is_zero float_str _ _ Hsel).
  assert (Hlen : List.length (filter (dest_matches str_lower q) items)
                 = List.length (filter (field_matches str_lower q) fs)).
  { rewrite <- (length_map fields_of), Hsel, length_map. reflexivity. }
  rewrite Hlen. session_simpl. reflexivity.
Qed.

(** ** What a turn of the loop leaves alone *)

Lemma add_train_frame (self : TrainManager) (dp nt td dest : pystr)
  (w : World) :
  match add_train self dp nt td dest w with
  | Returns _ _ w' | Raises _ _ w' =>
      files w' = files w /\ exists added, log w' = log w ++ added
  | Interrupted _ => True
  end.
Proof.
  unfold add_train. destruct (trains self);
    try (split; [reflexivity | exists []; symmetry; apply app_nil_r]).
  destruct (sort_by_time_departure _); [| |exact I].
  - split; [reflexivity | eexists; reflexivity].
  - split; [reflexivity | exists []; symmetry; apply app_nil_r].
Qed.

Lemma select_trains_frame (self : TrainManager) (q : pystr) (w : World) :
  match select_trains str_lower self q w with
  | Returns _ self' w' | Raises _ self' w' =>
      self' = self /\ files w' = files w
      /\ exists added, log w' = log w ++ added
  | Interrupted _ => True
  end.
Proof.
  unfold select_trains. destruct (iterate (trains self));
    [|repeat split; exists []; symmetry; apply app_nil_r].
  destruct (select_loop _ _ _);
    [|repeat split; exists []; symmetry; apply app_nil_r].
  repeat split. eexists; reflexivity.
Qed.

Lemma load_from_json_frame (self : TrainManager) (filename : pystr)
  (w : World) :
  match load_from_json self filename w with
  | Returns _ _ w' | Raises _ _ w' =>
      files w' = files w /\ exists added, log w' = log w ++ added
  | Interrupted _ => True
  end.
Proof.
  unfold load_from_json. destruct (files w filename);
    [|split; [reflexivity | eexists; reflexivity]].
  destruct (json_load _).
  - split; [reflexivity | eexists; reflexivity].
  - split; [reflexivity | exists []; symmetry; apply app_nil_r].
Qed.

Lemma save_to_json_frame (self : TrainManager) (filename : pystr)
  (w : World) :
  match save_to_json float_repr self filename w with
  | Returns _ self' w' | Raises _ self' w' =>
      self' = self
      /\ (forall p, p <> save_path filename -> files w' p = files w p)
      /\ exists added, log w' = log w ++ added
  | Interrupted _ => True
  end.
Proof.
  unfold save_to_json. destruct (utf8_encode _); [|exact I].
  split; [reflexivity|]. split; [|eexists; reflexivity].
  intros p Hp. cbn [logging write_file files].
  apply str_eqb_neq in Hp. rewrite Hp. reflexivity.
Qed.

End Commands.

Lemma continues_refl (s : Session) : continues s s.
Proof.
  repeat split; [exists [] | exists [] | exists [] | exists 0%nat];
    try (symmetry; apply app_nil_r); reflexivity.
Qed.

Lemma continues_trans (s1 s2 s3 : Session) :
  continues s1 s2 -> continues s2 s3 -> continues s1 s3.
Proof.
  intros ((a1 & H1) & (o1 & H2) & (e1 & H3) & (n1 & H4))
         ((a2 & K1) & (o2 & K2) & (e2 & K3) & (n2 & K4)).
  repeat split.
  - exists (a1 ++ a2). rewrite K1, H1, app_assoc. reflexivity.
  - exists (o1 ++ o2). rewrite K2, H2, app_assoc. reflexivity.
  - exists (e1 ++ e2). rewrite K3, H3, app_assoc. reflexivity.
  - exists (n1 + n2)%nat. rewrite K4, H4, skipn_skipn, Nat.add_comm.
    reflexivity.
Qed.

Lemma continues_one (s s' : Session) (added : list (severity * pystr))
  (out err : list pystr) (n : nat) :
  journal s' = journal s ++ added -> stdout s' = stdout s ++ out ->
  stderr s' = stderr s ++ err -> stdin s' = skipn n (stdin s) ->
  forall s0, continues s0 s -> continues s0 s'.
Proof.
  intros H1 H2 H3 H4 s0 H. eapply continues_trans; [exact H|].
  repeat split; eauto.
Qed.

Lemma continues_say (t : pystr) (s0 s : Session) :
  continues s0 s -> continues s0 (say t s).
Proof.
  apply (continues_one s (say t s) [] [t ++ [10]] [] 0);
    try reflexivity; symmetry; apply app_nil_r.
Qed.

Lemma continues_say_error (t : pystr) (s0 s : Session) :
  continues s0 s -> continues s0 (say_error t s).
Proof.
  apply (continues_one s (say_error t s) [] [] [t ++ [10]] 0);
    try reflexivity; symmetry; apply app_nil_r.
Qed.

Lemma continues_note (lvl : severity) (msg : pystr) (s0 s : Session) :
  continues s0 s -> continues s0 (note lvl msg s).
Proof.
  apply (continues_one s (note lvl msg s) [(lvl, msg)] [] [] 0);
    try reflexivity; symmetry; apply app_nil_r.
Qed.

Lemma continues_input (t : pystr) (s0 s : Session) :
  continues s0 s -> continues s0 (snd (input t s)).
Proof.
  apply (continues_one s (snd (input t s)) [] [t] [] 1);
    try reflexivity; symmetry; apply app_nil_r.
Qed.

Lemma continues_after_call (self : TrainManager) (w : World)
  (s0 s : Session) :
  continues s0 s -> continues s0 (after_call self w s).
Proof.
  apply (continues_one s (after_call self w s)
           (map (fun r => (Level (fst r), snd r)) (log w)) [] [] 0);
    try reflexivity; symmetry; apply app_nil_r.
Qed.

Lemma continues_help (lines : list pystr) :
  forall s0 s : Session,
    continues s0 s ->
    continues s0 (fold_left (fun s' ln => say ln s') lines s).
Proof.
  induction lines as [|ln lines IH]; intros s0 s H; [exact H|].
  cbn [fold_left]. apply IH, continues_say, H.
Qed.

Lemma continues_length (s s' : Session) :
  continues s s' ->
  (List.length (journal s) <= List.length (journal s')
   /\ List.length (stdout s) <= List.length (stdout s'))%nat.
Proof.
  intros ((a & H1) & (o & H2) & _). rewrite H1, H2, !length_app. lia.
Qed.

Lemma continues_after_reading (self : TrainManager) (w : World)
  (s0 s : Session) :
  continues s0 s -> continues s0 (after_reading self w s).
Proof.
  apply (continues_one s (after_reading self w s)
           (map (fun r => (Level (fst r), snd r)) (log w)) [] [] 0);
    try reflexivity; symmetry; apply app_nil_r.
Qed.

Lemma continues_with_manager (self : TrainManager) (s0 s : Session) :
  continues s0 s -> continues s0 (with_manager self s).
Proof.
  apply (continues_one s (with_manager self s) [] [] [] 0);
    try reflexivity; symmetry; apply app_nil_r.
Qed.

Lemma continues_with_file (path : pystr) (content : bytes)
  (s0 s : Session) :
  continues s0 s -> continues s0 (with_file path content s).
Proof.
  apply (continues_one s (with_file path content s) [] [] [] 0);
    try reflexivity; symmetry; apply app_nil_r.
Qed.

Section Turn.

Variable str_lower : pystr -> pystr.
Variable float_repr : pystr -> pystr.
Variable float_is_zero : pystr -> bool.
Variable float_str : pystr -> pystr.
Variable exc_str : exn -> pystr.
Variable interrupted_sort : list pyval -> list pyval.
Variable interrupted_dump : pyval -> bytes.
Variable log_file : list (severity * pystr) -> bytes.

Lemma continues_handle (r : raised) (s0 s : Session) :
  continues s0 s -> continues s0 (handle exc_str r s).
Proof.
  intros H. unfold handle. apply continues_say_error, continues_note, H.
Qed.

Lemma continues_show (v : pyval) (s0 s : Session) :
  continues s0 s -> continues s0 (snd (show float_is_zero float_str v s)).
Proof.
  unfold show. destruct (print_trains float_is_zero float_str v) as [p r].
  apply (continues_one s _ [] (map (fun ln => ln ++ [10]) p) [] 0);
    try reflexivity; symmetry; apply app_nil_r.
Qed.

(** What [finish] ends in: the manager and the files are those the call
    has left, also when it was interrupted. *)
Lemma finish_state (o : outcome unit) (done : pystr)
  (broken s : Session) :
  continues s broken ->
  manager (state_of (finish exc_str o done broken s))
  = match o with
    | Returns _ self _ | Raises _ self _ => self
    | Interrupted _ => manager broken
    end
  /\ disk (state_of (finish exc_str o done broken s))
     = match o with
       | Returns _ _ w | Raises _ _ w => files w
       | Interrupted _ => disk broken
       end
  /\ continues s (state_of (finish exc_str o done broken s)).
Proof.
  intros Hb. destruct o as [[] self w|e self w|e]; cbn [finish state_of];
    (split; [reflexivity|]); (split; [reflexivity|]).
  - apply continues_say, continues_after_call, continues_refl.
  - apply continues_handle, continues_after_call, continues_refl.
  - apply continues_handle, Hb.
Qed.

Lemma do_add_state (s : Session) :
  disk (state_of (do_add exc_str interrupted_sort s)) = disk s
  /\ continues s (state_of (do_add exc_str interrupted_sort s)).
Proof.
  unfold do_add.
  destruct (input ask_departure_point s) as [o1 s1] eqn:E1.
  assert (H1 : continues s s1 /\ disk s1 = disk s).
  { apply (f_equal snd) in E1. cbn [snd] in E1. subst s1.
    split; [apply continues_input, continues_refl | reflexivity]. }
  destruct H1 as (C1 & D1).
  destruct o1 as [dp|];
    [|cbn [state_of]; split; [exact D1 | apply continues_handle, C1]].
  destruct (input ask_number_train s1) as [o2 s2] eqn:E2.
  assert (H2 : continues s s2 /\ disk s2 = disk s).
  { apply (f_equal snd) in E2. cbn [snd] in E2. subst s2.
    split; [apply continues_input, C1 | exact D1]. }
  destruct H2 as (C2 & D2).
  destruct o2 as [nt|];
    [|cbn [state_of]; split; [exact D2 | apply continues_handle, C2]].
  destruct (input ask_time_departure s2) as [o3 s3] eqn:E3.
  assert (H3 : continues s s3 /\ disk s3 = disk s).
  { apply (f_equal snd) in E3. cbn [snd] in E3. subst s3.
    split; [apply continues_input, C2 | exact D2]. }
  destruct H3 as (C3 & D3).
  destruct o3 as [td|];
    [|cbn [state_of]; split; [exact D3 | apply continues_handle, C3]].
  destruct (input ask_destination s3) as [o4 s4] eqn:E4.
  assert (H4 : continues s s4 /\ disk s4 = disk s).
  { apply (f_equal snd) in E4. cbn [snd] in E4. subst s4.
    split; [apply continues_input, C3 | exact D3]. }
  destruct H4 as (C4 & D4).
  destruct o4 as [dest|];
    [|cbn [state_of]; split; [exact D4 | apply continues_handle, C4]].
  match goal with
  | |- context [finish exc_str ?o ?done ?broken s4] =>
      destruct (finish_state o done broken s4
                  (continues_with_manager _ s4 s4 (continues_refl s4)))
        as (_ & Hd & Hc)
  end.
  split; [|eapply continues_trans; eauto].
  rewrite Hd.
  pose proof (add_train_frame (manager s4) dp nt td dest (world_of s4))
    as F.
  destruct (add_train (manager s4) dp nt td dest (world_of s4))
    as [[] self w|e self w|e]; [| |exact D4];
    destruct F as (Hf & _); rewrite Hf; exact D4.
Qed.

Lemma do_list_state (s : Session) :
  manager (state_of (do_list float_is_zero float_str exc_str s))
  = manager s
  /\ disk (state_of (do_list float_is_zero float_str exc_str s)) = disk s
  /\ continues s (state_of (do_list float_is_zero float_str exc_str s)).
Proof.
  unfold do_list.
  destruct (show float_is_zero float_str (list_trains (manager s)) s)
    as [r s1] eqn:E.
  assert (H1 : continues s s1 /\ disk s1 = disk s /\ manager s1 = manager s).
  { apply (f_equal snd) in E. cbn [snd] in E. subst s1.
    split; [apply continues_show, continues_refl|].
    unfold show. destruct (print_trains _ _ _). split; reflexivity. }
  destruct H1 as (C1 & D1 & M1).
  destruct r as [[]|e].
  - destruct (py_len (list_trains (manager s))); cbn [state_of];
      (split; [exact M1|]); (split; [exact D1|]).
    + apply continues_note, C1.
    + apply continues_handle, C1.
  - cbn [state_of]. split; [exact M1|]. split; [exact D1|].
    apply continues_handle, C1.
Qed.

Lemma do_select_state (p : pystr) (s : Session) :
  manager (state_of (do_select str_lower float_is_zero float_str exc_str
                       p s))
  = manager s
  /\ disk (state_of (do_select str_lower float_is_zero float_str exc_str
                       p s))
     = disk s
  /\ continues s
       (state_of (do_select str_lower float_is_zero float_str exc_str p s)).
Proof.
  unfold do_select.
  pose proof (select_trains_frame str_lower (manager s) p (world_of s))
    as F.
  destruct (select_trains str_lower (manager s) p (world_of s))
    as [sel self w|e self w|e].
  - destruct F as (-> & Hf & _).
    destruct (show float_is_zero float_str (PList sel)
                (after_call (manager s) w s)) as [r s1] eqn:E.
    assert (H1 : continues s s1 /\ disk s1 = disk s
                 /\ manager s1 = manager s).
    { apply (f_equal snd) in E. cbn [snd] in E. subst s1.
      split; [apply continues_show, continues_after_call, continues_refl|].
      unfold show. destruct (print_trains _ _ _).
      split; [exact Hf | reflexivity]. }
    destruct H1 as (C1 & D1 & M1).
    destruct r as [[]|e]; cbn [state_of];
      (split; [exact M1|]); (split; [exact D1|]).
    + exact C1.
    + apply continues_handle, C1.
  - destruct F as (-> & Hf & _). cbn [state_of].
    split; [reflexivity|]. split; [exact Hf|].
    apply continues_handle, continues_after_call, continues_refl.
  - cbn [state_of]. split; [reflexivity|]. split; [reflexivity|].
    apply continues_handle, continues_refl.
Qed.

Lemma do_load_log_state (s : Session) :
  disk (state_of (do_load_log exc_str log_file s)) = disk s
  /\ continues s (state_of (do_load_log exc_str log_file s)).
Proof.
  unfold do_load_log. destruct (load_from_json _ _ _); cbn [state_of];
    (split; [reflexivity|]).
  - apply continues_say, continues_after_reading, continues_refl.
  - apply continues_handle, continues_after_reading, continues_refl.
  - apply continues_handle, continues_refl.
Qed.

(** X25 (what a command leaves alone).  After a turn of the loop that
    read a line, whatever the command and whether or not an exception was
    caught, the manager is as before unless the command was [add] or
    began with ["load "], and the files are as before unless the command
    was a [save], which touches only the file under the completed
    name. *)
Theorem loop_body_changes :
  forall (s s' : Session) (line : pystr) (rest : list pystr),
    stdin s = line :: rest ->
    state_of
      (loop_body str_lower float_repr float_is_zero float_str exc_str
         interrupted_sort interrupted_dump log_file s)
    = s' ->
    (manager s' = manager s
     \/ str_lower (strip line) = c_add
     \/ startswith (str_lower (strip line)) c_load_ = true)
    /\ (disk s' = disk s
        \/ exists filename,
             dispatch (str_lower (strip line)) = inl (DoSave filename)
             /\ forall p, p <> save_path filename -> disk s' p = disk s p).
Proof.
  intros s s' line rest Hs <-. unfold loop_body, input. rewrite Hs.
  cbn [hd_error tl].
  destruct (dispatch (str_lower (strip line))) as [[| | |p|f|f|]|e] eqn:D.
  - cbn [state_of]. split; left; reflexivity.
  - match goal with
    | |- context [do_add exc_str interrupted_sort ?s2] =>
        destruct (do_add_state s2) as (Hd & _)
    end.
    split; [right; left; apply dispatch_add_only, D | left; exact Hd].
  - match goal with
    | |- context [do_list float_is_zero float_str exc_str ?s2] =>
        destruct (do_list_state s2) as (Hm & Hd & _)
    end.
    split; left; assumption.
  - match goal with
    | |- context [do_select str_lower float_is_zero float_str exc_str p
                    ?s2] =>
        destruct (do_select_state p s2) as (Hm & Hd & _)
    end.
    split; left; assumption.
  - split; [right; right; eapply dispatch_load_only, D|]. left.
    destruct (str_eqb f log_name).
    + match goal with
      | |- context [do_load_log exc_str log_file ?s2] =>
          destruct (do_load_log_state s2) as (Hd & _)
      end.
      exact Hd.
    + match goal with
      | |- context [finish exc_str ?o ?done ?broken ?s2] =>
          destruct (finish_state o done broken s2 (continues_refl s2))
            as (_ & Hd & _)
      end.
      rewrite Hd.
      match goal with
      | |- context [load_from_json ?m f ?w] =>
          pose proof (load_from_json_frame m f w) as F;
          destruct (load_from_json m f w) as [[] self w'|e self w'|e];
          [| |reflexivity]; destruct F as (Hf & _); rewrite Hf; reflexivity
      end.
  - match goal with
    | |- context [finish exc_str ?o ?done ?broken ?s2] =>
        destruct (finish_state o done broken s2
                    (continues_with_file _ _ s2 s2 (continues_refl s2)))
          as (Hm & Hd & _)
    end.
    rewrite Hm, Hd.
    match goal with
    | |- context [save_to_json float_repr ?m f ?w] =>
        pose proof (save_to_json_frame float_repr m f w) as F;
        destruct (save_to_json float_repr m f w)
          as [[] self w'|e self w'|e]
    end.
    + destruct F as (-> & Hf & _). split; [left; reflexivity|].
      right. exists f. split; [reflexivity|]. intros q Hq. apply Hf, Hq.
    + destruct F as (-> & Hf & _). split; [left; reflexivity|].
      right. exists f. split; [reflexivity|]. intros q Hq. apply Hf, Hq.
    + split; [left; reflexivity|].
      right. exists f. split; [reflexivity|]. intros q Hq.
      cbn [with_file disk note]. apply str_eqb_neq in Hq. rewrite Hq.
      reflexivity.
  - split; left; reflexivity.
  - cbn [state_of]. split; left; reflexivity.
Qed.

Lemma loop_body_appends (s : Session) :
  continues s
    (state_of
       (loop_body str_lower float_repr float_is_zero float_str exc_str
          interrupted_sort interrupted_dump log_file s))
  /\ (List.length (journal s)
      < List.length
          (journal
             (state_of
                (loop_body str_lower float_repr float_is_zero float_str
                   exc_str interrupted_sort interrupted_dump log_file s)))
      /\ List.length (stdout s)
         < List.length
             (stdout
                (state_of
                   (loop_body str_lower float_repr float_is_zero float_str
                      exc_str interrupted_sort interrupted_dump log_file
                      s))))%nat.
Proof.
  unfold loop_body.
  destruct (input prompt s) as [o s1] eqn:E.
  assert (H1 : continues s s1 /\ journal s1 = journal s
               /\ stdout s1 = stdout s ++ [prompt]).
  { apply (f_equal snd) in E. cbn [snd] in E. subst s1.
    split; [apply continues_input, continues_refl | split; reflexivity]. }
  destruct H1 as (C1 & J1 & O1).
  assert (L1 : (List.length (stdout s) < List.length (stdout s1))%nat)
    by (rewrite O1, length_app; cbn [List.length]; lia).
  destruct o as [line|].
  - cbv zeta.
    set (s2 := note (Level INFO)
                 (msg_command_1 ++ str_lower (strip line) ++ msg_command_2)
                 s1).
    assert (C2 : continues s s2) by (apply continues_note, C1).
    assert (L2 : (List.length (journal s) < List.length (journal s2)
                  /\ List.length (stdout s) < List.length (stdout s2))%nat).
    { subst s2. cbn [note journal stdout]. rewrite J1, length_app.
      cbn [List.length]. lia. }
    assert (K : forall s3, continues s2 s3 ->
                continues s s3
                /\ (List.length (journal s) < List.length (journal s3)
                    /\ List.length (stdout s) < List.length (stdout s3))%nat).
    { intros s3 C3. split; [eapply continues_trans; eauto|].
      apply continues_length in C3. lia. }
    destruct (dispatch (str_lower (strip line))) as [[| | |p|f|f|]|e];
      apply K.
    + cbn [state_of]. apply continues_say, continues_note, continues_refl.
    + apply do_add_state.
    + apply do_list_state.
    + apply do_select_state.
    + destruct (str_eqb f log_name); [apply do_load_log_state|].
      apply finish_state, continues_refl.
    + apply finish_state, continues_with_file, continues_refl.
    + cbn [state_of]. apply continues_help, continues_refl.
    + cbn [state_of]. apply continues_handle, continues_refl.
  - cbn [state_of]. split; [apply continues_handle, C1|].
    unfold handle. cbn [say_error note journal stdout].
    rewrite J1, length_app. cbn [List.length]. lia.
Qed.

(** X26 (the log and the outputs only grow).  However many turns the loop
    takes and whatever is typed, what was logged and what was written to
    the two outputs before is still there, unchanged, with the new
    records and texts after it, and the input left is a tail of the input
    there was.  While the loop goes on, every turn has added at least one
    record to the log and the prompt to standard output; when it has
    stopped, at least the last turn has. *)
Theorem run_appends :
  forall (turns : nat) (s : Session),
    continues s
      (state_of
         (run str_lower float_repr float_is_zero float_str exc_str
            interrupted_sort interrupted_dump log_file turns s))
    /\ match run str_lower float_repr float_is_zero float_str exc_str
               interrupted_sort interrupted_dump log_file turns s with
       | Continue s' =>
           (List.length (journal s) + turns <= List.length (journal s')
            /\ List.length (stdout s) + turns <= List.length (stdout s'))%nat
       | Stop s' =>
           (List.length (journal s) < List.length (journal s')
            /\ List.length (stdout s) < List.length (stdout s'))%nat
       end.
Proof.
  induction turns as [|turns IH]; intros s.
  - cbn [run state_of]. split; [apply continues_refl | lia].
  - cbn [run].
    pose proof (loop_body_appends s) as (C1 & L1).
    destruct (loop_body str_lower float_repr float_is_zero float_str
                exc_str interrupted_sort interrupted_dump log_file s)
      as [s1|s1]; cbn [state_of] in C1, L1.
    + destruct (IH s1) as (C2 & L2).
      split; [eapply continues_trans; eauto|].
      destruct (run str_lower float_repr float_is_zero float_str exc_str
                  interrupted_sort interrupted_dump log_file turns s1);
        lia.
    + cbn [state_of]. split; [exact C1 | exact L1].
Qed.

End Turn.

Lemma loop_body_add_witness :
  exists l2,
    loop_body ascii_lower (fun l => l) (fun _ => false) (fun l => l)
      (fun _ => [])
      (fun l => l) (fun _ => []) (fun _ => [])
      (start (fun _ => None)
         [lit " Add"; lit "Moscow"; lit "101"; lit "09:15"; lit "Kazan"])
    = Continue
        {| manager := {| trains := PList l2 |}; disk := fun _ => None;
           journal :=
             [(Level INFO, msg_started)]
             ++ [(Level INFO, msg_command_1 ++ c_add ++ msg_command_2);
                 (Level INFO,
                  msg_added_1 ++ lit "Moscow" ++ msg_added_2 ++ lit "101"
                  ++ msg_added_3 ++ lit "09:15" ++ msg_added_4
                  ++ lit "Kazan")];
           stdin := [];
           stdout := [] ++ prompt :: add_prompts ++ [msg_train_added ++ [10]];
           stderr := [] |}
    /\ Permutation
         ([] ++ [train_dict (lit "Moscow") (lit "101") (lit "09:15")
                   (lit "Kazan")]) l2
    /\ sorted_by_time l2.
Proof.
  apply (loop_body_add ascii_lower (fun l => l) (fun _ => false)
           (fun l => l) (fun _ => [])
           (fun l => l) (fun _ => []) (fun _ => [])
           (start (fun _ => None)
              [lit " Add"; lit "Moscow"; lit "101"; lit "09:15";
               lit "Kazan"])
           (lit " Add") (lit "Moscow") (lit "101") (lit "09:15")
           (lit "Kazan") [] []);
    [reflexivity | reflexivity | reflexivity | constructor].
Defined.

Lemma loop_body_add_end_of_input_witness :
  loop_body ascii_lower (fun l => l) (fun _ => false) (fun l => l)
    (fun _ => [])
    (fun l => l) (fun _ => []) (fun _ => [])
    (start (fun _ => None) [lit "add"; lit "Moscow"; lit "101"])
  = Continue
      {| manager := init; disk := fun _ => None;
         journal :=
           [(Level INFO, msg_started)]
           ++ [(Level INFO, msg_command_1 ++ c_add ++ msg_command_2);
               (ERROR, msg_error_log ++ msg_eof_error)];
         stdin := [];
         stdout :=
           [] ++ [prompt; ask_departure_point; ask_number_train;
                  ask_time_departure];
         stderr := [] ++ [(msg_error ++ msg_eof_error) ++ [10]] |}.
Proof.
  apply (loop_body_add_end_of_input ascii_lower (fun l => l)
           (fun _ => false) (fun l => l) (fun _ => [])
           (fun l => l) (fun _ => []) (fun _ => [])
           (start (fun _ => None) [lit "add"; lit "Moscow"; lit "101"])
           (lit "add") [lit "Moscow"; lit "101"]);
    [reflexivity | reflexivity | cbn; lia].
Defined.

Lemma loop_body_list_witness :
  loop_body ascii_lower (fun l => l) (fun _ => false) (fun l => l)
    (fun _ => [])
    (fun l => l) (fun _ => []) (fun _ => [])
    {| manager := two_trains; disk := fun _ => None; journal := [];
       stdin := [lit "LIST"]; stdout := []; stderr := [] |}
  = Continue
      {| manager := two_trains; disk := fun _ => None;
         journal :=
           [] ++ [(Level INFO, msg_command_1 ++ c_list ++ msg_command_2);
                  (Level INFO, msg_listed_1 ++ lit "2" ++ msg_listed_2)];
         stdin := [];
         stdout :=
           [] ++ prompt
                 :: map (fun ln => ln ++ [10])
                      [table_line; table_header; table_line;
                       table_row 1 (lit "Moscow") (lit "101") (lit "09:15")
                         (lit "Kazan");
                       table_line;
                       table_row 2 (lit "Moscow") (lit "202") (lit "08:00")
                         (lit "Samara");
                       table_line];
         stderr := [] |}.
Proof.
  apply (loop_body_list ascii_lower (fun l => l) (fun _ => false)
           (fun l => l) (fun _ => [])
           (fun l => l) (fun _ => []) (fun _ => [])
           {| manager := two_trains; disk := fun _ => None; journal := [];
              stdin := [lit "LIST"]; stdout := []; stderr := [] |}
           (lit "LIST") [] [moscow_kazan; moscow_samara]
           [(lit "Moscow", lit "101", lit "09:15", lit "Kazan");
            (lit "Moscow", lit "202", lit "08:00", lit "Samara")]);
    reflexivity.
Defined.

Lemma loop_body_select_witness :
  loop_body ascii_lower (fun l => l) (fun _ => false) (fun l => l)
    (fun _ => [])
    (fun l => l) (fun _ => []) (fun _ => [])
    {| manager := two_trains; disk := fun _ => None; journal := [];
       stdin := [lit "select SAMARA"]; stdout := []; stderr := [] |}
  = Continue
      {| manager := two_trains; disk := fun _ => None;
         journal :=
           [] ++ [(Level INFO,
                   msg_command_1 ++ lit "select samara" ++ msg_command_2);
                  (Level INFO,
                   msg_select_1 ++ lit "samara" ++ msg_select_2 ++ lit "1"
                   ++ msg_select_3)];
         stdin := [];
         stdout :=
           [] ++ prompt
                 :: map (fun ln => ln ++ [10])
                      [table_line; table_header; table_line;
                       table_row 1 (lit "Moscow") (lit "202") (lit "08:00")
                         (lit "Samara");
                       table_line];
         stderr := [] |}.
Proof.
  apply (loop_body_select ascii_lower (fun l => l) (fun _ => false)
           (fun l => l) (fun _ => [])
           (fun l => l) (fun _ => []) (fun _ => [])
           {| manager := two_trains; disk := fun _ => None; journal := [];
              stdin := [lit "select SAMARA"]; stdout := []; stderr := [] |}
           (lit "select SAMARA") (lit "samara") []
           [moscow_kazan; moscow_samara]
           [(lit "Moscow", lit "101", lit "09:15", lit "Kazan");
            (lit "Moscow", lit "202", lit "08:00", lit "Samara")]);
    reflexivity.
Defined.

Lemma loop_body_changes_witness :
  (manager
     {| manager := init; disk := fun _ => None;
        journal :=
          [(Level INFO, msg_started);
           (Level INFO, msg_command_1 ++ c_list ++ msg_command_2);
           (Level INFO, msg_listed_1 ++ lit "0" ++ msg_listed_2)];
        stdin := []; stdout := [prompt; msg_empty ++ [10]]; stderr := [] |}
   = manager (start (fun _ => None) [lit "list"])
   \/ ascii_lower (strip (lit "list")) = c_add
   \/ startswith (ascii_lower (strip (lit "list"))) c_load_ = true)
  /\ (disk
        {| manager := init; disk := fun _ => None;
           journal :=
             [(Level INFO, msg_started);
              (Level INFO, msg_command_1 ++ c_list ++ msg_command_2);
              (Level INFO, msg_listed_1 ++ lit "0" ++ msg_listed_2)];
           stdin := []; stdout := [prompt; msg_empty ++ [10]];
           stderr := [] |}
      = disk (start (fun _ => None) [lit "list"])
      \/ exists filename,
           dispatch (ascii_lower (strip (lit "list")))
           = inl (DoSave filename)
           /\ forall p,
                p <> save_path filename ->
                disk
                  {| manager := init; disk := fun _ => None;
                     journal :=
                       [(Level INFO, msg_started);
                        (Level INFO,
                         msg_command_1 ++ c_list ++ msg_command_2);
                        (Level INFO,
                         msg_listed_1 ++ lit "0" ++ msg_listed_2)];
                     stdin := []; stdout := [prompt; msg_empty ++ [10]];
                     stderr := [] |} p
                = disk (start (fun _ => None) [lit "list"]) p).
Proof.
  apply (loop_body_changes ascii_lower (fun l => l) (fun _ => false)
           (fun l => l) (fun _ => []) (fun l => l) (fun _ => [])
           (fun _ => [])
           (start (fun _ => None) [lit "list"]) _ (lit "list") []);
    reflexivity.
Defined.

(** A turn whose exception is caught: the sort of [add_train] is
    interrupted on a list loaded with a number for a departure time, and
    the loop goes on with the record appended. *)
Example loop_body_add_interrupted :
  loop_body ascii_lower (fun l => l) (fun _ => false) (fun l => l)
    (fun _ => lit "TypeError") (fun l => l) (fun _ => []) (fun _ => [])
    {| manager :=
         {| trains := PList [PDict [(k_time_departure, PInt 5)]] |};
       disk := fun _ => None; journal := [];
       stdin := [lit "add"; lit "Moscow"; lit "101"; lit "09:15";
                 lit "Kazan"];
       stdout := []; stderr := [] |}
  = Continue
      {| manager :=
           {| trains :=
                PList [PDict [(k_time_departure, PInt 5)];
                       moscow_kazan] |};
         disk := fun _ => None;
         journal :=
           [(Level INFO, msg_command_1 ++ c_add ++ msg_command_2);
            (ERROR, msg_error_log ++ lit "TypeError")];
         stdin := [];
         stdout := prompt :: add_prompts;
         stderr := [(msg_error ++ lit "TypeError") ++ [10]] |}.
Proof. vm_compute. reflexivity. Qed.

(** ** The texts of the table, and a command, on concrete input *)

Example table_line_text :
  table_line
  = lit "+------+----------------------+---------------+--------------------+----------------------+".
Proof. vm_compute. reflexivity. Qed.

Example table_header_text :
  table_header
  = lit "|  №   |  Пункт отправления   |   № поезда    | Время отправления  |   Пункт назначения   |".
Proof. vm_compute. reflexivity. Qed.

Example table_row_text :
  table_row 12 (lit "Moscow") (lit "101") (lit "09:15")
    (lit "Nizhny Novgorod-Moskovsky")
  = lit "|   12 | Moscow               | 101           |              09:15 | Nizhny Novgorod-Moskovsky |".
Proof. vm_compute. reflexivity. Qed.

Example dispatch_select_text :
  dispatch (ascii_lower (strip (lit "  select   Nizhny  Novgorod ")))
  = inl (DoSelect (lit "nizhny  novgorod")).
Proof. vm_compute. reflexivity. Qed.
